(** * PDF learning system: content synthesis and the parallel pipeline

    A shallow embedding of [enhanced_ai_processor.py] (per-topic generation
    of concepts, multiple-choice and subjective questions, with backfill and
    duplicate removal; the extraction and cleaning of the text of a document
    and the search for its headings), of [parallel_pdf_processor.py] (the
    worker pool, the shared list of processed documents, the index page and
    the names of the pages) and of [html_generator.py] (what the page of a
    document is filled with), followed by the properties established about
    them.

    Conventions of the embedding.
    - Values decoded from the model's JSON replies are dynamically typed in
      the source; they are kept as [pyval] and every operation the source
      applies to them raises what Python raises on the wrong shape.
    - Python [str] is embedded as [string], character by character: a
      string stands for the text whose characters are its bytes, which is
      the source's text when that text is ASCII.  [lower], [strip], the
      character classes of the regular expressions and [isalnum], [isupper]
      and [isdigit] are Python's on that range, and lengths count
      characters there.  A statement that depends on how the characters of
      a text are classed or counted is made of ASCII text, which it says by
      a hypothesis [isascii].
    - The processor is the object [__init__] leaves: the attributes it sets
      once the settings of the service are found are missing when they are
      not, and reading a missing attribute raises [AttributeError].
    - Exceptions are explicit: [result] carries either a value or the raised
      exception, and [try_except] is the source's [try]/[except Exception].
    - The hosted model is an oracle: the replies it gives, already passed
      through [json.loads], are consumed one per API call.
    - The file system is a map from paths to contents and writing to it
      succeeds; the pages are kept as the values their templates are
      filled with.
    - The worker threads are interleaved at the granularity of whole jobs:
      a job takes effect when it finishes, and the order in which the jobs
      of a run finish is any order the pool allows.  This is exact for what
      the jobs do under the lock, to [processed_pdfs] and to the index
      file.  The page of a document is written before the lock is taken;
      what is stated of the files is stated of runs in which this makes no
      difference: no page is written to the index file, and no two jobs
      that may run at the same time write to one file. *)

From Stdlib Require Import ZArith String Ascii DecimalString DecimalNat.
From stdpp Require Import base list strings gmap.

Set Warnings "-register-all".

Local Open Scope string_scope.

(** ** Python values and the operations the source applies to them *)

Module Py.

Inductive pyval : Type :=
| PNone
| PBool (b : bool)
| PInt (n : Z)
| PStr (s : string)
| PList (l : list pyval)
| PDict (d : list (string * pyval)).

Inductive pyexn : Type := TypeError | KeyError | AttributeError | ValueError.

Inductive result (A : Type) : Type :=
| Ok (a : A)
| Raise (e : pyexn).
Arguments Ok {A} a.
Arguments Raise {A} e.

Definition rbind {A B} (r : result A) (k : A -> result B) : result B :=
  match r with
  | Ok a => k a
  | Raise e => Raise e
  end.

Declare Scope py_scope.
Delimit Scope py_scope with py.
Notation "'let?' x := r 'in' k" := (rbind r (fun x => k))
  (at level 10, x name, r at level 100, k at level 200) : py_scope.
Local Open Scope py_scope.

(** [str(n)] for a non-negative integer, as an f-string prints it. *)
Definition str_of_nat (n : nat) : string :=
  NilZero.string_of_uint (Nat.to_uint n).

(** A [dict] keeps its keys in insertion order; assignment to a present key
    keeps the key's position. *)
Fixpoint dict_lookup (k : string) (d : list (string * pyval)) : option pyval :=
  match d with
  | [] => None
  | (k', v) :: d' => if decide (k = k') then Some v else dict_lookup k d'
  end.

Fixpoint dict_set (k : string) (v : pyval) (d : list (string * pyval))
  : list (string * pyval) :=
  match d with
  | [] => [(k, v)]
  | (k', v') :: d' =>
      if decide (k = k') then (k, v) :: d' else (k', v') :: dict_set k v d'
  end.

(** [len(o)] *)
Definition py_len (o : pyval) : result nat :=
  match o with
  | PStr s => Ok (String.length s)
  | PList l => Ok (length l)
  | PDict d => Ok (length d)
  | _ => Raise TypeError
  end.

(** The elements [for x in o] ranges over: the items of a list, the
    one-character strings of a string, the keys of a dict. *)
Definition py_iter (o : pyval) : result (list pyval) :=
  match o with
  | PList l => Ok l
  | PStr s => Ok (map (fun c => PStr (String c EmptyString)) (list_ascii_of_string s))
  | PDict d => Ok (map (fun kv => PStr (fst kv)) d)
  | _ => Raise TypeError
  end.

(** [o[k] = v] with a string key: only a dict accepts it. *)
Definition py_setitem (o : pyval) (k : string) (v : pyval) : result pyval :=
  match o with
  | PDict d => Ok (PDict (dict_set k v d))
  | _ => Raise TypeError
  end.

(** [o[k]] with a string key. *)
Definition py_getitem (o : pyval) (k : string) : result pyval :=
  match o with
  | PDict d =>
      match dict_lookup k d with
      | Some v => Ok v
      | None => Raise KeyError
      end
  | _ => Raise TypeError
  end.

(** [o.get(k, default)] *)
Definition py_get (o : pyval) (k : string) (dflt : pyval) : result pyval :=
  match o with
  | PDict d => Ok (default dflt (dict_lookup k d))
  | _ => Raise AttributeError
  end.

(** [o.extend(items)] *)
Definition py_extend (o : pyval) (items : list pyval) : result pyval :=
  match o with
  | PList l => Ok (PList (l ++ items))
  | _ => Raise AttributeError
  end.

(** [o[:n]]; subscripting a dict with a slice raises ([TypeError] up to
    Python 3.11, [KeyError] from 3.12 on: every handler here treats them
    alike). *)
Definition py_slice_to (o : pyval) (n : nat) : result pyval :=
  match o with
  | PList l => Ok (PList (take n l))
  | PStr s => Ok (PStr (String.substring 0 n s))
  | _ => Raise TypeError
  end.

(** [str.lower] *)
Definition lower_ascii (c : ascii) : ascii :=
  let n := nat_of_ascii c in
  if (65 <=? n)%nat && (n <=? 90)%nat then ascii_of_nat (n + 32) else c.

Fixpoint lower (s : string) : string :=
  match s with
  | EmptyString => EmptyString
  | String c s' => String (lower_ascii c) (lower s')
  end.

(** [o.lower()] *)
Definition py_lower (o : pyval) : result string :=
  match o with
  | PStr s => Ok (lower s)
  | _ => Raise AttributeError
  end.

(** [str.strip]: the characters [str.isspace] accepts below 128. *)
Definition is_space (c : ascii) : bool :=
  let n := nat_of_ascii c in
  ((9 <=? n)%nat && (n <=? 13)%nat) || ((28 <=? n)%nat && (n <=? 32)%nat).

Fixpoint lstrip_chars (l : list ascii) : list ascii :=
  match l with
  | c :: l' => if is_space c then lstrip_chars l' else l
  | [] => []
  end.

Definition strip (s : string) : string :=
  string_of_list_ascii
    (rev (lstrip_chars (rev (lstrip_chars (list_ascii_of_string s))))).

(** [s.isascii()]: every character of the text lies in the ASCII range. *)
Definition isascii (s : string) : bool :=
  forallb (fun c => (nat_of_ascii c <? 128)%nat) (list_ascii_of_string s).

(** [for i, x in enumerate(o): x = body(i, x)], for a body that updates
    [x] in place.  A list ends up holding the updated items; a string or a
    dict is ranged over by values that are not its own, so it is left as it
    was when the body never raises. *)
Fixpoint for_enumerate (body : nat -> pyval -> result pyval) (i : nat)
    (items : list pyval) : result (list pyval) :=
  match items with
  | [] => Ok []
  | x :: rest =>
      let? x' := body i x in
      let? rest' := for_enumerate body (S i) rest in
      Ok (x' :: rest')
  end.

Definition py_for_enumerate (body : nat -> pyval -> result pyval) (o : pyval)
  : result pyval :=
  let? items := py_iter o in
  let? items' := for_enumerate body 0 items in
  Ok (match o with PList _ => PList items' | _ => o end).

End Py.

(** ** [EnhancedAIPDFProcessor]: content synthesis per topic *)

Module Processor.
Import Py.
Local Open Scope py_scope.

Inductive kind : Type := Concepts | Mcqs | Subjective.

(** What a run leaves behind besides its result: the API calls made, the
    calls to the [_generate_additional_*] backfill helpers (with the count
    and first identifier they were asked for) and the warnings printed by
    the [except] handlers. *)
Inductive event : Type :=
| ApiCall (k : kind) (topic : string) (count : nat)
| Backfill (k : kind) (count : nat) (start_id : nat)
| Warned (k : kind) (topic : string).

(** The reply to one [_call_ai_api], as [json.loads] decodes the slice
    between its first and last brace; [None] when the call failed (the
    source then has the empty string), when the reply has no braces or when
    [json.loads] raises.  Calls made once [replies] is used up fail. *)
Definition response : Type := option pyval.

Record world : Type := {
  replies : list response;
  trail : list event
}.

(** State (the oracle and the trail) and exceptions. *)
Definition M (A : Type) : Type := world -> result A * world.

Definition ret {A} (a : A) : M A := fun w => (Ok a, w).

Definition bind {A B} (m : M A) (k : A -> M B) : M B :=
  fun w =>
    match m w with
    | (Ok a, w') => k a w'
    | (Raise e, w') => (Raise e, w')
    end.

Definition lift {A} (r : result A) : M A := fun w => (r, w).

Definition emit (e : event) : M unit :=
  fun w => (Ok tt, {| replies := replies w; trail := trail w ++ [e] |}).

(** [try: body except Exception as e: handler] *)
Definition try_except {A} (body : M A) (handler : pyexn -> M A) : M A :=
  fun w =>
    match body w with
    | (Ok a, w') => (Ok a, w')
    | (Raise e, w') => handler e w'
    end.

Notation "'let!' x := m 'in' k" := (bind m (fun x => k))
  (at level 10, x name, m at level 100, k at level 200) : py_scope.

(** [_call_ai_api]: it catches its own exceptions, so it always returns.
    A call fails, and the reply is [None], also when the processor was left
    without [base_url] and [headers] by [__init__]: reading them raises
    inside the [try]. *)
Definition _call_ai_api (k : kind) (topic : string) (count : nat) : M response :=
  fun w =>
    (Ok (default None (head (replies w))),
     {| replies := tail (replies w);
        trail := trail w ++ [ApiCall k topic count] |}).

(** [_parse_*_response]: [parsed.get(key, [])], and [[]] whenever anything
    raises on the way. *)
Definition parse_response (key : string) (r : response) : pyval :=
  match r with
  | Some parsed =>
      match py_get parsed key (PList []) with
      | Ok v => v
      | Raise _ => PList []
      end
  | None => PList []
  end.

Definition _parse_concepts_response : response -> pyval := parse_response "concepts".
Definition _parse_mcqs_response : response -> pyval := parse_response "mcqs".
Definition _parse_subjective_response : response -> pyval := parse_response "subjective".

Definition _generate_additional_concepts (text_content : string) (count : nat)
  : list pyval :=
  map (fun i : nat =>
         PDict [("title", PStr ("Additional Concept " ++ str_of_nat (i + 1)));
                ("description",
                 PStr "Important educational concept extracted from the textbook content.")])
      (seq 0 count).

Definition _generate_additional_mcqs (text_content : string) (count start_id : nat)
  : list pyval :=
  map (fun i : nat =>
         PDict [("id", PInt (Z.of_nat (start_id + i)));
                ("question",
                 PStr ("Additional MCQ question " ++ str_of_nat (start_id + i) ++ "?"));
                ("options",
                 PList [PStr "Option A"; PStr "Option B"; PStr "Option C"; PStr "Option D"]);
                ("correct_answer", PInt 0)])
      (seq 0 count).

Definition _generate_additional_subjective (text_content : string)
    (count start_id : nat) : list pyval :=
  map (fun i : nat =>
         PDict [("id", PInt (Z.of_nat (start_id + i)));
                ("question",
                 PStr ("Additional subjective question " ++ str_of_nat (start_id + i) ++ "?"));
                ("answer",
                 PStr ("Comprehensive answer for question " ++ str_of_nat (start_id + i) ++ "."));
                ("marks", PStr "3 Marks");
                ("important", PBool false)])
      (seq 0 count).

(** [item['question'].lower().strip()] *)
Definition question_text (item : pyval) : result string :=
  let? q := py_getitem item "question" in
  let? l := py_lower q in
  Ok (strip l).

(** The loop that removes duplicates: an item is kept when its question
    text has not been seen before. *)
Fixpoint remove_duplicates (items : list pyval) (seen_questions : gset string)
    (unique : list pyval) : result (list pyval) :=
  match items with
  | [] => Ok unique
  | item :: rest =>
      let? q := question_text item in
      if decide (q ∈ seen_questions)
      then remove_duplicates rest seen_questions unique
      else remove_duplicates rest ({[q]} ∪ seen_questions) (unique ++ [item])
  end.

Definition set_id (start_id i : nat) (item : pyval) : result pyval :=
  py_setitem item "id" (PInt (Z.of_nat (start_id + i))).

(** [_generate_mcqs_for_topic] and [_generate_subjective_for_topic] are the
    same code up to the response key and the backfill helper. *)
Definition generate_questions (k : kind) (parse : response -> pyval)
    (additional : string -> nat -> nat -> list pyval)
    (topic text_content : string) (min_items start_id : nat) : M (list pyval) :=
  try_except
    (let! response := _call_ai_api k topic min_items in
     let items := parse response in
     (* Fix IDs to be sequential starting from start_id *)
     let! items := lift (py_for_enumerate (set_id start_id) items) in
     (* Ensure minimum *)
     let! n := lift (py_len items) in
     let! items :=
       (if (n <? min_items)%nat
        then
          let! _ := emit (Backfill k (min_items - n) (start_id + n)) in
          lift (py_extend items (additional text_content (min_items - n) (start_id + n)))
        else ret items) in
     (* Remove duplicates based on question content *)
     let! items := lift (py_iter items) in
     let! unique := lift (remove_duplicates items ∅ []) in
     ret (take min_items unique))
    (fun _ => let! _ := emit (Warned k topic) in ret []).

Definition _generate_mcqs_for_topic : string -> string -> nat -> nat -> M (list pyval) :=
  generate_questions Mcqs _parse_mcqs_response _generate_additional_mcqs.

Definition _generate_subjective_for_topic : string -> string -> nat -> nat -> M (list pyval) :=
  generate_questions Subjective _parse_subjective_response _generate_additional_subjective.

(** [_generate_text_only_concepts].  What it returns is whatever
    [concepts[:min_concepts]] is: a list when the reply held a list. *)
Definition _generate_text_only_concepts (topic text_content : string)
    (min_concepts : nat) : M pyval :=
  try_except
    (let! response := _call_ai_api Concepts topic min_concepts in
     let concepts := _parse_concepts_response response in
     let! n := lift (py_len concepts) in
     let! concepts :=
       (if (n <? min_concepts)%nat
        then
          let! _ := emit (Backfill Concepts (min_concepts - n) 1) in
          lift (py_extend concepts (_generate_additional_concepts text_content (min_concepts - n)))
        else ret concepts) in
     lift (py_slice_to concepts min_concepts))
    (fun _ => let! _ := emit (Warned Concepts topic) in ret (PList [])).

(** [_generate_concepts_for_topic]: [process_pdf_with_structured_content]
    always passes [pdf_images = []] (image extraction is skipped), so no
    image is relevant and the text-only generation is what runs. *)
Definition _generate_concepts_for_topic (topic text_content : string)
    (min_concepts : nat) : M pyval :=
  _generate_text_only_concepts topic text_content min_concepts.

Record topic_info : Type := {
  main_topic : string;
  subtopics : list string
}.

Record subject_info_t : Type := {
  title : string;
  icon : string
}.

Record stats_t : Type := {
  total_concepts : nat;
  total_mcqs : nat;
  total_subjective : nat;
  main_topics : nat;
  total_subtopics : nat;
  images_used : nat
}.

Record content_data : Type := {
  subject_info : subject_info_t;
  concepts : list pyval;
  mcq_questions : list pyval;
  subjective_questions : list pyval;
  stats : stats_t
}.

(** The three lists [process_pdf_with_structured_content] grows. *)
Record lists : Type := {
  all_concepts : list pyval;
  all_mcqs : list pyval;
  all_subjective : list pyval
}.

(** The processor object, as [__init__] leaves it.  [api_key] and
    [endpoint] are always set, to a string or to [None].  [used_images] is
    set, to the empty set, only once both are found; with image extraction
    skipped it is never added to.  [base_url] and [headers], set with it,
    are read by [_call_ai_api] alone, within its [try]. *)
Record EnhancedAIPDFProcessor : Type := {
  api_key : option string;
  endpoint : option string;
  used_images : option (gset string)
}.

(** The truth value of a [str] or [None]. *)
Definition truthy (s : option string) : bool :=
  match s with
  | Some (String _ _) => true
  | _ => false
  end.

(** [__init__], for the key and the endpoint it is given or finds in the
    environment: [if not self.api_key or not self.endpoint: return]. *)
Definition __init__ (api_key endpoint : option string) : EnhancedAIPDFProcessor :=
  if negb (truthy api_key) || negb (truthy endpoint)
  then {| api_key := api_key; endpoint := endpoint; used_images := None |}
  else {| api_key := api_key; endpoint := endpoint; used_images := Some ∅ |}.

(** [len(self.used_images)] *)
Definition len_used_images (self : EnhancedAIPDFProcessor) : result nat :=
  match used_images self with
  | Some images => Ok (size images)
  | None => Raise AttributeError
  end.

Section Extractor.

Variable self : EnhancedAIPDFProcessor.

(** The collaborators that read the document.  Each of them handles its own
    exceptions in the source and returns a fallback value, so they are total;
    the outline is taken in its documented shape, a list of main topics with
    the names of their subtopics.  [_identify_topic_headings] asks the model
    too; its exchange is part of the collaborator and not of [replies]. *)
Variable _extract_text_from_pdf : string -> string.
Variable _identify_topic_headings : string -> list topic_info.
Variable _extract_subject_info : string -> subject_info_t.

(** The body shared by the two branches of the loop: concepts, then MCQs,
    then subjective questions for [topic], the concepts labelled [label]. *)
Definition generate_for (topic label text_content : string) (min_items : nat)
    (acc : lists) : M lists :=
  let! topic_concepts := _generate_concepts_for_topic topic text_content 1 in
  let! topic_concepts :=
    lift (py_for_enumerate (fun _ concept => py_setitem concept "topic" (PStr label))
                           topic_concepts) in
  let! topic_concepts := lift (py_iter topic_concepts) in
  let all_concepts := (all_concepts acc ++ topic_concepts)%list in
  let! topic_mcqs :=
    _generate_mcqs_for_topic topic text_content min_items (length (all_mcqs acc) + 1) in
  let all_mcqs := (all_mcqs acc ++ topic_mcqs)%list in
  let! topic_subjective :=
    _generate_subjective_for_topic topic text_content min_items
                                   (length (all_subjective acc) + 1) in
  let all_subjective := (all_subjective acc ++ topic_subjective)%list in
  ret {| all_concepts := all_concepts;
         all_mcqs := all_mcqs;
         all_subjective := all_subjective |}.

(** [for j, subtopic in enumerate(subtopics)] *)
Fixpoint for_subtopics (main_topic text_content : string) (subtopics : list string)
    (acc : lists) : M lists :=
  match subtopics with
  | [] => ret acc
  | subtopic :: rest =>
      let! acc := generate_for subtopic (main_topic ++ " → " ++ subtopic)
                               text_content 2 acc in
      for_subtopics main_topic text_content rest acc
  end.

(** [for i, topic_info in enumerate(topic_structure)] *)
Fixpoint for_topics (text_content : string) (topic_structure : list topic_info)
    (acc : lists) : M lists :=
  match topic_structure with
  | [] => ret acc
  | topic_info :: rest =>
      let! acc :=
        match subtopics topic_info with
        | _ :: _ =>
            for_subtopics (main_topic topic_info) text_content (subtopics topic_info) acc
        | [] =>
            generate_for (main_topic topic_info) (main_topic topic_info)
                         text_content 3 acc
        end in
      for_topics text_content rest acc
  end.

Definition process_pdf_with_structured_content (pdf_path : string) : M content_data :=
  let text_content := _extract_text_from_pdf pdf_path in
  let topic_structure := _identify_topic_headings text_content in
  let! acc := for_topics text_content topic_structure
                         {| all_concepts := []; all_mcqs := []; all_subjective := [] |} in
  let subject_info := _extract_subject_info pdf_path in
  let! images_used := lift (len_used_images self) in
  ret {| subject_info := subject_info;
         concepts := all_concepts acc;
         mcq_questions := all_mcqs acc;
         subjective_questions := all_subjective acc;
         stats :=
           {| total_concepts := length (all_concepts acc);
              total_mcqs := length (all_mcqs acc);
              total_subjective := length (all_subjective acc);
              main_topics := length topic_structure;
              total_subtopics :=
                sum_list (map (fun topic => length (subtopics topic)) topic_structure);
              images_used := images_used |} |}.

End Extractor.

End Processor.

(** ** [ParallelPDFLearningSystem]: the worker pool and the index page *)

Module Parallel.
Import Py.
Local Open Scope py_scope.

(** One entry of [self.processed_pdfs]. *)
Record pdf_info : Type := {
  title : string;
  icon : string;
  filename : string;
  stats : Processor.stats_t;
  original_pdf : string;
  processed_at : string
}.

(** What a file written by the system holds.  The two index pages are
    f-string templates; a page is kept as the values its template is
    instantiated with (the placeholder page shows [0 / total_pdfs completed],
    the results page one card per processed document and their number). *)
Inductive file_content : Type :=
| InitialIndexPage (total_pdfs : nat)
| IndexPage (cards : list pdf_info)
| HtmlPage (html : string).

(** The actions of a run, in the order they take effect. *)
Inductive event : Type :=
| MadeDirs (dir : string)
| NoPdfFiles
| Wrote (path : string) (content : file_content)
| Submitted (pdf_path : string)
| Completed (pdf_name output_filename : string)
| Failed (pdf_name : string)
| Reported (pdf_path : string) (success : bool)
| Deployed.

Record system : Type := {
  processed_pdfs : list pdf_info;
  files : gmap string file_content;
  history : list event
}.

Definition pdfs_dir : string := "pdfs".
Definition index_file : string := "index.html".

(** [__init__], on a disk that holds [disk]. *)
Definition init (disk : gmap string file_content) : system :=
  {| processed_pdfs := []; files := disk; history := [] |}.

Definition record (e : event) (st : system) : system :=
  {| processed_pdfs := processed_pdfs st;
     files := files st;
     history := history st ++ [e] |}.

(** [with open(path, 'w') as f: f.write(content)] *)
Definition write_file (path : string) (content : file_content) (st : system) : system :=
  {| processed_pdfs := processed_pdfs st;
     files := <[path := content]> (files st);
     history := history st ++ [Wrote path content] |}.

Definition append_processed (info : pdf_info) (st : system) : system :=
  {| processed_pdfs := processed_pdfs st ++ [info];
     files := files st;
     history := history st |}.

Definition setup_directories (st : system) : system := record (MadeDirs pdfs_dir) st.

Definition create_initial_index_page (total_pdfs : nat) (st : system) : system :=
  write_file index_file (InitialIndexPage total_pdfs) st.

Definition update_index_page (st : system) : system :=
  match processed_pdfs st with
  | [] => st
  | _ :: _ => write_file index_file (IndexPage (processed_pdfs st)) st
  end.

(** [deploy_to_github_pages] hands the rendered files to git; it handles its
    own failures, and what it copies and pushes lies outside [files]. *)
Definition deploy_to_github_pages (st : system) : system := record Deployed st.

(** *** The thread pool

    [ThreadPoolExecutor] starts the submitted jobs in submission order, at
    most [max_workers] at a time; which of the running jobs finishes next is
    up to the runtime and is read from [choices].  A job takes effect on the
    shared state at the moment it finishes: what it does before taking the
    lock reads no shared state, and the page it writes on the way is put
    down at that moment too. *)
Fixpoint refill (free : nat) (queue running : list string)
  : list string * list string :=
  match free, queue with
  | S free', job :: queue' => refill free' queue' (running ++ [job])
  | _, _ => (queue, running)
  end.

Fixpoint completion_order (fuel : nat) (choices : list nat) (max_workers : nat)
    (queue running : list string) : list string :=
  match fuel with
  | 0 => []
  | S fuel' =>
      let '(queue, running) := refill (max_workers - length running) queue running in
      match running with
      | [] => []
      | first :: _ =>
          let i := default 0 (head choices) mod length running in
          default first (running !! i)
            :: completion_order fuel' (tail choices) max_workers queue (delete i running)
      end
  end.

(** What the system works with but does not compute itself. *)
Record environment : Type := {
  (* [self.processor], built by [__init__] from the settings found in the
      process environment *)
  processor : Processor.EnhancedAIPDFProcessor;
  (* the collaborators of the processor, see [Processor] *)
  _extract_text_from_pdf : string -> string;
  _identify_topic_headings : string -> list Processor.topic_info;
  _extract_subject_info : string -> Processor.subject_info_t;
  (* the replies the hosted model gives while the document at a path is
      processed *)
  api_replies : string -> list Processor.response;
  (* [HTMLGenerator.generate_html_content] *)
  generate_html_content : Processor.content_data -> result string;
  (* [os.path.basename], and the output path and the path relative to the
      index that [generate_html_page] derives from the cleaned base name *)
  basename : string -> string;
  output_path : string -> string;
  relative_filename : string -> string;
  (* [datetime.now().strftime("%H:%M:%S")] when the job of a path finishes *)
  now : string -> string;
  (* what [glob] finds in [pdfs_dir] *)
  get_pdf_files : list string
}.

Section Environment.

Variable env : environment.

(** [generate_html_page]: the page is rendered, which may raise, and then
    written under the name derived from the document's. *)
Definition generate_html_page (pdf_path : string) (content : Processor.content_data)
    (st : system) : result string * system :=
  match generate_html_content env content with
  | Ok html_content =>
      (Ok (relative_filename env pdf_path),
       write_file (output_path env pdf_path) (HtmlPage html_content) st)
  | Raise e => (Raise e, st)
  end.

(** [self.processor.process_pdf_with_structured_content(pdf_path)] *)
Definition process_pdf (pdf_path : string) : result Processor.content_data :=
  fst (Processor.process_pdf_with_structured_content (processor env)
         (_extract_text_from_pdf env) (_identify_topic_headings env)
         (_extract_subject_info env) pdf_path
         {| Processor.replies := api_replies env pdf_path; Processor.trail := [] |}).

Definition process_single_pdf (pdf_path : string) (st : system)
  : option pdf_info * system :=
  let pdf_name := basename env pdf_path in
  match process_pdf pdf_path with
  | Ok content_data =>
      match generate_html_page pdf_path content_data st with
      | (Ok output_filename, st) =>
          let info :=
            {| title := Processor.title (Processor.subject_info content_data);
               icon := Processor.icon (Processor.subject_info content_data);
               filename := output_filename;
               stats := Processor.stats content_data;
               original_pdf := pdf_name;
               processed_at := now env pdf_path |} in
          (* with self.lock: *)
          let st := append_processed info st in
          let st := update_index_page st in
          (Some info, record (Completed pdf_name output_filename) st)
      | (Raise _, st) => (None, record (Failed pdf_name) st)
      end
  | Raise _ => (None, record (Failed pdf_name) st)
  end.

(** One turn of [for future in as_completed(future_to_pdf)]. *)
Definition finish_job (st : system) (pdf_path : string) : system :=
  let '(result, st) := process_single_pdf pdf_path st in
  record (Reported pdf_path (bool_decide (is_Some result))) st.

Definition run_jobs (order : list string) (st : system) : system :=
  foldl finish_job st order.

Definition submit_all (pdf_files : list string) (st : system) : system :=
  foldl (fun st pdf_path => record (Submitted pdf_path) st) st pdf_files.

(** [process_all_pdfs_parallel]; like the source it returns nothing: the
    outcome of the run is the state it leaves, [processed_pdfs] above all.
    [ThreadPoolExecutor] raises [ValueError] when [max_workers] is not
    positive. *)
Definition process_all_pdfs_parallel (max_workers : nat) (choices : list nat)
    (st : system) : result unit * system :=
  let st := setup_directories st in
  let pdf_files := get_pdf_files env in
  match pdf_files with
  | [] => (Ok tt, record NoPdfFiles st)
  | _ :: _ =>
      let st := create_initial_index_page (length pdf_files) st in
      if decide (max_workers = 0) then (Raise ValueError, st)
      else
        let st := submit_all pdf_files st in
        let order :=
          completion_order (length pdf_files) choices max_workers pdf_files [] in
        let st := run_jobs order st in
        match processed_pdfs st with
        | [] => (Ok tt, st)
        | _ :: _ => (Ok tt, deploy_to_github_pages st)
        end
  end.

End Environment.

End Parallel.

(** ** Notions the statements are phrased with *)

Module Facts.
Import Py Processor.
Local Open Scope py_scope.
Local Open Scope list_scope.

(** The backfill requests of a trail, in order: kind and count. *)
Definition backfills (tr : list event) : list (kind * nat) :=
  omap (fun e => match e with
                 | Backfill k count _ => Some (k, count)
                 | _ => None
                 end) tr.

(** [keys] are the normalised question texts of [items], item by item. *)
Definition texts_of (items : list pyval) (keys : list string) : Prop :=
  Forall2 (fun item key => question_text item = Ok key) items keys.

(** No two items share a normalised question text. *)
Definition distinct_texts (items : list pyval) : Prop :=
  exists keys, texts_of items keys /\ NoDup keys.

(** The identifiers of a list of items. *)
Definition ids_of (items : list pyval) : list (result pyval) :=
  map (fun item => py_getitem item "id") items.

(** The identifiers [start], [start + 1], ... of [count] items. *)
Definition sequential_ids (start count : nat) : list (result pyval) :=
  map (fun i => Ok (PInt (Z.of_nat (start + i)))) (seq 0 count).

Definition is_dict (v : pyval) : Prop :=
  match v with
  | PDict _ => True
  | _ => False
  end.

(** The reply the next API call will get. *)
Definition next_reply (w : world) : response := default None (head (replies w)).

(** The topics content is generated for, in document order, each with the
    minimum asked of it: the subtopics of a main topic that has some (2),
    the main topic itself otherwise (3). *)
Definition leaves (topic_structure : list topic_info) : list (string * nat) :=
  flat_map (fun topic =>
              match subtopics topic with
              | [] => [(main_topic topic, 3)]
              | _ :: _ => map (fun subtopic => (subtopic, 2)) (subtopics topic)
              end) topic_structure.

(** The items a run over these leaves is asked for at least. *)
Definition total_min (ls : list (string * nat)) : nat := sum_list (map snd ls).

(** The policy as the specification words it.  First, the shortfall that
    backfill is asked to fill is counted on the items left once duplicates
    are removed. *)
Definition shortfall_counted_after_dedup (k : kind) (parse : response -> pyval)
    (gen : M (list pyval)) (min_items : nat) (w : world) : Prop :=
  forall items unique,
    py_iter (parse (next_reply w)) = Ok items ->
    remove_duplicates items ∅ [] = Ok unique ->
    length unique < min_items ->
    head (backfills (trail (snd (gen w)))) = Some (k, min_items - length unique).

(** Second, when the removal of duplicates leaves fewer items than the
    minimum after backfill, backfill runs a second time. *)
Definition second_pass_when_short (gen : M (list pyval)) (min_items : nat)
    (w : world) : Prop :=
  forall l w',
    gen w = (Ok l, w') ->
    backfills (trail w') <> [] ->
    length l < min_items ->
    2 <= length (backfills (trail w')).

Definition question (text : string) : pyval := PDict [("question", PStr text)].

(** A reply with the same question twice, up to case and spaces. *)
Definition repeated_reply (key : string) : response :=
  Some (PDict [(key, PList [question "What is a river?"; question " what is a RIVER? "])]).

(** A chapter with a single main topic and no subtopics. *)
Definition one_topic : list topic_info :=
  [{| main_topic := "Rivers"; subtopics := [] |}].

Definition two_topics : list topic_info :=
  [{| main_topic := "Rivers"; subtopics := [] |};
   {| main_topic := "Lakes"; subtopics := [] |}].

(** A main topic with two subtopics, followed by one without. *)
Definition rivers_and_lakes : list topic_info :=
  [{| main_topic := "Rivers"; subtopics := ["The Indus"; "The Ganga"] |};
   {| main_topic := "Lakes"; subtopics := [] |}].

Definition chapter_info (pdf_path : string) : subject_info_t :=
  {| title := pdf_path; icon := "📖" |}.

(** A processor that found its settings, and one that did not. *)
Definition with_settings : EnhancedAIPDFProcessor :=
  __init__ (Some "key") (Some "https://learning.openai.azure.com/").

Definition without_settings : EnhancedAIPDFProcessor := __init__ None None.

(** Processing a chapter whose outline is [outline], the model replying
    [rs] to a processor that found its settings. *)
Definition process_chapter (outline : list topic_info) (rs : list response)
  : result content_data * world :=
  process_pdf_with_structured_content with_settings
    (fun _ => "chapter text") (fun _ => outline) chapter_info "chapter.pdf"
    {| replies := rs; trail := [] |}.

(** A reply with three questions, the second a repetition of the first. *)
Definition reply_with_repetition : response :=
  Some (PDict [("mcqs", PList [question "What is a river?";
                               question "what is a river?";
                               question "What is a delta?"])]).

(** The counts of a bundle are those the outline fixes: one concept per
    leaf, and the minimum of MCQs and of subjective questions for each. *)
Definition counts_fixed_by_outline (outline : list topic_info) (b : content_data) : Prop :=
  total_concepts (stats b) = length (leaves outline) /\
  total_mcqs (stats b) = total_min (leaves outline) /\
  total_subjective (stats b) = total_min (leaves outline).

(** Replies with content of the model's own for the one topic of
    [one_topic]: a concept, four MCQs and one subjective question. *)
Definition substantive_replies : list response :=
  [Some (PDict [("concepts", PList [PDict [("title", PStr "Sources of rivers")]])]);
   Some (PDict [("mcqs", PList [question "What is a river?"; question "What is a delta?";
                                question "What is a basin?"; question "What is a lake?"])]);
   Some (PDict [("subjective", PList [question "Describe the course of a river."])])].

End Facts.

(** ** Notions the statements about the pipeline are phrased with *)

Module ParallelFacts.
Import Py Parallel.
Local Open Scope list_scope.

(** What the job of [pdf_path] adds to [processed_pdfs], if anything: it
    depends on the document and on the collaborators only, not on the shared
    state. *)
Definition job_info (env : environment) (pdf_path : string) : option pdf_info :=
  match process_pdf env pdf_path with
  | Ok content_data =>
      match generate_html_content env content_data with
      | Ok _ =>
          Some {| title := Processor.title (Processor.subject_info content_data);
                  icon := Processor.icon (Processor.subject_info content_data);
                  filename := relative_filename env pdf_path;
                  stats := Processor.stats content_data;
                  original_pdf := basename env pdf_path;
                  processed_at := now env pdf_path |}
      | Raise _ => None
      end
  | Raise _ => None
  end.

(** The order in which the jobs of a run finish. *)
Definition schedule (env : environment) (max_workers : nat) (choices : list nat)
  : list string :=
  completion_order (length (get_pdf_files env)) choices max_workers (get_pdf_files env) [].

(** The state once every job is submitted, and after the first [k] jobs of
    the schedule have finished. *)
Definition dispatched (env : environment) (st : system) : system :=
  submit_all (get_pdf_files env)
    (create_initial_index_page (length (get_pdf_files env)) (setup_directories st)).

Definition after_jobs (env : environment) (max_workers : nat) (choices : list nat)
    (st : system) (k : nat) : system :=
  run_jobs env (take k (schedule env max_workers choices)) (dispatched env st).

(** How often the publisher was invoked, and the files written, in order. *)
Definition deployments (h : list event) : nat :=
  length (omap (fun e => match e with Deployed => Some tt | _ => None end) h).

Definition writes (h : list event) : list (string * file_content) :=
  omap (fun e => match e with Wrote path content => Some (path, content) | _ => None end) h.

(** The outcome of a run started on a fresh system. *)
Definition run (env : environment) (max_workers : nat) (choices : list nat)
    (disk : gmap string file_content) : result unit * system :=
  process_all_pdfs_parallel env max_workers choices (init disk).

Definition failures_isolated (env : environment) (max_workers : nat)
    (choices : list nat) (disk : gmap string file_content) : Prop :=
  let out := run env max_workers choices disk in
  fst out = Ok tt /\
  schedule env max_workers choices ≡ₚ get_pdf_files env /\
  processed_pdfs (snd out) = omap (job_info env) (schedule env max_workers choices) /\
  forall pdf_path, pdf_path ∈ get_pdf_files env ->
    In (Reported pdf_path (bool_decide (is_Some (job_info env pdf_path))))
       (history (snd out)) /\
    (job_info env pdf_path = None ->
     In (Failed (basename env pdf_path)) (history (snd out))).

Definition results_from_distinct_inputs (env : environment) (max_workers : nat)
    (choices : list nat) (disk : gmap string file_content) : Prop :=
  let result := processed_pdfs (snd (run env max_workers choices disk)) in
  length result <= length (get_pdf_files env) /\
  exists done,
    done `sublist_of` schedule env max_workers choices /\
    NoDup done /\
    done ⊆ get_pdf_files env /\
    Forall2 (fun info pdf_path => job_info env pdf_path = Some info) result done.

(** The counts a run reports, document by document. *)
Definition counts_of (st : system) : list (nat * nat * nat) :=
  map (fun info => (Processor.total_concepts (stats info),
                    Processor.total_mcqs (stats info),
                    Processor.total_subjective (stats info)))
      (processed_pdfs st).

(** Environments to run the system in: the documents found, the outline
    every one of them has, the replies of the model and the renderer. *)
Definition example_env (pdf_files : list string) (outline : list Processor.topic_info)
    (api : string -> list Processor.response)
    (render : Processor.content_data -> result string) : environment :=
  {| processor := Facts.with_settings;
     _extract_text_from_pdf := fun _ => "chapter text";
     _identify_topic_headings := fun _ => outline;
     _extract_subject_info := Facts.chapter_info;
     api_replies := api;
     generate_html_content := render;
     basename := fun pdf_path => String.substring 5 (String.length pdf_path - 5) pdf_path;
     output_path := fun pdf_path => (pdf_path ++ ".html")%string;
     relative_filename := fun pdf_path => (pdf_path ++ ".html")%string;
     now := fun _ => "12:00:00";
     get_pdf_files := pdf_files |}.

(** A reply no concept can be read from: the concepts are a string. *)
Definition unusable_reply : Processor.response :=
  Some (PDict [("concepts", PStr "none")]).

(** A reply whose MCQs are bare strings. *)
Definition questions_as_strings : Processor.response :=
  Some (PDict [("mcqs", PList [PStr "What is a river?"; PStr "What is a delta?"])]).

(** Three documents, the second of which cannot be processed. *)
Definition three_pdfs : environment :=
  example_env ["pdfs/a.pdf"; "pdfs/b.pdf"; "pdfs/c.pdf"] Facts.one_topic
    (fun pdf_path => if decide (pdf_path = "pdfs/b.pdf") then [unusable_reply] else [])
    (fun _ => Ok "<html>").

(** Two documents that the renderer fails on. *)
Definition two_unrenderable_pdfs : environment :=
  example_env ["pdfs/a.pdf"; "pdfs/b.pdf"] Facts.one_topic (fun _ => [])
    (fun _ => Raise ValueError).

Definition no_pdfs : environment :=
  example_env [] Facts.one_topic (fun _ => []) (fun _ => Ok "<html>").

(** One document, the model replying [rs] while it is processed. *)
Definition one_pdf (rs : list Processor.response) : environment :=
  example_env ["pdfs/rivers.pdf"] Facts.one_topic (fun _ => rs) (fun _ => Ok "<html>").

End ParallelFacts.

(** ** Further notions about the per-topic generation *)

Module GenerationFacts.
Import Py Processor Facts.
Local Open Scope string_scope.
Local Open Scope py_scope.
Local Open Scope list_scope.

(** The normalised question text of the placeholder numbered [n]. *)
Definition placeholder_text (k : kind) (n : nat) : string :=
  match k with
  | Mcqs => "additional mcq question " ++ str_of_nat n ++ "?"
  | Subjective => "additional subjective question " ++ str_of_nat n ++ "?"
  | Concepts => ""
  end%string.

(** The question of an item, if it has one, is ASCII text. *)
Definition ascii_question (item : pyval) : bool :=
  match py_getitem item "question" with
  | Ok (PStr q) => isascii q
  | _ => true
  end.

(** The key at position [i] occurs at no earlier position. *)
Definition first_occurrence (keys : list string) (i : nat) : bool :=
  match keys !! i with
  | Some key => bool_decide (key ∉ take i keys)
  | None => false
  end.

(** The items standing where a key occurs for the first time, in their
    order. *)
Definition first_occurrences (items : list pyval) (keys : list string) : list pyval :=
  map snd (filter (fun p => first_occurrence keys (fst p) = true)
                  (zip (seq 0 (length items)) items)).

(** The API calls of a trail, in order: what was asked, for which topic and
    how many items. *)
Definition api_calls (tr : list event) : list (kind * string * nat) :=
  omap (fun e => match e with
                 | ApiCall k topic count => Some (k, topic, count)
                 | _ => None
                 end) tr.

(** A computation that asks the model nothing: it leaves the replies and
    the API calls of the trail as they are. *)
Definition asks_nothing {A} (m : M A) : Prop :=
  forall w, replies (snd (m w)) = replies w /\
            api_calls (trail (snd (m w))) = api_calls (trail w).

(** The leaves of an outline with the label their concepts are given. *)
Definition labelled_leaves (topic_structure : list topic_info)
  : list (string * string * nat) :=
  flat_map (fun topic =>
              match subtopics topic with
              | [] => [(main_topic topic, main_topic topic, 3)]
              | _ :: _ =>
                  map (fun subtopic =>
                         (subtopic, (main_topic topic ++ " → " ++ subtopic)%string, 2))
                      (subtopics topic)
              end) topic_structure.

(** The three requests made for a leaf. *)
Definition calls_for (leaf : string * string * nat) : list (kind * string * nat) :=
  let '(topic, _, min_items) := leaf in
  [(Concepts, topic, 1); (Mcqs, topic, min_items); (Subjective, topic, min_items)].

(** What a leaf may add to the three lists: at most one concept, carrying
    the leaf's label, and at most the minimum of MCQs and of subjective
    questions. *)
Definition grown_by (leaf : string * string * nat) (acc acc' : lists) : Prop :=
  let '(_, label, min_items) := leaf in
  exists cs ms ss,
    all_concepts acc' = all_concepts acc ++ cs /\
    all_mcqs acc' = all_mcqs acc ++ ms /\
    all_subjective acc' = all_subjective acc ++ ss /\
    length cs <= 1 /\ length ms <= min_items /\ length ss <= min_items /\
    Forall (fun c => py_getitem c "topic" = Ok (PStr label)) cs.

(** What a run over the leaves [ls] may add: at most one concept per leaf,
    each carrying the label of one of the leaves, and at most the minimum of
    MCQs and of subjective questions of each leaf. *)
Definition grown_along (ls : list (string * string * nat)) (acc acc' : lists) : Prop :=
  exists cs ms ss,
    all_concepts acc' = all_concepts acc ++ cs /\
    all_mcqs acc' = all_mcqs acc ++ ms /\
    all_subjective acc' = all_subjective acc ++ ss /\
    length cs <= length ls /\
    length ms <= sum_list (map snd ls) /\
    length ss <= sum_list (map snd ls) /\
    Forall (fun c => exists leaf, leaf ∈ ls /\
                       py_getitem c "topic" = Ok (PStr (snd (fst leaf)))) cs.


(** The model cannot be reached: every call of [_call_ai_api] fails and
    yields [None]. *)
Definition unreachable (rs : list response) : Prop := Forall (fun r => r = None) rs.

(** The concept a leaf gets from backfill: the first placeholder of
    [_generate_additional_concepts], labelled. *)
Definition placeholder_concept (label : string) : pyval :=
  PDict [("title", PStr "Additional Concept 1");
         ("description",
          PStr "Important educational concept extracted from the textbook content.");
         ("topic", PStr label)].

(** The three lists, grown by nothing but placeholders for the leaves
    [ls]. *)
Definition placeholders_added (text_content : string)
    (ls : list (string * string * nat)) (acc : lists) : lists :=
  {| all_concepts :=
       all_concepts acc ++ map (fun leaf => placeholder_concept (snd (fst leaf))) ls;
     all_mcqs :=
       all_mcqs acc ++
       _generate_additional_mcqs text_content (sum_list (map snd ls))
                                 (length (all_mcqs acc) + 1);
     all_subjective :=
       all_subjective acc ++
       _generate_additional_subjective text_content (sum_list (map snd ls))
                                       (length (all_subjective acc) + 1) |}.

End GenerationFacts.

(** ** Strings and paths: what [generate_html_page] names its page *)

Module Paths.
Import Py.
Local Open Scope list_scope.

(** The string operations below act on the characters of a string; like
    [lower] and [strip] they take the character classes on the ASCII
    range. *)

(** [s.startswith(prefix)] and [s.endswith(suffix)] *)
Fixpoint startswith (prefix s : list ascii) : bool :=
  match prefix, s with
  | [], _ => true
  | p :: prefix', c :: s' => Ascii.eqb p c && startswith prefix' s'
  | _ :: _, [] => false
  end.

Definition endswith (suffix s : list ascii) : bool :=
  startswith (rev suffix) (rev s).

(** [s.find(sub)]: the index of the first occurrence, [None] for the
    source's [-1]. *)
Fixpoint find (sub s : list ascii) : option nat :=
  if startswith sub s then Some 0
  else match s with
       | [] => None
       | _ :: s' => S <$> find sub s'
       end.

(** [s.rfind(c)] for a single character [c], with Python's [-1]. *)
Definition rfind (c : ascii) (s : list ascii) : Z :=
  match find [c] (rev s) with
  | Some k => Z.of_nat (length s - 1 - k)
  | None => -1
  end.

(** [s[i:j]] for indices that are not negative *)
Definition slice (i j : nat) (s : list ascii) : list ascii := take (j - i) (drop i s).

(** [posixpath.basename]: [p[p.rfind('/') + 1:]] *)
Definition basename_chars (p : list ascii) : list ascii :=
  drop (Z.to_nat (rfind "/" p + 1)) p.

(** [posixpath.splitext]: the extension starts at the last dot of the last
    component, unless only dots precede it there. *)
Definition splitext (p : list ascii) : list ascii * list ascii :=
  let sepIndex := rfind "/" p in
  let dotIndex := rfind "." p in
  if (sepIndex <? dotIndex)%Z
  then
    if forallb (Ascii.eqb ".") (slice (Z.to_nat (sepIndex + 1)) (Z.to_nat dotIndex) p)
    then (p, [])
    else (take (Z.to_nat dotIndex) p, drop (Z.to_nat dotIndex) p)
  else (p, []).

(** [s.split(sep, 1)] for a separator that is not empty *)
Definition split_once (sep s : list ascii) : list (list ascii) :=
  match find sep s with
  | Some i => [take i s; drop (i + length sep) s]
  | None => [s]
  end.

(** [s.rstrip()] and [s.strip()] *)
Definition rstrip_chars (s : list ascii) : list ascii := rev (lstrip_chars (rev s)).
Definition strip_chars (s : list ascii) : list ascii := rstrip_chars (lstrip_chars s).

(** [c.isalnum()] *)
Definition isdigit (c : ascii) : bool :=
  let n := nat_of_ascii c in (48 <=? n)%nat && (n <=? 57)%nat.
Definition isupper (c : ascii) : bool :=
  let n := nat_of_ascii c in (65 <=? n)%nat && (n <=? 90)%nat.
Definition islower (c : ascii) : bool :=
  let n := nat_of_ascii c in (97 <=? n)%nat && (n <=? 122)%nat.
Definition isalnum (c : ascii) : bool := isdigit c || isupper c || islower c.

(** [c.isalnum() or c in (' ', '-', '_')] *)
Definition kept_in_name (c : ascii) : bool :=
  isalnum c || Ascii.eqb c " " || Ascii.eqb c "-" || Ascii.eqb c "_".

(** ["".join(c for c in name if c.isalnum() or c in (' ', '-', '_')).rstrip()] *)
Definition clean_name (name : list ascii) : list ascii :=
  rstrip_chars (List.filter kept_in_name name).

(** [posixpath.join(a, b)] *)
Definition join (a b : list ascii) : list ascii :=
  if startswith ["/"%char] b then b
  else if bool_decide (a = []) || endswith ["/"%char] a then a ++ b
  else a ++ "/"%char :: b.

Definition output_dir : list ascii := ["."%char].
Definition html_suffix : list ascii := list_ascii_of_string ".html".
Definition hyphen : list ascii := list_ascii_of_string " - ".

(** The path [generate_html_page] writes the page of a document to, and
    the path relative to the index page that it returns. *)
Definition page_paths (pdf_path : list ascii) : list ascii * list ascii :=
  let base_name := fst (splitext (basename_chars pdf_path)) in
  let parts := split_once hyphen base_name in
  match parts with
  | part0 :: part1 :: _ =>
      let folder_name := strip_chars part0 in
      let content_name := strip_chars part1 in
      let clean_folder_name := clean_name folder_name in
      let clean_content_name := clean_name content_name in
      let folder_path := join output_dir clean_folder_name in
      let output_filename := clean_content_name ++ html_suffix in
      let output_path := join folder_path output_filename in
      let relative_filename := join clean_folder_name output_filename in
      (output_path, relative_filename)
  | _ =>
      let clean_name := clean_name base_name in
      let output_filename := clean_name ++ html_suffix in
      let output_path := join output_dir output_filename in
      let relative_filename := output_filename in
      (output_path, relative_filename)
  end.

Definition basename (pdf_path : string) : string :=
  string_of_list_ascii (basename_chars (list_ascii_of_string pdf_path)).

Definition output_path (pdf_path : string) : string :=
  string_of_list_ascii (fst (page_paths (list_ascii_of_string pdf_path))).

Definition relative_filename (pdf_path : string) : string :=
  string_of_list_ascii (snd (page_paths (list_ascii_of_string pdf_path))).

(** The file a path names, relative to the working directory: a leading
    [./] makes no difference to the file system. *)
Definition file_named (path : string) : string :=
  match path with
  | String "." (String "/" rest) => rest
  | _ => path
  end.

End Paths.

(** ** Further notions about the pipeline *)

Module PipelineFacts.
Import Py Parallel ParallelFacts.
Local Open Scope string_scope.
Local Open Scope list_scope.

(** The page the job of a document renders, when it succeeds. *)
Definition job_page (env : environment) (pdf_path : string) : option string :=
  match process_pdf env pdf_path with
  | Ok content_data =>
      match generate_html_content env content_data with
      | Ok html_content => Some html_content
      | Raise _ => None
      end
  | Raise _ => None
  end.

(** What the index file shows for the entries gathered so far: the
    placeholder page as long as there are none. *)
Definition index_shown (total_pdfs : nat) (entries : list pdf_info) : file_content :=
  match entries with
  | [] => InitialIndexPage total_pdfs
  | _ :: _ => IndexPage entries
  end.

(** The contents written to the index file, in order. *)
Definition index_writes (h : list event) : list file_content :=
  omap (fun e => match e with
                 | Wrote path content =>
                     if decide (path = index_file) then Some content else None
                 | _ => None
                 end) h.

(** The outcomes reported by the loop over the finished jobs, in order. *)
Definition reports (h : list event) : list (string * bool) :=
  omap (fun e => match e with
                 | Reported pdf_path success => Some (pdf_path, success)
                 | _ => None
                 end) h.

(** The events of the jobs [order], finishing in this order after the
    entries [done] have been gathered. *)
Definition job_events (env : environment) (done : list pdf_info) (pdf_path : string)
  : list event :=
  match job_info env pdf_path, job_page env pdf_path with
  | Some info, Some html_content =>
      [Wrote (output_path env pdf_path) (HtmlPage html_content);
       Wrote index_file (IndexPage (done ++ [info]));
       Completed (basename env pdf_path) (relative_filename env pdf_path);
       Reported pdf_path true]
  | _, _ => [Failed (basename env pdf_path); Reported pdf_path false]
  end.

Fixpoint jobs_events (env : environment) (done : list pdf_info) (order : list string)
  : list event :=
  match order with
  | [] => []
  | pdf_path :: rest =>
      job_events env done pdf_path
        ++ jobs_events env (done ++ option_list (job_info env pdf_path)) rest
  end.

(** The jobs of [order] that render a page and write it to [path]. *)
Definition writers (env : environment) (path : string) (order : list string)
  : list string :=
  filter (fun pdf_path => output_path env pdf_path = path /\
                          is_Some (job_page env pdf_path)) order.

(** The index pages written, in order, each with the path it went to. *)
Definition index_pages (h : list event) : list (string * file_content) :=
  omap (fun e => match e with
                 | Wrote path (HtmlPage _) => None
                 | Wrote path content => Some (path, content)
                 | _ => None
                 end) h.

(** An environment in which the pages are named as [generate_html_page]
    names them, the files being told apart by the path they have from the
    working directory. *)
Definition with_page_names (env : environment) : environment :=
  {| processor := processor env;
     _extract_text_from_pdf := _extract_text_from_pdf env;
     _identify_topic_headings := _identify_topic_headings env;
     _extract_subject_info := _extract_subject_info env;
     api_replies := api_replies env;
     generate_html_content := generate_html_content env;
     basename := Paths.basename;
     output_path := fun pdf_path => Paths.file_named (Paths.output_path pdf_path);
     relative_filename := Paths.relative_filename;
     now := now env;
     get_pdf_files := get_pdf_files env |}.

(** Three documents, two of which differ by a character that is dropped
    from the name of the page; the page of a document shows its path. *)
Definition rivers_twice : environment :=
  with_page_names
    (example_env ["pdfs/Class 9 - Rivers.pdf"; "pdfs/Class 9 - Lakes.pdf";
                  "pdfs/Class 9 - Rivers!.pdf"]
       Facts.one_topic (fun _ => [])
       (fun content => Ok (Processor.title (Processor.subject_info content)))).

End PipelineFacts.

(** ** The text of a document: extraction, cleaning and headings *)

Module Text.
Import Py Paths.
Local Open Scope list_scope.
Local Open Scope py_scope.

(** *** [re.sub]

    [re.sub(pattern, repl, text)] goes through the text from left to
    right: where the pattern matches, the match is replaced and the search
    goes on behind it; elsewhere the character is kept.  A pattern is given
    by the length of its match at the start of a text, if it matches there;
    none of the patterns below matches the empty string.  [skip] counts the
    characters of the current match still to be passed over. *)
Fixpoint re_sub (match_at : list ascii -> option nat)
    (repl : list ascii -> list ascii) (skip : nat) (s : list ascii) : list ascii :=
  match s with
  | [] => []
  | c :: s' =>
      match skip with
      | S skip' => re_sub match_at repl skip' s'
      | 0 =>
          match match_at s with
          | Some (S n) => repl (take (S n) s) ++ re_sub match_at repl n s'
          | _ => c :: re_sub match_at repl 0 s'
          end
      end
  end.

(** [[A-Za-z]] *)
Definition isalpha (c : ascii) : bool := isupper c || islower c.

(** How often the two characters [a b] are repeated at the start of [s]:
    the greedy [(?:\1\2)*]. *)
Fixpoint pairs (a b : ascii) (s : list ascii) : nat :=
  match s with
  | x :: y :: s' => if Ascii.eqb x a && Ascii.eqb y b then S (pairs a b s') else 0
  | _ => 0
  end.

(** How often the character [a] is repeated at the start of [s]. *)
Fixpoint repeats (a : ascii) (s : list ascii) : nat :=
  match s with
  | x :: s' => if Ascii.eqb x a then S (repeats a s') else 0
  | [] => 0
  end.

(** [chars[0]], [chars[2]], [chars[4]], ...: what [fix_alternating] builds
    and what [word[i] for i in range(0, len(word), 2)] is. *)
Fixpoint every_other (chars : list ascii) : list ascii :=
  match chars with
  | x :: _ :: rest => x :: every_other rest
  | _ => chars
  end.

(** Pattern 1, [([A-Za-z])([A-Za-z])(?:\1\2)*\1?], and [fix_alternating]. *)
Definition pattern1 (s : list ascii) : option nat :=
  match s with
  | a :: b :: rest =>
      if isalpha a && isalpha b
      then
        let n := 2 * pairs a b rest in
        Some (2 + n + (if bool_decide (rest !! n = Some a) then 1 else 0))
      else None
  | _ => None
  end.

Definition fix_alternating (chars : list ascii) : list ascii :=
  if (4 <=? length chars)%nat then every_other chars else chars.

(** Pattern 2, [([A-Za-z])\1+], and [fix_simple_repetition]. *)
Definition pattern2 (s : list ascii) : option nat :=
  match s with
  | a :: rest =>
      if isalpha a && (1 <=? repeats a rest)%nat then Some (1 + repeats a rest) else None
  | [] => None
  end.

Definition fix_simple_repetition (word : list ascii) : list ascii :=
  if (2 <? length word)%nat then every_other word else word.

(** Pattern 3, [PPeeooppllee\s+aass\s+RReessoouurrccee] with
    [re.IGNORECASE]: what is left of [s] behind a literal, whatever the case
    of its letters, and behind one or more spaces. *)
Fixpoint behind_literal (literal s : list ascii) : option (list ascii) :=
  match literal, s with
  | [], _ => Some s
  | l :: literal', c :: s' =>
      if Ascii.eqb (lower_ascii l) (lower_ascii c) then behind_literal literal' s' else None
  | _ :: _, [] => None
  end.

Definition behind_spaces (s : list ascii) : option (list ascii) :=
  match s with
  | c :: s' => if is_space c then Some (lstrip_chars s') else None
  | [] => None
  end.

Definition pattern3 (s : list ascii) : option nat :=
  match
    (s1 ← behind_literal (list_ascii_of_string "PPeeooppllee") s;
     s2 ← behind_spaces s1;
     s3 ← behind_literal (list_ascii_of_string "aass") s2;
     s4 ← behind_spaces s3;
     behind_literal (list_ascii_of_string "RReessoouurrccee") s4)
  with
  | Some rest => Some (length s - length rest)
  | None => None
  end.

Definition fix_complex_duplication (text : list ascii) : list ascii :=
  let text := re_sub pattern1 fix_alternating 0 text in
  let text := re_sub pattern2 fix_simple_repetition 0 text in
  let text :=
    re_sub pattern3 (fun _ => list_ascii_of_string "People as Resource") 0 text in
  text.

(** [\s+] *)
Definition spaces (s : list ascii) : option nat :=
  match length s - length (lstrip_chars s) with
  | 0 => None
  | n => Some n
  end.

(** [text.replace(old, new)] for single characters *)
Definition replace_char (old new : ascii) (s : list ascii) : list ascii :=
  map (fun c => if Ascii.eqb c old then new else c) s.

(** [_clean_extracted_text] *)
Definition clean_chars (text : list ascii) : list ascii :=
  (* Apply complex duplication fixes *)
  let text := fix_complex_duplication text in
  (* Remove extra whitespace *)
  let text := re_sub spaces (fun _ => [" "%char]) 0 text in
  (* Fix common OCR issues *)
  let text := replace_char "|" "I" text in
  let text := replace_char "0" "O" text in
  strip_chars text.

Definition _clean_extracted_text (text : string) : string :=
  string_of_list_ascii (clean_chars (list_ascii_of_string text)).

(** *** [_extract_text_from_pdf]

    What [pdfplumber] gives for a document: opening it may raise, and so
    may the extraction of the text of any page, which yields [None] for a
    page without text. *)
Definition pdf_document : Type := result (list (result (option string))).

Definition newline : ascii := ascii_of_nat 10.

Fixpoint extract_pages (pages : list (result (option string))) (text_content : string)
  : result string :=
  match pages with
  | [] => Ok text_content
  | page :: rest =>
      let? text := page in
      match text with
      | Some (String c text') =>
          let text := _clean_extracted_text (String c text') in
          extract_pages rest
            (text_content ++ text ++ String newline (String newline EmptyString))%string
      | _ => extract_pages rest text_content
      end
  end.

Definition _extract_text_from_pdf (pdf : pdf_document) : string :=
  match (let? pages := pdf in extract_pages pages EmptyString) with
  | Ok text_content => text_content
  | Raise _ => EmptyString
  end.

(** *** [_extract_headings_from_text] *)

(** [text.split('\n')] *)
Fixpoint split_lines (s : list ascii) : list (list ascii) :=
  match s with
  | [] => [[]]
  | c :: s' =>
      match split_lines s' with
      | line :: lines =>
          if Ascii.eqb c newline then [] :: line :: lines else (c :: line) :: lines
      | [] => [[c]]
      end
  end.

(** [len(line.split())]: the number of words of a line *)
Fixpoint count_words (in_word : bool) (s : list ascii) : nat :=
  match s with
  | [] => 0
  | c :: s' =>
      if is_space c then count_words false s'
      else if in_word then count_words true s' else S (count_words true s')
  end.

(** [line.isdigit()] and [line.isupper()] *)
Definition str_isdigit (line : list ascii) : bool :=
  negb (bool_decide (line = [])) && forallb isdigit line.

Definition str_isupper (line : list ascii) : bool :=
  existsb isupper line && negb (existsb islower line).

(** The test a stripped line has to pass, but for the one on [headings]. *)
Definition passes_heading_test (line : list ascii) : bool :=
  (3 <? length line)%nat && (length line <? 100)%nat &&
  negb (str_isdigit line) &&
  negb (startswith (list_ascii_of_string "Page") line) &&
  negb (startswith (list_ascii_of_string "Chapter") line) &&
  negb (startswith (list_ascii_of_string "Source:") line) &&
  negb (startswith (list_ascii_of_string "Reprint") line) &&
  negb (bool_decide (line = [])) &&
  match line with
  | first :: _ => isupper first
  | [] => false
  end &&
  (str_isupper line || (count_words false line <=? 8)%nat).

Fixpoint headings_loop (lines : list (list ascii)) (headings : list (list ascii))
  : list (list ascii) :=
  match lines with
  | [] => headings
  | line :: rest =>
      let line := strip_chars line in
      if passes_heading_test line && negb (bool_decide (line ∈ headings))
      then
        let clean_heading := strip_chars line in
        if bool_decide (clean_heading = []) then headings_loop rest headings
        else headings_loop rest (headings ++ [clean_heading])
      else headings_loop rest headings
  end.

Definition _extract_headings_from_text (text_content : string) : list string :=
  map string_of_list_ascii
      (headings_loop (split_lines (list_ascii_of_string text_content)) []).

(** *** [_identify_topic_headings] *)

Section Identify.

(** [json.loads] *)
Variable json_loads : string -> result pyval.

(** The outline built from the headings found in the text. *)
Definition outline_from_headings (text_content : string) : list pyval :=
  map (fun topic => PDict [("main_topic", PStr topic); ("subtopics", PList [])])
      (_extract_headings_from_text text_content).

(** [response] is what [_call_ai_api] returned: the answer of the model,
    [None] where the answer held [null], the empty string when the call
    failed. *)
Definition _identify_topic_headings (response : option string) (text_content : string)
  : list pyval :=
  let attempt : result (list pyval) :=
    let? topic_structure :=
      match response with
      | Some (String c r) =>
          let response := c :: list_ascii_of_string r in
          if bool_decide (is_Some (find ["["%char] response)) &&
             bool_decide (is_Some (find ["]"%char] response))
          then
            let start := default 0 (find ["["%char] response) in
            let end_ := Z.to_nat (rfind "]" response + 1) in
            let json_str := string_of_list_ascii (slice start end_ response) in
            let? topic_structure := json_loads json_str in
            Ok (match topic_structure with
                | PList l => l
                | _ => []
                end)
          else Ok []
      | _ => Ok []
      end in
    (* If AI fails, fallback to simple topic extraction *)
    match topic_structure with
    | [] => Ok (outline_from_headings text_content)
    | _ :: _ => Ok topic_structure
    end in
  match attempt with
  | Ok topic_structure => topic_structure
  | Raise _ => outline_from_headings text_content
  end.

End Identify.

(** The outline in the shape [process_pdf_with_structured_content] reads
    it in: the main topics with the names of their subtopics. *)
Definition topic_of (v : pyval) : option Processor.topic_info :=
  match v with
  | PDict d =>
      match dict_lookup "main_topic" d, dict_lookup "subtopics" d with
      | Some (PStr main_topic), Some (PList subtopics) =>
          subtopics ← mapM (fun s => match s with PStr name => Some name | _ => None end)
                           subtopics;
          Some {| Processor.main_topic := main_topic; Processor.subtopics := subtopics |}
      | _, _ => None
      end
  | _ => None
  end.

Definition outline_of (topic_structure : list pyval) : option (list Processor.topic_info) :=
  mapM topic_of topic_structure.

End Text.

(** ** Notions the statements about the text are phrased with *)

Module TextFacts.
Import Py Paths Text.
Local Open Scope list_scope.

(** A list of characters holds the characters of a line, its words one
    space apart: no space at either end, no space character but the plain
    space, and no two spaces in a row. *)
Definition single_spaced (s : list ascii) : Prop :=
  strip_chars s = s /\
  Forall (fun c => is_space c = true -> c = " "%char) s /\
  forall i, s !! i = Some " "%char -> s !! (S i) <> Some " "%char.

(** The text of every page of a document is ASCII. *)
Definition ascii_document (pdf : pdf_document) : bool :=
  match pdf with
  | Ok pages =>
      forallb (fun page => match page with
                           | Ok (Some text) => isascii text
                           | _ => true
                           end) pages
  | Raise _ => true
  end.

(** The texts of the pages of a document that have some. *)
Definition page_texts (pages : list (result (option string))) : list string :=
  omap (fun page => match page with
                    | Ok (Some (String c text)) => Some (String c text)
                    | _ => None
                    end) pages.

(** What makes a stripped line a heading, the source's redundant tests
    left out. *)
Definition heading_like (line : list ascii) : Prop :=
  3 < length line < 100 /\
  (exists first rest, line = first :: rest /\ isupper first = true) /\
  startswith (list_ascii_of_string "Page") line = false /\
  startswith (list_ascii_of_string "Chapter") line = false /\
  startswith (list_ascii_of_string "Source:") line = false /\
  startswith (list_ascii_of_string "Reprint") line = false /\
  (existsb islower line = false \/ count_words false line <= 8).

(** Every space character of [s] is the plain space and none follows
    another, nor the start when [after_space] is set. *)
Fixpoint spaced (after_space : bool) (s : list ascii) : Prop :=
  match s with
  | [] => True
  | c :: s' =>
      (is_space c = true -> c = " "%char /\ after_space = false) /\
      spaced (is_space c) s'
  end.

(** The characters of the text gathered from the texts of the pages. *)
Definition gathered (texts : list string) : list ascii :=
  flat_map (fun text => clean_chars (list_ascii_of_string text) ++ [newline; newline]) texts.

End TextFacts.

(** ** [HTMLGenerator]: the page of a document

    The page is an f-string template; it is kept as the values the template
    is filled with, section by section, and every operation the source
    applies to the items of the bundle on the way raises what Python raises.
    Formatting a value into an f-string never raises.  (The f-strings of
    [_generate_subtopics_with_concepts_html] hold a backslash in an
    expression, which Python accepts from version 3.12 on.) *)

Module Render.
Import Py Paths Processor.
Local Open Scope list_scope.
Local Open Scope py_scope.

(** [bool(v)] *)
Definition py_truthy (v : pyval) : bool :=
  match v with
  | PNone => false
  | PBool b => b
  | PInt n => negb (n =? 0)%Z
  | PStr s => negb (bool_decide (s = EmptyString))
  | PList l => negb (bool_decide (l = []))
  | PDict d => negb (bool_decide (d = []))
  end.

(** [s.replace(old, new)] for a single character [old] *)
Definition replace_char_by (old : ascii) (new : string) (s : string) : string :=
  string_of_list_ascii
    (flat_map (fun c => if Ascii.eqb c old then list_ascii_of_string new else [c])
              (list_ascii_of_string s)).

(** [o.replace(old, new)]: only a string has the method. *)
Definition py_replace (o : pyval) (old : ascii) (new : string) : result string :=
  match o with
  | PStr s => Ok (replace_char_by old new s)
  | _ => Raise AttributeError
  end.

(** [for x in l] and [for i, x in enumerate(l)], gathering what the body
    yields; the loop stops at the first turn that raises. *)
Fixpoint for_each {A B} (body : A -> result B) (l : list A) : result (list B) :=
  match l with
  | [] => Ok []
  | x :: rest =>
      let? y := body x in
      let? ys := for_each body rest in
      Ok (y :: ys)
  end.

Fixpoint for_each_enumerate {A B} (body : nat -> A -> result B) (i : nat) (l : list A)
  : result (list B) :=
  match l with
  | [] => Ok []
  | x :: rest =>
      let? y := body i x in
      let? ys := for_each_enumerate body (S i) rest in
      Ok (y :: ys)
  end.

(** [_generate_concepts_html]: one card per concept, with its position,
    title, description and topic. *)
Definition concept_card (i : nat) (concept : pyval) : result (nat * pyval * pyval * pyval) :=
  let? title := py_getitem concept "title" in
  let? description := py_getitem concept "description" in
  let? topic := py_get concept "topic" (PStr "") in
  Ok (i, title, description, topic).

Definition _generate_concepts_html (concepts : list pyval)
  : result (list (nat * pyval * pyval * pyval)) :=
  for_each_enumerate concept_card 0 concepts.

(** [_generate_mcq_html]: one card per question, with its options, each
    with the question's id and under the letter [chr(65 + i)]. *)
Definition option_item (mcq : pyval) (i : nat) (option : pyval)
  : result (pyval * nat * pyval) :=
  let? id := py_getitem mcq "id" in
  if (65 + Z.of_nat i <? 1114112)%Z then Ok (id, 65 + i, option) else Raise ValueError.

Definition mcq_card (mcq : pyval)
  : result (pyval * pyval * pyval * list (pyval * nat * pyval)) :=
  let? options := py_getitem mcq "options" in
  let? options := py_iter options in
  let? options_html := for_each_enumerate (option_item mcq) 0 options in
  let? id := py_getitem mcq "id" in
  let? correct_answer := py_getitem mcq "correct_answer" in
  let? question := py_getitem mcq "question" in
  Ok (id, correct_answer, question, options_html).

Definition _generate_mcq_html (mcq_questions : list pyval)
  : result (list (pyval * pyval * pyval * list (pyval * nat * pyval))) :=
  for_each mcq_card mcq_questions.

(** [_generate_subjective_html]: one card per question, with the tag for
    the important ones, the marks and the answer, its newlines turned into
    [<br>]. *)
Definition subjective_card (question : pyval)
  : result (pyval * pyval * bool * pyval * string) :=
  let? important := py_get question "important" (PBool false) in
  let? marks := py_get question "marks" (PStr "3 Marks") in
  let? id := py_getitem question "id" in
  let? text := py_getitem question "question" in
  let? answer := py_getitem question "answer" in
  let? answer := py_replace answer Text.newline "<br>" in
  Ok (id, text, py_truthy important, marks, answer).

Definition _generate_subjective_html (subjective_questions : list pyval)
  : result (list (pyval * pyval * bool * pyval * string)) :=
  for_each subjective_card subjective_questions.

(** *** The topic tree

    [topics] is a dict of dicts of lists, each in insertion order: the
    concepts by main topic and by subtopic, those of a topic without
    subtopic under ['main']. *)
Definition tree : Type := list (string * list (string * list pyval)).

Definition arrow : string := " → ".

(** [topic.split(' → ', 1)] when the arrow is in [topic] *)
Definition split_arrow (topic : string) : option (string * string) :=
  let chars := list_ascii_of_string topic in
  let sep := list_ascii_of_string arrow in
  match find sep chars with
  | Some i =>
      Some (string_of_list_ascii (take i chars),
            string_of_list_ascii (drop (i + length sep) chars))
  | None => None
  end.

(** [if key not in d: d[key] = new], followed by an update of [d[key]] *)
Fixpoint update_entry {A} (key : string) (new : A) (f : A -> A)
    (d : list (string * A)) : list (string * A) :=
  match d with
  | [] => [(key, f new)]
  | (k, v) :: d' =>
      if decide (key = k) then (k, f v) :: d' else (k, v) :: update_entry key new f d'
  end.

Definition add_concept (main_topic subtopic : string) (concept : pyval) (topics : tree)
  : tree :=
  update_entry main_topic []
    (update_entry subtopic [] (fun concepts => concepts ++ [concept])) topics.

(** One turn of the loop that fills [topics]; on a topic that is not a
    string either [topic.split] or one of the tests [' → ' in topic] and
    [topic not in topics] raises. *)
Definition place_concept (topics : tree) (concept : pyval) : result tree :=
  let? topic := py_get concept "topic" (PStr "") in
  match topic with
  | PStr topic =>
      match split_arrow topic with
      | Some (main_topic, subtopic) => Ok (add_concept main_topic subtopic concept topics)
      | None => Ok (add_concept topic "main" concept topics)
      end
  | PList l =>
      if existsb (fun x => match x with
                           | PStr s => bool_decide (s = arrow)
                           | _ => false
                           end) l
      then Raise AttributeError
      else Raise TypeError
  | PDict d =>
      if bool_decide (is_Some (dict_lookup arrow d)) then Raise AttributeError
      else Raise TypeError
  | _ => Raise TypeError
  end.

Fixpoint place_concepts (topics : tree) (concepts : list pyval) : result tree :=
  match concepts with
  | [] => Ok topics
  | concept :: rest =>
      let? topics := place_concept topics concept in
      place_concepts topics rest
  end.

(** [_generate_subtopics_with_concepts_html]: the concepts of a main topic,
    subtopic by subtopic, each with its title and its description, the
    latter also with its quotes escaped. *)
Definition concept_under_topic (concept : pyval) : result (pyval * string * pyval) :=
  let? title := py_getitem concept "title" in
  let? description := py_getitem concept "description" in
  let? escaped := py_replace description "'" "\'" in
  Ok (title, escaped, description).

Definition subtopic_with_concepts (entry : string * list pyval)
  : result (string * list (pyval * string * pyval)) :=
  let '(subtopic_name, concepts) := entry in
  let? shown := for_each concept_under_topic concepts in
  Ok (if decide (subtopic_name = "main") then "Main Topic" else subtopic_name, shown).

Definition _generate_subtopics_with_concepts_html (subtopics : list (string * list pyval))
  : result (list (string * list (pyval * string * pyval))) :=
  for_each subtopic_with_concepts subtopics.

Definition _generate_topic_tree_html (concepts : list pyval)
  : result (list (string * list (string * list (pyval * string * pyval)))) :=
  let? topics := place_concepts [] concepts in
  for_each (fun entry : string * list (string * list pyval) =>
              let '(main_topic, subtopics) := entry in
              let? shown := _generate_subtopics_with_concepts_html subtopics in
              Ok (main_topic, shown))
           topics.

(** What the template of a page is filled with.  The concept cards of
    [_generate_concepts_html] are built but have no place in it. *)
Record page : Type := {
  page_title : string;
  page_icon : string;
  page_total_concepts : nat;
  page_total_mcqs : nat;
  page_total_subjective : nat;
  topic_tree_html : list (string * list (string * list (pyval * string * pyval)));
  mcq_html : list (pyval * pyval * pyval * list (pyval * nat * pyval));
  subjective_html : list (pyval * pyval * bool * pyval * string);
  concepts_json : list (pyval * pyval);
  mcq_json : list pyval;
  subjective_json : list pyval
}.

(** [generate_html_content]; the time stamp of the page is left out. *)
Definition generate_html_content (content_data : content_data) : result page :=
  (* Extract data *)
  let subject_info := subject_info content_data in
  let concepts := concepts content_data in
  let mcq_questions := mcq_questions content_data in
  let subjective_questions := subjective_questions content_data in
  let stats := stats content_data in
  (* Generate HTML sections *)
  let? concepts_html := _generate_concepts_html concepts in
  let? mcq_html := _generate_mcq_html mcq_questions in
  let? subjective_html := _generate_subjective_html subjective_questions in
  (* Convert to JSON for JavaScript *)
  let? concepts_json :=
    for_each (fun concept =>
                let? title := py_getitem concept "title" in
                let? description := py_getitem concept "description" in
                Ok (title, description))
             concepts in
  let mcq_json := mcq_questions in
  let subjective_json := subjective_questions in
  (* Generate topic tree HTML *)
  let? topic_tree_html := _generate_topic_tree_html concepts in
  (* Fill template *)
  Ok {| page_title := title subject_info;
        page_icon := icon subject_info;
        page_total_concepts := total_concepts stats;
        page_total_mcqs := length mcq_questions;
        page_total_subjective := length subjective_questions;
        topic_tree_html := topic_tree_html;
        mcq_html := mcq_html;
        subjective_html := subjective_html;
        concepts_json := concepts_json;
        mcq_json := mcq_json;
        subjective_json := subjective_json |}.

End Render.

(** ** Notions the statements about the pages are phrased with *)

Module RenderFacts.
Import Py Paths Processor Render.
Local Open Scope string_scope.
Local Open Scope list_scope.
Local Open Scope py_scope.

(** A computation that returns. *)
Definition is_ok {A} (r : result A) : Prop := exists a, r = Ok a.

Definition has (key : string) (d : list (string * pyval)) : bool :=
  bool_decide (is_Some (dict_lookup key d)).

Definition has_string (key : string) (d : list (string * pyval)) : bool :=
  match dict_lookup key d with
  | Some (PStr _) => true
  | _ => false
  end.

(** What the page asks of a concept: a dict with a title, a description
    that is a string and, if it has a topic, a topic that is a string. *)
Definition renderable_concept (concept : pyval) : bool :=
  match concept with
  | PDict d =>
      has "title" d && has_string "description" d &&
      match dict_lookup "topic" d with
      | None | Some (PStr _) => true
      | Some _ => false
      end
  | _ => false
  end.

(** Of a multiple-choice question: a dict with an id, a correct answer, a
    question and options that can be ranged over (fewer of them than there
    are code points behind ['A']). *)
Definition renderable_mcq (mcq : pyval) : bool :=
  match mcq with
  | PDict d =>
      has "id" d && has "correct_answer" d && has "question" d &&
      match dict_lookup "options" d with
      | Some options =>
          match py_iter options with
          | Ok l => (Z.of_nat (length l) <=? 1114047)%Z
          | Raise _ => false
          end
      | None => false
      end
  | _ => false
  end.

(** Of a subjective question: a dict with an id, a question and an answer
    that is a string. *)
Definition renderable_subjective (question : pyval) : bool :=
  match question with
  | PDict d => has "id" d && has "question" d && has_string "answer" d
  | _ => false
  end.

Definition renderable (content_data : content_data) : bool :=
  forallb renderable_concept (concepts content_data) &&
  forallb renderable_mcq (mcq_questions content_data) &&
  forallb renderable_subjective (subjective_questions content_data).

(** The concepts held by the dict of topics, and the titles shown in the
    tree of a page, both in the order of the tree. *)
Definition tree_concepts (topics : tree) : list pyval :=
  flat_map (fun entry => flat_map snd (snd entry)) topics.

Definition shown_titles
    (html : list (string * list (string * list (pyval * string * pyval)))) : list pyval :=
  flat_map (fun entry =>
              flat_map (fun sub => map (fun shown => fst (fst shown)) (snd sub)) (snd entry))
           html.

(** Where the tree puts a concept: under the main topic and the subtopic
    its topic splits into at the first arrow, under ['main'] when it holds
    no arrow. *)
Definition place_of (concept : pyval) : option (string * string) :=
  match py_get concept "topic" (PStr "") with
  | Ok (PStr topic) =>
      match split_arrow topic with
      | Some (main_topic, subtopic) => Some (main_topic, subtopic)
      | None => Some (topic, "main")
      end
  | _ => None
  end.

(** The dict of topics holds every key once and every concept where it
    belongs. *)
Definition well_grouped (topics : tree) : Prop :=
  NoDup (map fst topics) /\
  Forall (fun entry =>
            NoDup (map fst (snd entry)) /\
            Forall (fun sub =>
                      Forall (fun concept => place_of concept = Some (fst entry, fst sub))
                             (snd sub))
                   (snd entry))
         topics.

(** A name that holds no arrow. *)
Definition no_arrow (name : string) : Prop :=
  find (list_ascii_of_string "→") (list_ascii_of_string name) = None.

End RenderFacts.

(** ** The parts put together *)

Module System.
Import Py Processor Parallel Facts ParallelFacts GenerationFacts Render RenderFacts.
Local Open Scope string_scope.
Local Open Scope list_scope.
Local Open Scope py_scope.

(** The places of the tree the leaves of an outline stand for: a main topic
    with each of its subtopics, or with ['main'] when it has none. *)
Definition leaf_places (topic_structure : list topic_info) : list (string * string) :=
  flat_map (fun topic =>
              match subtopics topic with
              | [] => [(main_topic topic, "main")]
              | _ :: _ => map (fun subtopic => (main_topic topic, subtopic)) (subtopics topic)
              end) topic_structure.

Section Assembled.

(** The template of the pages, as a function of what it is filled with. *)
Variable print_page : page -> string.

(** [HTMLGenerator.generate_html_content] as the pipeline calls it. *)
Definition render (content_data : content_data) : result string :=
  let? page := generate_html_content content_data in
  Ok (print_page page).

(** An environment whose pages are rendered by [HTMLGenerator] and named by
    [generate_html_page]. *)
Definition with_renderer (env : environment) : environment :=
  {| processor := processor env;
     Parallel._extract_text_from_pdf := Parallel._extract_text_from_pdf env;
     Parallel._identify_topic_headings := Parallel._identify_topic_headings env;
     Parallel._extract_subject_info := Parallel._extract_subject_info env;
     api_replies := api_replies env;
     Parallel.generate_html_content := render;
     basename := Paths.basename;
     output_path := fun pdf_path => Paths.file_named (Paths.output_path pdf_path);
     relative_filename := Paths.relative_filename;
     now := now env;
     get_pdf_files := get_pdf_files env |}.

(** The outline of a text when the model cannot be reached: its headings,
    as main topics without subtopics. *)
Definition offline_outline (text_content : string) : list topic_info :=
  map (fun topic => {| main_topic := topic; subtopics := [] |})
      (Text._extract_headings_from_text text_content).

(** The system with the model out of reach: the processor is [self], the
    documents are read from [read], no call of the model yields a reply,
    and the outline of a document is built from its headings. *)
Definition offline (self : EnhancedAIPDFProcessor) (read : string -> Text.pdf_document)
    (subject : string -> subject_info_t) (clock : string -> string)
    (pdf_files : list string) : environment :=
  with_renderer
    {| processor := self;
       Parallel._extract_text_from_pdf := fun pdf_path => Text._extract_text_from_pdf (read pdf_path);
       Parallel._identify_topic_headings := offline_outline;
       Parallel._extract_subject_info := subject;
       api_replies := fun _ => [];
       Parallel.generate_html_content := render;
       basename := Paths.basename;
       output_path := Paths.output_path;
       relative_filename := Paths.relative_filename;
       now := clock;
       get_pdf_files := pdf_files |}.

(** The entry of a document processed with the model out of reach: one
    concept and three questions of either kind for each heading found in its
    text. *)
Definition offline_entry (read : string -> Text.pdf_document)
    (subject : string -> subject_info_t) (clock : string -> string)
    (pdf_path : string) : pdf_info :=
  let headings :=
    Text._extract_headings_from_text (Text._extract_text_from_pdf (read pdf_path)) in
  {| Parallel.title := Processor.title (subject pdf_path);
     Parallel.icon := Processor.icon (subject pdf_path);
     filename := Paths.relative_filename pdf_path;
     Parallel.stats :=
       {| total_concepts := length headings;
          total_mcqs := 3 * length headings;
          total_subjective := 3 * length headings;
          main_topics := length headings;
          total_subtopics := 0;
          images_used := 0 |};
     original_pdf := Paths.basename pdf_path;
     processed_at := clock pdf_path |}.

End Assembled.

(** A document of two pages, the first of which is a heading, and one that
    cannot be opened. *)
Definition two_page_document : Text.pdf_document :=
  Ok [Ok (Some "The  Rivers
of India"); Ok None;
      Ok (Some "Rivers rise in the mountains and flow to the sea, and on their way they water the plains of the north, where most of the people of the country live.")].

Definition shelf (pdf_path : string) : Text.pdf_document :=
  if decide (pdf_path = "pdfs/Class 9 - Rivers.pdf") then two_page_document
  else Raise ValueError.

End System.

(** ** Properties of the per-topic generation *)

Module ProcessorProofs.
Import Py Processor Facts.
Local Open Scope py_scope.
Local Open Scope list_scope.

Lemma texts_of_app items1 keys1 items2 keys2 :
  texts_of items1 keys1 -> texts_of items2 keys2 ->
  texts_of (items1 ++ items2) (keys1 ++ keys2).
Proof. apply Forall2_app. Qed.

Lemma texts_of_take n items keys :
  texts_of items keys -> texts_of (take n items) (take n keys).
Proof. apply Forall2_take. Qed.

(** The duplicate-removal loop keeps the question texts of what it has
    gathered pairwise distinct, provided they were so and are all in
    [seen_questions] when it starts. *)
Lemma remove_duplicates_distinct items :
  forall seen unique keys res,
    remove_duplicates items seen unique = Ok res ->
    texts_of unique keys -> NoDup keys ->
    (forall key, key ∈ keys -> key ∈ seen) ->
    distinct_texts res.
Proof.
  induction items as [|item rest IH]; intros seen unique keys res Hrun Hkeys Hnd Hseen.
  - simpl in Hrun. inversion Hrun; subst. exists keys. split; assumption.
  - simpl in Hrun. destruct (question_text item) as [q|e] eqn:Hq; simpl in Hrun;
      [|discriminate].
    destruct (decide (q ∈ seen)) as [Hin|Hnin].
    + eapply IH; eassumption.
    + eapply (IH _ _ (keys ++ [q])); [eassumption | | | ].
      * apply texts_of_app; [assumption|]. repeat constructor. exact Hq.
      * apply NoDup_app. split; [assumption|]. split.
        -- intros key Hk Hk'. apply list_elem_of_singleton in Hk'. subst.
           apply Hnin, Hseen, Hk.
        -- apply NoDup_singleton.
      * intros key Hk. apply elem_of_app in Hk as [Hk|Hk].
        -- apply elem_of_union_r, Hseen, Hk.
        -- apply list_elem_of_singleton in Hk. subst. apply elem_of_union_l.
           apply elem_of_singleton. reflexivity.
Qed.

(** When the texts are pairwise distinct and none has been seen, the loop
    keeps every item. *)
Lemma remove_duplicates_keeps_all items :
  forall seen unique keys,
    texts_of items keys -> NoDup keys ->
    (forall key, key ∈ keys -> key ∉ seen) ->
    remove_duplicates items seen unique = Ok (unique ++ items).
Proof.
  induction items as [|item rest IH]; intros seen unique keys Hkeys Hnd Hfresh.
  - simpl. rewrite app_nil_r. reflexivity.
  - inversion Hkeys as [|? key ? keys' Hq Hrest]; subst.
    simpl. rewrite Hq. simpl.
    apply NoDup_cons in Hnd as [Hnotin Hnd].
    destruct (decide (key ∈ seen)) as [Hin|_].
    + exfalso. eapply Hfresh; [|exact Hin]. apply list_elem_of_here.
    + rewrite (IH _ _ keys' Hrest Hnd).
      * rewrite <- app_assoc. reflexivity.
      * intros k Hk Hk'. apply elem_of_union in Hk' as [Hk'|Hk'].
        -- apply elem_of_singleton in Hk'. subst. contradiction.
        -- eapply Hfresh; [|exact Hk']. apply list_elem_of_further, Hk.
Qed.

Lemma distinct_texts_take n items :
  distinct_texts items -> distinct_texts (take n items).
Proof.
  intros (keys & Hkeys & Hnd). exists (take n keys). split.
  - apply texts_of_take, Hkeys.
  - eapply sublist_NoDup; [exact Hnd|apply sublist_take].
Qed.

Lemma for_enumerate_length body items :
  forall i items', for_enumerate body i items = Ok items' -> length items' = length items.
Proof.
  induction items as [|x rest IH]; intros i items' H; simpl in H.
  - inversion H. reflexivity.
  - destruct (body i x); simpl in H; [|discriminate].
    destruct (for_enumerate body (S i) rest) eqn:E; simpl in H; [|discriminate].
    inversion H; subst. simpl. f_equal. eapply IH, E.
Qed.

(** Assigning in place leaves [len] as it was. *)
Lemma py_for_enumerate_len body o o' :
  py_for_enumerate body o = Ok o' -> py_len o' = py_len o.
Proof.
  unfold py_for_enumerate. intros H.
  destruct (py_iter o) as [items|] eqn:Hit; simpl in H; [|discriminate].
  destruct (for_enumerate body 0 items) as [items'|] eqn:Hfe; simpl in H; [|discriminate].
  apply for_enumerate_length in Hfe.
  destruct o; inversion H; subst; try reflexivity.
  simpl in Hit. inversion Hit; subst. simpl. rewrite Hfe. reflexivity.
Qed.

Lemma backfills_app tr1 tr2 : backfills (tr1 ++ tr2) = backfills tr1 ++ backfills tr2.
Proof. apply omap_app. Qed.

Lemma distinct_texts_nil : distinct_texts [].
Proof. exists []. split; constructor. Qed.

Lemma distinct_texts_unique items unique m :
  remove_duplicates items ∅ [] = Ok unique -> distinct_texts (take m unique).
Proof.
  intros Hu. apply distinct_texts_take.
  eapply (remove_duplicates_distinct _ _ _ []); [exact Hu|constructor|constructor|].
  intros key Hk. inversion Hk.
Qed.

(** Normalises the backfill requests of a trail built by appending. *)
Ltac simpl_backfills :=
  cbn [trail replies]; rewrite ?backfills_app; cbn [backfills omap];
  rewrite ?app_nil_r, <- ?app_assoc; cbn [app].

Lemma generate_questions_outcome k parse additional topic text m s w :
  exists l w',
    generate_questions k parse additional topic text m s w = (Ok l, w') /\
    length l <= m /\ distinct_texts l /\
    replies w' = tail (replies w) /\
    exists bf,
      backfills (trail w') = backfills (trail w) ++ bf /\
      (bf = [] \/
       exists n, py_len (parse (next_reply w)) = Ok n /\ n < m /\ bf = [(k, m - n)]).
Proof.
  unfold generate_questions, try_except, bind, _call_ai_api, lift, emit, ret.
  fold (next_reply w). set (r := next_reply w).
  destruct (py_for_enumerate (set_id s) (parse r)) as [items|e] eqn:Hids.
  2:{ eexists _, _. split; [reflexivity|]. simpl_backfills.
      split; [cbn; lia|split; [apply distinct_texts_nil|split; [reflexivity|]]]. exists []. rewrite app_nil_r. auto. }
  pose proof (py_for_enumerate_len _ _ _ Hids) as Hlen.
  destruct (py_len items) as [n|e] eqn:Hn.
  2:{ eexists _, _. split; [reflexivity|]. simpl_backfills.
      split; [cbn; lia|split; [apply distinct_texts_nil|split; [reflexivity|]]]. exists []. rewrite app_nil_r. auto. }
  destruct (n <? m)%nat eqn:Hlt.
  - assert (Hbf : exists n0, py_len (parse r) = Ok n0 /\ n0 < m /\
                             [(k, m - n)] = [(k, m - n0)]).
    { exists n. apply Nat.ltb_lt in Hlt. rewrite <- Hlen. auto. }
    destruct (py_extend items (additional text (m - n) (s + n))) as [items'|e].
    2:{ eexists _, _. split; [reflexivity|]. simpl_backfills.
        split; [cbn; lia|split; [apply distinct_texts_nil|split; [reflexivity|]]]. exists [(k, m - n)]. split; [reflexivity|right; exact Hbf]. }
    destruct (py_iter items') as [l0|e].
    2:{ eexists _, _. split; [reflexivity|]. simpl_backfills.
        split; [cbn; lia|split; [apply distinct_texts_nil|split; [reflexivity|]]]. exists [(k, m - n)]. split; [reflexivity|right; exact Hbf]. }
    destruct (remove_duplicates l0 ∅ []) as [u|e] eqn:Hu.
    2:{ eexists _, _. split; [reflexivity|]. simpl_backfills.
        split; [cbn; lia|split; [apply distinct_texts_nil|split; [reflexivity|]]]. exists [(k, m - n)]. split; [reflexivity|right; exact Hbf]. }
    eexists _, _. split; [reflexivity|]. simpl_backfills.
    split; [rewrite length_take; lia|split; [eapply distinct_texts_unique, Hu|split; [reflexivity|]]].
    exists [(k, m - n)]. split; [reflexivity|right; exact Hbf].
  - destruct (py_iter items) as [l0|e].
    2:{ eexists _, _. split; [reflexivity|]. simpl_backfills.
        split; [cbn; lia|split; [apply distinct_texts_nil|split; [reflexivity|]]]. exists []. rewrite app_nil_r. auto. }
    destruct (remove_duplicates l0 ∅ []) as [u|e] eqn:Hu.
    2:{ eexists _, _. split; [reflexivity|]. simpl_backfills.
        split; [cbn; lia|split; [apply distinct_texts_nil|split; [reflexivity|]]]. exists []. rewrite app_nil_r. auto. }
    eexists _, _. split; [reflexivity|]. simpl_backfills.
    split; [rewrite length_take; lia|split; [eapply distinct_texts_unique, Hu|split; [reflexivity|]]].
    exists []. rewrite app_nil_r. auto.
Qed.

Lemma dict_lookup_set_ne k k' v d :
  k <> k' -> dict_lookup k (dict_set k' v d) = dict_lookup k d.
Proof.
  intros Hne. induction d as [|[k0 v0] d IH]; simpl.
  - destruct (decide (k = k')); [contradiction|reflexivity].
  - destruct (decide (k' = k0)) as [<-|Hne0]; simpl.
    + destruct (decide (k = k')); [contradiction|reflexivity].
    + destruct (decide (k = k0)); [reflexivity|exact IH].
Qed.

Lemma question_text_set_id s i item item' :
  set_id s i item = Ok item' -> question_text item' = question_text item.
Proof.
  unfold set_id, py_setitem. destruct item; intros H; inversion H; subst.
  unfold question_text, py_getitem.
  rewrite dict_lookup_set_ne by discriminate. reflexivity.
Qed.

Lemma for_enumerate_set_id s items :
  Forall is_dict items ->
  forall i, exists items',
    for_enumerate (set_id s) i items = Ok items' /\
    Forall2 (fun item' item => question_text item' = question_text item) items' items.
Proof.
  induction 1 as [|item rest Hd _ IH]; intros i.
  - exists []. split; [reflexivity|constructor].
  - destruct item; try contradiction.
    destruct (IH (S i)) as (rest' & Hrest & Htexts).
    eexists. simpl. rewrite Hrest. simpl. split; [reflexivity|].
    constructor; [|exact Htexts].
    apply (question_text_set_id s i). reflexivity.
Qed.

Lemma texts_of_same items' items keys :
  Forall2 (fun item' item => question_text item' = question_text item) items' items ->
  texts_of items keys -> texts_of items' keys.
Proof.
  intros H. revert keys. induction H as [|a b l l' Hab _ IH]; intros keys Hk.
  - inversion Hk. constructor.
  - inversion Hk; subst. constructor; [congruence|]. apply IH. assumption.
Qed.

Lemma sequential_ids_app start count1 count2 :
  sequential_ids start count1 ++ sequential_ids (start + count1) count2
  = sequential_ids start (count1 + count2).
Proof.
  unfold sequential_ids. rewrite seq_app, map_app. f_equal.
  change (0 + count1) with count1.
  replace (seq count1 count2) with (map (Nat.add count1) (seq 0 count2)).
  - rewrite map_map. apply map_ext. intros i. rewrite Nat.add_assoc. reflexivity.
  - rewrite <- (Nat.add_0_r count1) at 2. apply fmap_add_seq.
Qed.

Lemma sequential_ids_take n start count :
  n <= count -> take n (sequential_ids start count) = sequential_ids start n.
Proof.
  intros Hle. unfold sequential_ids. rewrite firstn_map, take_seq.
  rewrite Nat.min_l by exact Hle. reflexivity.
Qed.

Lemma ids_of_app items1 items2 : ids_of (items1 ++ items2) = ids_of items1 ++ ids_of items2.
Proof. apply map_app. Qed.

Lemma ids_of_take n items : ids_of (take n items) = take n (ids_of items).
Proof. unfold ids_of. symmetry. apply firstn_map. Qed.

Lemma dict_lookup_set_eq k v d : dict_lookup k (dict_set k v d) = Some v.
Proof.
  induction d as [|[k0 v0] d IH]; simpl.
  - rewrite decide_True by reflexivity. reflexivity.
  - destruct (decide (k = k0)) as [<-|Hne]; simpl.
    + rewrite decide_True by reflexivity. reflexivity.
    + rewrite decide_False by exact Hne. exact IH.
Qed.

Lemma for_enumerate_set_id_ids s items :
  Forall is_dict items ->
  forall i items',
    for_enumerate (set_id s) i items = Ok items' ->
    ids_of items' = map (fun j => Ok (PInt (Z.of_nat (s + j)))) (seq i (length items)).
Proof.
  induction 1 as [|item rest Hd _ IH]; intros i items' Hrun.
  - inversion Hrun. reflexivity.
  - destruct item; try contradiction. simpl in Hrun.
    destruct (for_enumerate (set_id s) (S i) rest) as [rest'|] eqn:Hrest;
      simpl in Hrun; [|discriminate].
    inversion Hrun; subst. cbn [ids_of map length seq]. f_equal.
    + unfold py_getitem. rewrite dict_lookup_set_eq. reflexivity.
    + apply IH, Hrest.
Qed.

Lemma additional_mcqs_ids t c s : ids_of (_generate_additional_mcqs t c s) = sequential_ids s c.
Proof.
  unfold ids_of, _generate_additional_mcqs, sequential_ids.
  rewrite map_map. apply map_ext. intros i. reflexivity.
Qed.

Lemma additional_subjective_ids t c s :
  ids_of (_generate_additional_subjective t c s) = sequential_ids s c.
Proof.
  unfold ids_of, _generate_additional_subjective, sequential_ids.
  rewrite map_map. apply map_ext. intros i. reflexivity.
Qed.

Lemma total_min_app ls1 ls2 : total_min (ls1 ++ ls2) = total_min ls1 + total_min ls2.
Proof. unfold total_min. rewrite map_app. apply sum_list_with_app. Qed.

Lemma total_min_subtopics (subs : list string) :
  total_min (map (fun s => (s, 2)) subs) = 2 * length subs.
Proof. unfold total_min. induction subs as [|? ? IH]; cbn in *; lia. Qed.

Lemma additional_mcqs_length t c s : length (_generate_additional_mcqs t c s) = c.
Proof. unfold _generate_additional_mcqs. rewrite length_map, length_seq. reflexivity. Qed.

Lemma additional_subjective_length t c s :
  length (_generate_additional_subjective t c s) = c.
Proof. unfold _generate_additional_subjective. rewrite length_map, length_seq. reflexivity. Qed.

Lemma tail3_drop {A} (rs : list A) : tail (tail (tail rs)) = drop 3 rs.
Proof. destruct rs as [|? [|? [|? ?]]]; reflexivity. Qed.

End ProcessorProofs.

(** ** Properties of the pipeline *)

Module ParallelProofs.
Import Py Parallel ParallelFacts.
Local Open Scope list_scope.

Lemma deployments_app h1 h2 : deployments (h1 ++ h2) = deployments h1 + deployments h2.
Proof. unfold deployments. rewrite omap_app, length_app. reflexivity. Qed.

Lemma writes_app h1 h2 : writes (h1 ++ h2) = writes h1 ++ writes h2.
Proof. apply omap_app. Qed.

(** *** The pool *)

Lemma refill_moves free : forall queue running queue' running',
  refill free queue running = (queue', running') ->
  exists moved, running' = running ++ moved /\ queue = moved ++ queue' /\
                (free <> 0 -> queue <> [] -> moved <> []).
Proof.
  induction free as [|free IH]; intros queue running queue' running' H.
  - cbn in H. inversion H; subst. exists []. rewrite app_nil_r. auto.
  - destruct queue as [|job queue]; cbn in H.
    + inversion H; subst. exists []. rewrite app_nil_r. auto.
    + apply IH in H as (moved & -> & -> & _). exists (job :: moved).
      rewrite <- app_assoc. auto.
Qed.

(** With a worker at hand every submitted job finishes, exactly once. *)
Lemma completion_order_perm max_workers : max_workers <> 0 ->
  forall fuel choices queue running,
    fuel = length queue + length running ->
    completion_order fuel choices max_workers queue running ≡ₚ running ++ queue.
Proof.
  intros Hmw. induction fuel as [|fuel IH]; intros choices queue running Hfuel.
  - destruct queue, running; try discriminate. reflexivity.
  - cbn [completion_order].
    destruct (refill (max_workers - length running) queue running)
      as [queue' running'] eqn:Hrefill.
    apply refill_moves in Hrefill as (moved & -> & -> & Hnonempty).
    rewrite length_app in Hfuel.
    destruct (running ++ moved) as [|first others] eqn:Hrunning.
    + apply app_eq_nil in Hrunning as [-> ->]. cbn in *.
      destruct queue' as [|job queue']; [discriminate|].
      exfalso. apply Hnonempty; [lia|discriminate|reflexivity].
    + rewrite <- Hrunning, app_assoc.
      assert (Hlen : length (running ++ moved) = length running + length moved)
        by apply length_app.
      set (running' := running ++ moved) in *.
      set (i := default 0 (head choices) mod length running').
      assert (Hi : i < length running').
      { apply Nat.mod_upper_bound. rewrite Hrunning. discriminate. }
      destruct (lookup_lt_is_Some_2 running' i Hi) as [job Hjob].
      rewrite Hjob. cbn [default].
      rewrite (delete_Permutation running' i job Hjob) at 2. cbn [app].
      constructor. apply IH.
      rewrite length_delete by eauto. lia.
Qed.

(** *** One job *)

(** What finishing a job does to the shared state: it appends the job's
    entry, if it produced one, and only ever adds to the history and
    overwrites files. *)
Lemma finish_job_effect env st pdf_path :
  exists events,
    processed_pdfs (finish_job env st pdf_path)
      = processed_pdfs st ++ option_list (job_info env pdf_path) /\
    history (finish_job env st pdf_path) = history st ++ events /\
    deployments events = 0 /\
    (forall path, is_Some (files st !! path) ->
                  is_Some (files (finish_job env st pdf_path) !! path)) /\
    In (Reported pdf_path (bool_decide (is_Some (job_info env pdf_path)))) events /\
    match job_info env pdf_path with
    | Some _ => True
    | None => files (finish_job env st pdf_path) = files st /\
              writes events = [] /\
              In (Failed (basename env pdf_path)) events
    end.
Proof.
  unfold finish_job, process_single_pdf, job_info, generate_html_page.
  destruct (process_pdf env pdf_path) as [content|e].
  2:{ exists [Failed (basename env pdf_path); Reported pdf_path false]. cbn.
      rewrite app_nil_r, <- app_assoc. cbn. tauto. }
  destruct (generate_html_content env content) as [html|e].
  2:{ exists [Failed (basename env pdf_path); Reported pdf_path false]. cbn.
      rewrite app_nil_r, <- app_assoc. cbn. tauto. }
  unfold update_index_page. cbn [append_processed processed_pdfs write_file].
  destruct (processed_pdfs st ++ _) as [|info infos] eqn:Happ.
  { apply app_eq_nil in Happ as [_ Happ]. discriminate. }
  rewrite <- Happ.
  cbn [record write_file append_processed processed_pdfs history files option_list].
  eexists [Wrote _ _; Wrote _ _; Completed _ _; Reported _ _].
  split; [reflexivity|]. split.
  { rewrite <- !app_assoc. reflexivity. }
  split; [reflexivity|]. split.
  { intros path Hsome. rewrite !lookup_insert. repeat case_decide; eauto. }
  split; [|exact I]. cbn. tauto.
Qed.

Lemma run_jobs_snoc env order pdf_path st :
  run_jobs env (order ++ [pdf_path]) st = finish_job env (run_jobs env order st) pdf_path.
Proof. unfold run_jobs. rewrite foldl_app. reflexivity. Qed.

(** *** All jobs *)

Lemma run_jobs_effect env order : forall st,
  exists events,
    processed_pdfs (run_jobs env order st)
      = processed_pdfs st ++ omap (job_info env) order /\
    history (run_jobs env order st) = history st ++ events /\
    deployments events = 0 /\
    (forall path, is_Some (files st !! path) ->
                  is_Some (files (run_jobs env order st) !! path)) /\
    (forall pdf_path, pdf_path ∈ order ->
       In (Reported pdf_path (bool_decide (is_Some (job_info env pdf_path)))) events /\
       (job_info env pdf_path = None -> In (Failed (basename env pdf_path)) events)) /\
    ((forall pdf_path, pdf_path ∈ order -> job_info env pdf_path = None) ->
       files (run_jobs env order st) = files st /\ writes events = []).
Proof.
  induction order as [|pdf_path order IH]; intros st.
  - exists []. cbn. rewrite !app_nil_r.
    split; [reflexivity|]. split; [reflexivity|]. split; [reflexivity|].
    split; [auto|]. split; [intros p Hin; inversion Hin|auto].
  - cbn [run_jobs foldl]. fold (run_jobs env order (finish_job env st pdf_path)).
    destruct (finish_job_effect env st pdf_path)
      as (ev1 & Hp1 & Hh1 & Hd1 & Hf1 & Hr1 & Hfail1).
    destruct (IH (finish_job env st pdf_path))
      as (ev2 & Hp2 & Hh2 & Hd2 & Hf2 & Hr2 & Hfail2).
    exists (ev1 ++ ev2). split; [|split; [|split; [|split; [|split]]]].
    + rewrite Hp2, Hp1, <- app_assoc. f_equal. cbn.
      destruct (job_info env pdf_path); reflexivity.
    + rewrite Hh2, Hh1, <- app_assoc. reflexivity.
    + rewrite deployments_app. lia.
    + auto.
    + intros p Hin. rewrite !in_app_iff.
      apply elem_of_cons in Hin as [->|Hin].
      * split; [auto|]. intros Hnone. rewrite Hnone in Hfail1. tauto.
      * destruct (Hr2 p Hin). split; auto.
    + intros Hall.
      assert (Hnone : job_info env pdf_path = None) by (apply Hall; left).
      rewrite Hnone in Hfail1. destruct Hfail1 as (Hfiles1 & Hw1 & _).
      destruct Hfail2 as (Hfiles2 & Hw2).
      { intros p Hin. apply Hall. right. exact Hin. }
      rewrite Hfiles2, Hfiles1, writes_app, Hw1, Hw2. auto.
Qed.

Lemma submit_all_effect pdf_files : forall st,
  processed_pdfs (submit_all pdf_files st) = processed_pdfs st /\
  files (submit_all pdf_files st) = files st /\
  history (submit_all pdf_files st) = history st ++ map Submitted pdf_files.
Proof.
  induction pdf_files as [|pdf_path rest IH]; intros st.
  - cbn. rewrite app_nil_r. auto.
  - cbn [submit_all foldl]. fold (submit_all rest (record (Submitted pdf_path) st)).
    destruct (IH (record (Submitted pdf_path) st)) as (-> & -> & ->).
    cbn. rewrite <- app_assoc. auto.
Qed.

(** The state all jobs start from: nothing processed yet, the placeholder
    page on disk. *)
Lemma dispatched_effect env st :
  processed_pdfs (dispatched env st) = processed_pdfs st /\
  files (dispatched env st)
    = <[index_file := InitialIndexPage (length (get_pdf_files env))]> (files st) /\
  history (dispatched env st)
    = history st ++ MadeDirs pdfs_dir
        :: Wrote index_file (InitialIndexPage (length (get_pdf_files env)))
        :: map Submitted (get_pdf_files env).
Proof.
  unfold dispatched.
  destruct (submit_all_effect (get_pdf_files env)
              (create_initial_index_page (length (get_pdf_files env))
                 (setup_directories st))) as (-> & -> & ->).
  cbn. rewrite <- !app_assoc. auto.
Qed.

Lemma schedule_perm env max_workers choices :
  max_workers <> 0 -> schedule env max_workers choices ≡ₚ get_pdf_files env.
Proof.
  intros Hmw. unfold schedule.
  rewrite (completion_order_perm max_workers Hmw); [reflexivity|cbn; lia].
Qed.

(** A run over at least one document and with at least one worker goes
    through all its jobs and then deploys if anything was processed. *)
Lemma process_all_pdfs_parallel_unfold env max_workers choices st :
  get_pdf_files env <> [] -> max_workers <> 0 ->
  process_all_pdfs_parallel env max_workers choices st
  = (Ok tt,
     let done := after_jobs env max_workers choices st (length (get_pdf_files env)) in
     match processed_pdfs done with
     | [] => done
     | _ :: _ => deploy_to_github_pages done
     end).
Proof.
  intros Hfiles Hmw. unfold after_jobs.
  rewrite take_ge by (rewrite (schedule_perm env max_workers choices Hmw); lia).
  unfold process_all_pdfs_parallel, dispatched, schedule.
  destruct (get_pdf_files env) as [|pdf_path rest] eqn:Hglob; [contradiction|].
  destruct (decide (max_workers = 0)); [contradiction|].
  cbv zeta. destruct (processed_pdfs _); reflexivity.
Qed.

Lemma run_no_pdfs env max_workers choices disk :
  get_pdf_files env = [] ->
  run env max_workers choices disk
  = (Ok tt, {| processed_pdfs := []; files := disk;
               history := [MadeDirs pdfs_dir; NoPdfFiles] |}).
Proof.
  intros Hnone. unfold run, process_all_pdfs_parallel. rewrite Hnone. reflexivity.
Qed.

(** The shape of every run over at least one document, with at least one
    worker. *)
Lemma run_outcome env max_workers choices disk :
  get_pdf_files env <> [] -> max_workers <> 0 ->
  let out := run env max_workers choices disk in
  let total := length (get_pdf_files env) in
  exists events,
    fst out = Ok tt /\
    processed_pdfs (snd out) = omap (job_info env) (schedule env max_workers choices) /\
    history (snd out)
      = MadeDirs pdfs_dir :: Wrote index_file (InitialIndexPage total)
          :: map Submitted (get_pdf_files env) ++ events
          ++ match processed_pdfs (snd out) with [] => [] | _ :: _ => [Deployed] end /\
    deployments events = 0 /\
    (forall pdf_path, pdf_path ∈ get_pdf_files env ->
       In (Reported pdf_path (bool_decide (is_Some (job_info env pdf_path)))) events /\
       (job_info env pdf_path = None -> In (Failed (basename env pdf_path)) events)) /\
    is_Some (files (snd out) !! index_file) /\
    ((forall pdf_path, pdf_path ∈ get_pdf_files env -> job_info env pdf_path = None) ->
       files (snd out) = <[index_file := InitialIndexPage total]> disk /\
       writes events = []).
Proof.
  intros Hfiles Hmw out total. subst out. unfold run.
  rewrite (process_all_pdfs_parallel_unfold env max_workers choices _ Hfiles Hmw).
  cbv zeta. unfold after_jobs.
  rewrite take_ge by (rewrite (schedule_perm env max_workers choices Hmw); lia).
  destruct (dispatched_effect env (init disk)) as (Hp0 & Hf0 & Hh0).
  destruct (run_jobs_effect env (schedule env max_workers choices)
              (dispatched env (init disk)))
    as (events & Hp & Hh & Hd & Hf & Hr & Hfail).
  rewrite Hp0 in Hp. rewrite Hh0 in Hh. cbn in Hp, Hh.
  set (done := run_jobs env _ _) in *.
  assert (Hin : forall p, p ∈ get_pdf_files env -> p ∈ schedule env max_workers choices).
  { intros p. rewrite (schedule_perm env max_workers choices Hmw). auto. }
  assert (Hindex : is_Some (files done !! index_file)).
  { apply Hf. rewrite Hf0, lookup_insert_eq. eauto. }
  assert (Hall : forall p, p ∈ get_pdf_files env ->
            In (Reported p (bool_decide (is_Some (job_info env p)))) events /\
            (job_info env p = None -> In (Failed (basename env p)) events)).
  { intros p Hp'. apply Hr, Hin, Hp'. }
  assert (Hnone : (forall p, p ∈ get_pdf_files env -> job_info env p = None) ->
            files done = <[index_file := InitialIndexPage total]> disk /\
            writes events = []).
  { intros Hnone. destruct Hfail as [Hfl Hw].
    - intros p Hp'. apply Hnone.
      rewrite <- (schedule_perm env max_workers choices Hmw). exact Hp'.
    - rewrite Hfl, Hf0. auto. }
  exists events. cbn [fst snd].
  destruct (processed_pdfs done) as [|info infos] eqn:Hdone.
  - rewrite Hdone, Hh, app_nil_r. auto 10.
  - cbn [deploy_to_github_pages record processed_pdfs history files].
    rewrite Hdone, Hh. cbn. rewrite <- !app_assoc. auto 10.
Qed.

Lemma run_no_workers env choices disk :
  get_pdf_files env <> [] ->
  run env 0 choices disk
  = (Raise ValueError,
     {| processed_pdfs := [];
        files := <[index_file := InitialIndexPage (length (get_pdf_files env))]> disk;
        history := [MadeDirs pdfs_dir;
                    Wrote index_file (InitialIndexPage (length (get_pdf_files env)))] |}).
Proof.
  intros Hne. unfold run, process_all_pdfs_parallel.
  destruct (get_pdf_files env); [contradiction|]. reflexivity.
Qed.

Lemma deployments_submitted pdf_files : deployments (map Submitted pdf_files) = 0.
Proof. induction pdf_files; [reflexivity|assumption]. Qed.

Lemma writes_submitted pdf_files : writes (map Submitted pdf_files) = [].
Proof. induction pdf_files; [reflexivity|assumption]. Qed.

Lemma omap_filter {A B} (f : A -> option B) (l : list A) :
  Forall2 (fun y x => f x = Some y) (omap f l) (filter (fun x => is_Some (f x)) l).
Proof.
  induction l as [|x l IH]; [constructor|].
  cbn [omap list_omap]. rewrite filter_cons.
  destruct (f x) as [y|] eqn:Hfx.
  - rewrite decide_True by eauto. constructor; assumption.
  - rewrite decide_False by (intros [? ?]; discriminate). assumption.
Qed.

Lemma omap_all_none {A B} (f : A -> option B) (l : list A) :
  (forall x, x ∈ l -> f x = None) -> omap f l = [].
Proof.
  induction l as [|x l IH]; intros Hall; [reflexivity|].
  cbn. rewrite (Hall x) by left. apply IH. intros y Hy. apply Hall. right. exact Hy.
Qed.

End ParallelProofs.

(** ** Claims about the per-topic generation and the bundle *)

Module ProcessorClaims.
Import Py Processor Facts ProcessorProofs.
Local Open Scope py_scope.
Local Open Scope list_scope.

(** C1: the shortfall is counted before duplicates are removed, and
    backfill runs once.  Three questions are asked for and the reply holds
    one question twice.  The source counts two items, asks backfill for the
    one that is missing from three, and removes duplicates afterwards: the
    repetition goes, and the call returns two items, the question of the
    model and the placeholder numbered 3, without a second pass.  Counted
    on the items left once duplicates are removed, as the specification has
    it, the shortfall would have been two and the call would have returned
    three items.  The subjective questions go the same way. *)
Theorem C1_shortfall_counted_before_dedup :
  let asked (gen : M (list pyval)) (key : string) :=
    gen {| replies := [repeated_reply key]; trail := [] |} in
  let shown (out : result (list pyval) * world) :=
    (let? items := fst out in
     Ok (map (fun item => (py_getitem item "id", py_getitem item "question")) items),
     backfills (trail (snd out))) in
  shown (asked (_generate_mcqs_for_topic "Rivers" "" 3 1) "mcqs")
  = (Ok [(Ok (PInt 1), Ok (PStr "What is a river?"));
         (Ok (PInt 3), Ok (PStr "Additional MCQ question 3?"))],
     [(Mcqs, 1)]) /\
  shown (asked (_generate_subjective_for_topic "Rivers" "" 3 1) "subjective")
  = (Ok [(Ok (PInt 1), Ok (PStr "What is a river?"));
         (Ok (PInt 3), Ok (PStr "Additional subjective question 3?"))],
     [(Subjective, 1)]) /\
  ~ shortfall_counted_after_dedup Mcqs _parse_mcqs_response
      (_generate_mcqs_for_topic "Rivers" "" 3 1) 3
      {| replies := [repeated_reply "mcqs"]; trail := [] |} /\
  ~ second_pass_when_short (_generate_mcqs_for_topic "Rivers" "" 3 1) 3
      {| replies := [repeated_reply "mcqs"]; trail := [] |}.
Proof.
  cbv zeta. split; [vm_compute; reflexivity|]. split; [vm_compute; reflexivity|]. split.
  - intros H.
    specialize (H [question "What is a river?"; question " what is a RIVER? "]
                  [question "What is a river?"] eq_refl).
    assert (Hhead : head (backfills (trail (snd
              (_generate_mcqs_for_topic "Rivers" "" 3 1
                 {| replies := [repeated_reply "mcqs"]; trail := [] |}))))
            = Some (Mcqs, 1)) by (vm_compute; reflexivity).
    rewrite Hhead in H.
    assert (Hdedup : remove_duplicates
              [question "What is a river?"; question " what is a RIVER? "] ∅ []
            = Ok [question "What is a river?"]) by (vm_compute; reflexivity).
    specialize (H Hdedup). cbn in H. specialize (H ltac:(lia)). discriminate H.
  - intros H.
    destruct (_generate_mcqs_for_topic "Rivers" "" 3 1
                {| replies := [repeated_reply "mcqs"]; trail := [] |})
      as [[l|e] w'] eqn:Hrun; vm_compute in Hrun; [|discriminate].
    injection Hrun as <- <-.
    specialize (H _ _ eq_refl). cbn in H.
    specialize (H ltac:(discriminate) ltac:(lia)). lia.
Qed.

(** C2: a main topic without subtopics is asked for three MCQs and three
    subjective questions.  When the model answers each request with the same
    question twice, backfill adds the one item missing from three, duplicate
    removal then drops one of the two, and the bundle holds two MCQs and two
    subjective questions for the topic. *)
Theorem C2_duplicates_leave_topic_short :
  exists b w',
    process_chapter one_topic
      [None; repeated_reply "mcqs"; repeated_reply "subjective"] = (Ok b, w') /\
    leaves one_topic = [("Rivers", 3)] /\
    length (mcq_questions b) = 2 /\
    length (subjective_questions b) = 2.
Proof.
  eexists _, _. split; [vm_compute; reflexivity|].
  split; [reflexivity|]. split; reflexivity.
Qed.

(** C3: identifiers are assigned before duplicates are removed.  With the
    reply above for the first of two topics, the item numbered 2 is dropped,
    the first topic contributes the identifiers 1 and 3, and the second
    topic, numbered from the length of the list plus one, starts at 3 again:
    the five MCQs of the bundle are numbered 1, 3, 3, 4, 5. *)
Theorem C3_ids_skip_and_repeat :
  exists b w',
    process_chapter two_topics [None; reply_with_repetition] = (Ok b, w') /\
    ids_of (mcq_questions b)
    = [Ok (PInt 1); Ok (PInt 3); Ok (PInt 3); Ok (PInt 4); Ok (PInt 5)].
Proof.
  eexists _, _. split; [vm_compute; reflexivity|]. reflexivity.
Qed.

(** C9: in every bundle [process_pdf_with_structured_content] returns, the
    counts in [stats] are the lengths of the bundle's lists of concepts, MCQs
    and subjective questions, the number of main topics of the outline and
    the sum of their numbers of subtopics. *)
Theorem C9_stats_consistent (self : EnhancedAIPDFProcessor)
    (extract_text : string -> string) (identify : string -> list topic_info)
    (subject : string -> subject_info_t) (pdf_path : string) (w w' : world)
    (b : content_data) :
  process_pdf_with_structured_content self extract_text identify subject pdf_path w
    = (Ok b, w') ->
  total_concepts (stats b) = length (concepts b) /\
  total_mcqs (stats b) = length (mcq_questions b) /\
  total_subjective (stats b) = length (subjective_questions b) /\
  main_topics (stats b) = length (identify (extract_text pdf_path)) /\
  total_subtopics (stats b)
  = sum_list (map (fun topic => length (subtopics topic))
                  (identify (extract_text pdf_path))).
Proof.
  unfold process_pdf_with_structured_content, bind, ret, lift, len_used_images.
  destruct (for_topics _ _ _ w) as [[acc|e] w1]; [|discriminate].
  destruct (used_images self) as [images|]; intros H; inversion H; subst.
  cbn. auto.
Qed.

(** C9, witness: a chapter with two subtopics and a topic without, the
    model giving no usable reply. *)
Lemma C9_stats_consistent_witness :
  exists b w',
    process_chapter rivers_and_lakes [] = (Ok b, w') /\
    total_concepts (stats b) = length (concepts b) /\
    total_mcqs (stats b) = length (mcq_questions b) /\
    total_subjective (stats b) = length (subjective_questions b) /\
    main_topics (stats b) = 2 /\
    total_subtopics (stats b) = 2.
Proof.
  eexists _, _. split; [vm_compute; reflexivity|].
  eapply (C9_stats_consistent with_settings (fun _ => "chapter text")
            (fun _ => rivers_and_lakes)
            chapter_info "chapter.pdf" {| replies := []; trail := [] |}).
  vm_compute. reflexivity.
Defined.

End ProcessorClaims.

(** ** Claims about the pipeline *)

Module ParallelClaims.
Import Py Parallel ParallelFacts ParallelProofs.
Local Open Scope list_scope.

(** C4: with at least one worker, a run returns normally whatever jobs
    fail; every document found is taken to its end and reported, exactly
    once; [processed_pdfs] ends up holding the entries of the jobs that
    succeeded, in the order they finished, and nothing for a job that
    failed, whose failure is printed. *)
Theorem C4_failures_isolated (env : environment) (max_workers : nat)
    (choices : list nat) (disk : gmap string file_content) :
  max_workers <> 0 -> failures_isolated env max_workers choices disk.
Proof.
  intros Hmw. unfold failures_isolated. cbv zeta.
  destruct (get_pdf_files env) as [|first rest] eqn:Hglob.
  - rewrite (run_no_pdfs env max_workers choices disk Hglob).
    unfold schedule. rewrite Hglob. cbn.
    split; [reflexivity|]. split; [reflexivity|]. split; [reflexivity|].
    intros p Hin. inversion Hin.
  - assert (Hne : get_pdf_files env <> []) by (rewrite Hglob; discriminate).
    destruct (run_outcome env max_workers choices disk Hne Hmw)
      as (events & Hok & Hp & Hh & _ & Hr & _).
    rewrite <- Hglob.
    split; [exact Hok|]. split; [apply schedule_perm, Hmw|]. split; [exact Hp|].
    intros p Hin. rewrite Hh. destruct (Hr p Hin) as [Hrep Hfail].
    split.
    + right. right. apply in_app_iff. right. apply in_app_iff. left. exact Hrep.
    + intros Hnone. right. right. apply in_app_iff. right. apply in_app_iff. left.
      auto.
Qed.

(** C4, witness: three documents, the second of which cannot be processed;
    two workers; the second job finishes first, then the third, then the
    first. *)
Lemma C4_failures_isolated_witness :
  2 <> 0 /\
  failures_isolated three_pdfs 2 [1; 1; 0] ∅ /\
  map original_pdf (processed_pdfs (snd (run three_pdfs 2 [1; 1; 0] ∅)))
  = ["c.pdf"; "a.pdf"].
Proof.
  split; [discriminate|]. split.
  - apply (C4_failures_isolated three_pdfs 2 [1; 1; 0] ∅). discriminate.
  - vm_compute. reflexivity.
Defined.

(** C5: a run started on a fresh system deploys once, as its last action,
    when it processed at least one document, and not at all when it
    processed none; when no document is found it returns at once, with
    nothing processed, nothing written and no deployment. *)
Theorem C5_publishes_once_if_any (env : environment) (max_workers : nat)
    (choices : list nat) (disk : gmap string file_content) :
  let out := run env max_workers choices disk in
  deployments (history (snd out))
    = match processed_pdfs (snd out) with [] => 0 | _ :: _ => 1 end /\
  (processed_pdfs (snd out) <> [] -> last (history (snd out)) = Some Deployed) /\
  (get_pdf_files env = [] ->
   out = (Ok tt, {| processed_pdfs := []; files := disk;
                    history := [MadeDirs pdfs_dir; NoPdfFiles] |})).
Proof.
  cbv zeta. destruct (decide (get_pdf_files env = [])) as [Hnone|Hsome].
  { rewrite (run_no_pdfs env max_workers choices disk Hnone). cbn.
    split; [reflexivity|]. split; [contradiction|reflexivity]. }
  destruct (decide (max_workers = 0)) as [->|Hmw].
  { rewrite (run_no_workers env choices disk Hsome). cbn.
    split; [reflexivity|]. split; contradiction. }
  destruct (run_outcome env max_workers choices disk Hsome Hmw)
    as (events & _ & _ & Hh & Hd & _).
  rewrite Hh. split; [|split; [|contradiction]].
  - change (?a :: ?b :: ?l) with ([a; b] ++ l).
    rewrite !deployments_app, deployments_submitted, Hd.
    destruct (processed_pdfs _); reflexivity.
  - intros Hany. destruct (processed_pdfs _); [contradiction|].
    change (?a :: ?b :: ?l) with ([a; b] ++ l). rewrite !app_assoc.
    apply last_snoc.
Qed.

(** C5, witness: a run that finds no document, and the run of the three
    documents above, which processes two of them and deploys once, at the
    end. *)
Lemma C5_publishes_once_if_any_witness :
  let none := run no_pdfs 3 [] ∅ in
  let three := run three_pdfs 2 [1; 1; 0] ∅ in
  get_pdf_files no_pdfs = [] /\
  none = (Ok tt, {| processed_pdfs := []; files := ∅;
                    history := [MadeDirs pdfs_dir; NoPdfFiles] |}) /\
  processed_pdfs (snd three) <> [] /\
  deployments (history (snd three)) = 1 /\
  last (history (snd three)) = Some Deployed.
Proof.
  cbv zeta.
  destruct (C5_publishes_once_if_any no_pdfs 3 [] ∅) as (_ & _ & Hnone).
  destruct (C5_publishes_once_if_any three_pdfs 2 [1; 1; 0] ∅) as (Hcount & Hlast & _).
  assert (Hany : processed_pdfs (snd (run three_pdfs 2 [1; 1; 0] ∅)) <> [])
    by (vm_compute; discriminate).
  split; [reflexivity|]. split; [apply Hnone; reflexivity|]. split; [exact Hany|].
  split; [|exact (Hlast Hany)].
  rewrite Hcount. vm_compute. reflexivity.
Defined.

(** C6: when [glob] finds at least one document, each once, and there is
    at least one worker, [processed_pdfs] is no longer than the list of
    documents, and its entries are those of pairwise distinct documents among
    the ones found, in the order in which their jobs finished. *)
Theorem C6_results_from_distinct_inputs (env : environment) (max_workers : nat)
    (choices : list nat) (disk : gmap string file_content) :
  get_pdf_files env <> [] -> NoDup (get_pdf_files env) -> max_workers <> 0 ->
  results_from_distinct_inputs env max_workers choices disk.
Proof.
  intros Hsome Hnodup Hmw. unfold results_from_distinct_inputs. cbv zeta.
  destruct (run_outcome env max_workers choices disk Hsome Hmw) as (_ & _ & -> & _).
  pose proof (schedule_perm env max_workers choices Hmw) as Hperm.
  set (order := schedule env max_workers choices) in *.
  pose proof (omap_filter (job_info env) order) as Hdone.
  assert (Hsub : filter (fun p => is_Some (job_info env p)) order `sublist_of` order)
    by apply sublist_filter.
  split.
  - rewrite (Forall2_length _ _ _ Hdone), (sublist_length _ _ Hsub), Hperm. lia.
  - exists (filter (fun p => is_Some (job_info env p)) order).
    split; [exact Hsub|]. split; [|split; [|exact Hdone]].
    + apply NoDup_filter. rewrite Hperm. exact Hnodup.
    + intros p Hp. apply list_elem_of_filter in Hp as [_ Hp].
      rewrite <- Hperm. exact Hp.
Qed.

(** C6, witness: the run of the three documents above, whose entries come
    in the order the jobs finished, which is not the order of the inputs. *)
Lemma C6_results_from_distinct_inputs_witness :
  get_pdf_files three_pdfs <> [] /\
  NoDup (get_pdf_files three_pdfs) /\
  2 <> 0 /\
  results_from_distinct_inputs three_pdfs 2 [1; 1; 0] ∅ /\
  schedule three_pdfs 2 [1; 1; 0] = ["pdfs/b.pdf"; "pdfs/c.pdf"; "pdfs/a.pdf"] /\
  map original_pdf (processed_pdfs (snd (run three_pdfs 2 [1; 1; 0] ∅)))
  = ["c.pdf"; "a.pdf"].
Proof.
  assert (Hnodup : NoDup (get_pdf_files three_pdfs)).
  { apply (bool_decide_unpack _). vm_compute. exact I. }
  split; [discriminate|]. split; [exact Hnodup|]. split; [discriminate|]. split.
  - apply (C6_results_from_distinct_inputs three_pdfs 2 [1; 1; 0] ∅);
      [discriminate|exact Hnodup|discriminate].
  - split; vm_compute; reflexivity.
Defined.

(** C7: when at least one document is found, the first file a run writes
    is the placeholder index showing the number of documents and no
    completion, before any job is submitted; that page is what the index
    holds when the jobs start, and after any number of finished jobs, as at
    the end of the run, the index file holds a page. *)
Theorem C7_placeholder_index_first (env : environment) (max_workers : nat)
    (choices : list nat) (disk : gmap string file_content) :
  get_pdf_files env <> [] ->
  let total := length (get_pdf_files env) in
  let st := snd (run env max_workers choices disk) in
  let done := after_jobs env max_workers choices (init disk) total in
  (exists rest,
     history st = MadeDirs pdfs_dir :: Wrote index_file (InitialIndexPage total) :: rest) /\
  files (after_jobs env max_workers choices (init disk) 0) !! index_file
    = Some (InitialIndexPage total) /\
  processed_pdfs (after_jobs env max_workers choices (init disk) 0) = [] /\
  (forall k, is_Some (files (after_jobs env max_workers choices (init disk) k)
                        !! index_file)) /\
  (max_workers <> 0 ->
   st = match processed_pdfs done with
        | [] => done
        | _ :: _ => deploy_to_github_pages done
        end) /\
  is_Some (files st !! index_file).
Proof.
  intros Hsome total st done.
  destruct (dispatched_effect env (init disk)) as (Hp0 & Hf0 & Hh0).
  assert (Hk : forall k, is_Some (files (after_jobs env max_workers choices (init disk) k)
                                    !! index_file)).
  { intros k. unfold after_jobs.
    destruct (run_jobs_effect env (take k (schedule env max_workers choices))
                (dispatched env (init disk))) as (_ & _ & _ & _ & Hf & _).
    apply Hf. rewrite Hf0, lookup_insert_eq. eauto. }
  assert (H0 : after_jobs env max_workers choices (init disk) 0 = dispatched env (init disk))
    by reflexivity.
  rewrite H0, Hf0, Hp0, lookup_insert_eq.
  destruct (decide (max_workers = 0)) as [->|Hmw].
  - subst st. rewrite (run_no_workers env choices disk Hsome). cbn [snd history files].
    rewrite lookup_insert_eq. split; [eauto|]. split; [reflexivity|]. split; [reflexivity|].
    split; [exact Hk|]. split; [contradiction|eauto].
  - assert (Hst : st = match processed_pdfs done with
                       | [] => done
                       | _ :: _ => deploy_to_github_pages done
                       end).
    { subst st. unfold run.
      rewrite (process_all_pdfs_parallel_unfold env max_workers choices _ Hsome Hmw).
      reflexivity. }
    destruct (run_outcome env max_workers choices disk Hsome Hmw)
      as (events & _ & _ & Hh & _ & _ & Hindex & _).
    fold st in Hh, Hindex. rewrite Hh.
    split; [eauto|]. split; [reflexivity|]. split; [reflexivity|].
    split; [exact Hk|]. split; [intros _; exact Hst|exact Hindex].
Qed.

(** C7, witness: the run of the three documents above. *)
Lemma C7_placeholder_index_first_witness :
  get_pdf_files three_pdfs <> [] /\
  (exists rest,
     history (snd (run three_pdfs 2 [1; 1; 0] ∅))
     = MadeDirs pdfs_dir :: Wrote index_file (InitialIndexPage 3) :: rest) /\
  (forall k, is_Some (files (after_jobs three_pdfs 2 [1; 1; 0] (init ∅) k) !! index_file)).
Proof.
  split; [discriminate|].
  assert (Hne : get_pdf_files three_pdfs <> []) by discriminate.
  destruct (C7_placeholder_index_first three_pdfs 2 [1; 1; 0] ∅ Hne)
    as (Hfirst & _ & _ & Hk & _).
  split; [exact Hfirst|exact Hk].
Defined.

(** C10: [update_index_page] changes nothing while [processed_pdfs] is
    empty; and in a run with at least one worker in which every job fails,
    nothing is processed, the placeholder is the only file written and the
    index still holds it at the end. *)
Theorem C10_index_kept_while_nothing_processed :
  (forall st, processed_pdfs st = [] -> update_index_page st = st) /\
  (forall env max_workers choices disk,
     get_pdf_files env <> [] -> max_workers <> 0 ->
     (forall pdf_path, pdf_path ∈ get_pdf_files env -> job_info env pdf_path = None) ->
     let st := snd (run env max_workers choices disk) in
     let placeholder := InitialIndexPage (length (get_pdf_files env)) in
     processed_pdfs st = [] /\
     files st !! index_file = Some placeholder /\
     files st = <[index_file := placeholder]> disk /\
     writes (history st) = [(index_file, placeholder)]).
Proof.
  split.
  - intros st Hempty. unfold update_index_page. rewrite Hempty. reflexivity.
  - intros env max_workers choices disk Hsome Hmw Hfail st placeholder.
    destruct (run_outcome env max_workers choices disk Hsome Hmw)
      as (events & _ & Hp & Hh & _ & _ & _ & Hnone).
    fold st in Hp, Hh, Hnone. destruct (Hnone Hfail) as [Hfiles Hwrites].
    assert (Hempty : processed_pdfs st = []).
    { rewrite Hp. apply omap_all_none. intros p Hin. apply Hfail.
      rewrite <- (schedule_perm env max_workers choices Hmw). exact Hin. }
    split; [exact Hempty|]. split; [|split; [exact Hfiles|]].
    + rewrite Hfiles. apply lookup_insert_eq.
    + rewrite Hh, Hempty, app_nil_r.
      change (?a :: ?b :: ?l) with ([a; b] ++ l).
      rewrite !writes_app, writes_submitted, Hwrites. reflexivity.
Qed.

(** C10, witness: two documents the renderer fails on. *)
Lemma C10_index_kept_while_nothing_processed_witness :
  let st := snd (run two_unrenderable_pdfs 3 [] ∅) in
  update_index_page (init ∅) = init ∅ /\
  processed_pdfs st = [] /\
  files st !! index_file = Some (InitialIndexPage 2) /\
  writes (history st) = [(index_file, InitialIndexPage 2)].
Proof.
  destruct C10_index_kept_while_nothing_processed as [Hupdate Hrun].
  split; [apply Hupdate; reflexivity|].
  destruct (Hrun two_unrenderable_pdfs 3 [] ∅) as (Hp & Hf & _ & Hw).
  - discriminate.
  - discriminate.
  - intros p Hin. 
    apply list_elem_of_In in Hin. cbn in Hin.
    destruct Hin as [<-|[<-|[]]]; vm_compute; reflexivity.
  - auto.
Defined.

(** C8: the counts follow the replies where a reply holds items that are
    not dicts.  The same document, outline and renderer in two runs; the
    model gives no reply in the one and, in the other, answers the request
    for MCQs with two questions as bare strings.  Numbering them raises, the
    handler of the generator returns no MCQ for the topic, without
    backfill, and the entries of the two runs count three MCQs and none. *)
Theorem C8_counts_follow_replies :
  counts_of (snd (run (one_pdf []) 3 [] ∅)) = [(1, 3, 3)] /\
  counts_of (snd (run (one_pdf [None; questions_as_strings]) 3 [] ∅)) = [(1, 0, 3)] /\
  counts_of (snd (run (one_pdf []) 3 [] ∅))
  <> counts_of (snd (run (one_pdf [None; questions_as_strings]) 3 [] ∅)).
Proof.
  split; [vm_compute; reflexivity|]. split; [vm_compute; reflexivity|].
  vm_compute. discriminate.
Qed.

End ParallelClaims.

(** ** Further properties of the per-topic generation *)

Module GenerationProofs.
Import Py Processor Facts ProcessorProofs GenerationFacts.
Local Open Scope string_scope.
Local Open Scope py_scope.
Local Open Scope list_scope.

Lemma to_uint_not_nil n : Nat.to_uint n <> Decimal.Nil.
Proof.
  intros H. pose proof (Unsigned.of_to n) as Hof. rewrite H in Hof. cbn in Hof. subst n.
  discriminate H.
Qed.

Lemma str_of_nat_inj n n' : str_of_nat n = str_of_nat n' -> n = n'.
Proof.
  unfold str_of_nat. intros H. apply Unsigned.to_uint_inj.
  pose proof (NilZero.usu _ (to_uint_not_nil n)) as Hn.
  pose proof (NilZero.usu _ (to_uint_not_nil n')) as Hn'.
  rewrite H in Hn. rewrite Hn in Hn'. injection Hn' as ->. reflexivity.
Qed.

Lemma append_cons c s1 s2 : (String c s1 ++ s2)%string = String c (s1 ++ s2).
Proof. reflexivity. Qed.

Lemma lower_app s1 s2 : lower (s1 ++ s2)%string = (lower s1 ++ lower s2)%string.
Proof.
  induction s1 as [|c s1 IH]; [reflexivity|].
  rewrite append_cons. simpl. rewrite IH. reflexivity.
Qed.

Lemma lower_string_of_uint d :
  lower (NilEmpty.string_of_uint d) = NilEmpty.string_of_uint d.
Proof. induction d; simpl; [reflexivity|f_equal; exact IHd ..]. Qed.

Lemma lower_str_of_nat n : lower (str_of_nat n) = str_of_nat n.
Proof.
  unfold str_of_nat, NilZero.string_of_uint.
  destruct (Nat.to_uint n); try apply lower_string_of_uint. reflexivity.
Qed.

Lemma list_ascii_of_string_app s1 s2 :
  list_ascii_of_string (s1 ++ s2)%string
  = list_ascii_of_string s1 ++ list_ascii_of_string s2.
Proof.
  induction s1 as [|c s1 IH]; [reflexivity|].
  rewrite append_cons. simpl. rewrite IH. reflexivity.
Qed.

(** [strip] leaves alone a text that neither starts nor ends with
    whitespace. *)
Lemma strip_unchanged (first last : ascii) (middle : string) :
  is_space first = false -> is_space last = false ->
  strip (String first (middle ++ String last ""))
  = String first (middle ++ String last "").
Proof.
  intros Hfirst Hlast. unfold strip.
  set (s := String first (middle ++ String last "")).
  assert (Hl : list_ascii_of_string s
               = (first :: list_ascii_of_string middle) ++ [last]).
  { unfold s. simpl. f_equal. apply list_ascii_of_string_app. }
  assert (Hstrip : forall c l, is_space c = false -> lstrip_chars (c :: l) = c :: l).
  { intros c l Hc. simpl. rewrite Hc. reflexivity. }
  rewrite Hl. change ((first :: ?l) ++ [last]) with (first :: l ++ [last]) at 1.
  rewrite (Hstrip _ _ Hfirst).
  change (first :: ?l ++ [last]) with ((first :: l) ++ [last]).
  rewrite rev_app_distr. change (rev [last] ++ ?l) with (last :: l).
  rewrite (Hstrip _ _ Hlast).
  change (last :: rev ?l) with (rev [last] ++ rev l).
  rewrite <- rev_app_distr, rev_involutive, <- Hl.
  apply string_of_list_ascii_of_string.
Qed.

Lemma string_app_inv (p s1 s2 q : string) :
  (p ++ s1 ++ q)%string = (p ++ s2 ++ q)%string -> s1 = s2.
Proof.
  intros H. apply (f_equal list_ascii_of_string) in H.
  rewrite !list_ascii_of_string_app in H.
  apply app_inv_head, app_inv_tail in H.
  rewrite <- (string_of_list_ascii_of_string s1), <- (string_of_list_ascii_of_string s2), H.
  reflexivity.
Qed.

Lemma placeholder_text_inj k n n' :
  k <> Concepts -> placeholder_text k n = placeholder_text k n' -> n = n'.
Proof.
  intros Hk H. destruct k; [contradiction| |];
    apply string_app_inv in H; apply str_of_nat_inj, H.
Qed.

Lemma string_app_assoc (s1 s2 s3 : string) :
  ((s1 ++ s2) ++ s3)%string = (s1 ++ s2 ++ s3)%string.
Proof.
  induction s1 as [|c s1 IH]; [reflexivity|].
  rewrite !append_cons, IH. reflexivity.
Qed.

(** The question of a placeholder, normalised. *)
Lemma placeholder_question_normalised (head_first : ascii) (head_rest : string) (n : nat) :
  is_space (lower_ascii head_first) = false ->
  strip (lower (String head_first head_rest ++ str_of_nat n ++ "?"))
  = (lower (String head_first head_rest) ++ str_of_nat n ++ "?")%string.
Proof.
  intros Hfirst. rewrite !lower_app, lower_str_of_nat.
  change (lower "?") with (String "?" "").
  change (lower (String head_first head_rest))
    with (String (lower_ascii head_first) (lower head_rest)).
  rewrite append_cons, <- string_app_assoc.
  apply strip_unchanged; [exact Hfirst|reflexivity].
Qed.

Lemma question_text_numbered v q rest :
  question_text (PDict (("id", v) :: ("question", PStr q) :: rest)) = Ok (strip (lower q)).
Proof. reflexivity. Qed.

Lemma additional_mcqs_texts t c s :
  texts_of (_generate_additional_mcqs t c s)
           (map (fun i => placeholder_text Mcqs (s + i)) (seq 0 c)).
Proof.
  unfold texts_of, _generate_additional_mcqs.
  apply Forall2_fmap, Forall_Forall2_diag, Forall_forall. intros i _.
  rewrite question_text_numbered. f_equal.
  apply (placeholder_question_normalised "A" "dditional MCQ question "). reflexivity.
Qed.

Lemma additional_subjective_texts t c s :
  texts_of (_generate_additional_subjective t c s)
           (map (fun i => placeholder_text Subjective (s + i)) (seq 0 c)).
Proof.
  unfold texts_of, _generate_additional_subjective.
  apply Forall2_fmap, Forall_Forall2_diag, Forall_forall. intros i _.
  rewrite question_text_numbered. f_equal.
  apply (placeholder_question_normalised "A" "dditional subjective question "). reflexivity.
Qed.

(** No two placeholders share a question text. *)
Lemma placeholder_texts_distinct k s c :
  k <> Concepts -> NoDup (map (fun i => placeholder_text k (s + i)) (seq 0 c)).
Proof.
  intros Hk.
  assert (Hinj : Inj eq eq (fun i => placeholder_text k (s + i))).
  { intros i j H. apply (placeholder_text_inj k _ _ Hk) in H. lia. }
  apply (NoDup_fmap_2 _), NoDup_seq.
Qed.

Lemma api_calls_app tr1 tr2 : api_calls (tr1 ++ tr2) = api_calls tr1 ++ api_calls tr2.
Proof. apply omap_app. Qed.

Lemma asks_nothing_ret {A} (a : A) : asks_nothing (ret a).
Proof. intros w. split; reflexivity. Qed.

Lemma asks_nothing_lift {A} (r : result A) : asks_nothing (lift r).
Proof. intros w. split; reflexivity. Qed.

Lemma asks_nothing_backfill k count start_id : asks_nothing (emit (Backfill k count start_id)).
Proof. intros w. cbn. rewrite api_calls_app. cbn. rewrite app_nil_r. auto. Qed.

Lemma asks_nothing_warned k topic : asks_nothing (emit (Warned k topic)).
Proof. intros w. cbn. rewrite api_calls_app. cbn. rewrite app_nil_r. auto. Qed.

Lemma asks_nothing_bind {A B} (m : M A) (f : A -> M B) :
  asks_nothing m -> (forall a, asks_nothing (f a)) -> asks_nothing (bind m f).
Proof.
  intros Hm Hf w. unfold bind. specialize (Hm w).
  destruct (m w) as [[a|e] w1]; cbn in *; [|exact Hm].
  destruct (Hf a w1) as [Hr Hc]. rewrite Hr, Hc. exact Hm.
Qed.

Lemma asks_nothing_if {A} (b : bool) (m1 m2 : M A) :
  asks_nothing m1 -> asks_nothing m2 -> asks_nothing (if b then m1 else m2).
Proof. destruct b; auto. Qed.

Create HintDb quiet.

#[local] Hint Resolve asks_nothing_ret asks_nothing_lift asks_nothing_backfill
  asks_nothing_warned asks_nothing_bind asks_nothing_if : quiet.

(** A request followed by work that asks nothing, under a handler that asks
    nothing: one API call, one reply used, and no exception gets out. *)
Lemma one_call_then_quiet {A} k topic count (rest : response -> M A)
    (handler : pyexn -> M A) (fallback : A) w :
  (forall r, asks_nothing (rest r)) ->
  (forall e w0, fst (handler e w0) = Ok fallback) ->
  (forall e, asks_nothing (handler e)) ->
  let out := try_except (bind (_call_ai_api k topic count) rest) handler w in
  (exists a, fst out = Ok a) /\
  replies (snd out) = tail (replies w) /\
  api_calls (trail (snd out)) = api_calls (trail w) ++ [(k, topic, count)].
Proof.
  intros Hrest Hfallback Hhandler. cbv zeta. unfold try_except, bind, _call_ai_api.
  set (w1 := {| replies := tail (replies w); trail := trail w ++ [ApiCall k topic count] |}).
  assert (Hw1 : replies w1 = tail (replies w) /\
                api_calls (trail w1) = api_calls (trail w) ++ [(k, topic, count)]).
  { cbn. rewrite api_calls_app. auto. }
  destruct (Hrest (default None (head (replies w))) w1) as [Hr Hc].
  destruct (rest _ w1) as [[a|e] w2]; cbn in *.
  - split; [eauto|]. rewrite Hr, Hc. exact Hw1.
  - destruct (Hhandler e w2) as [Hr' Hc']. specialize (Hfallback e w2).
    destruct (handler e w2) as [r w3]; cbn in *. subst r.
    split; [eauto|]. rewrite Hr', Hc', Hr, Hc. exact Hw1.
Qed.

Lemma generate_questions_calls k parse additional topic text m s w :
  let out := generate_questions k parse additional topic text m s w in
  replies (snd out) = tail (replies w) /\
  api_calls (trail (snd out)) = api_calls (trail w) ++ [(k, topic, m)].
Proof.
  unfold generate_questions.
  refine (proj2 (one_call_then_quiet k topic m _ _ [] w _ _ _)).
  - intros r. auto 20 with quiet.
  - intros e w0. reflexivity.
  - intros e. auto with quiet.
Qed.

Lemma generate_concepts_calls topic text m w :
  let out := _generate_concepts_for_topic topic text m w in
  (exists v, fst out = Ok v) /\
  replies (snd out) = tail (replies w) /\
  api_calls (trail (snd out)) = api_calls (trail w) ++ [(Concepts, topic, m)].
Proof.
  unfold _generate_concepts_for_topic, _generate_text_only_concepts.
  apply (one_call_then_quiet Concepts topic m _ _ (PList []) w).
  - intros r. auto 20 with quiet.
  - intros e w0. reflexivity.
  - intros e. auto with quiet.
Qed.

Lemma length_list_ascii_of_string s :
  length (list_ascii_of_string s) = String.length s.
Proof. induction s as [|c s IH]; simpl; [reflexivity|]. rewrite IH. reflexivity. Qed.

Lemma py_iter_length o l : py_iter o = Ok l -> py_len o = Ok (length l).
Proof.
  destruct o; intros H; inversion H; subst; cbn; try reflexivity.
  - rewrite length_map, length_list_ascii_of_string. reflexivity.
  - rewrite length_map. reflexivity.
Qed.

Lemma substring_length_le n s : String.length (String.substring 0 n s) <= n.
Proof.
  revert s. induction n as [|n IH]; intros s; destruct s; cbn; try lia.
  specialize (IH s). lia.
Qed.

(** The concepts generated for a topic are at most as many as asked for. *)
Lemma generate_concepts_at_most topic text m w v l :
  fst (_generate_concepts_for_topic topic text m w) = Ok v ->
  py_iter v = Ok l -> length l <= m.
Proof.
  intros Hv Hl. revert Hv.
  unfold _generate_concepts_for_topic, _generate_text_only_concepts,
    try_except, bind, _call_ai_api, lift, emit, ret.
  set (concepts := _parse_concepts_response _).
  assert (Hcut : forall c, py_slice_to c m = Ok v -> length l <= m).
  { intros c Hc. apply py_iter_length in Hl.
    destruct c; inversion Hc; subst; cbn in Hl; injection Hl as Hlen.
    - pose proof (substring_length_le m s). lia.
    - rewrite length_take in Hlen. lia. }
  assert (Hnone : Ok (PList []) = Ok v -> length l <= m).
  { intros Hv. inversion Hv; subst. inversion Hl. cbn. lia. }
  destruct (py_len concepts) as [n|e]; [|exact Hnone].
  destruct (n <? m)%nat.
  - destruct (py_extend concepts _) as [c|e]; [|exact Hnone].
    destruct (py_slice_to c m) eqn:Hc; [|exact Hnone].
    intros Hv. inversion Hv; subst. eapply Hcut; eauto.
  - destruct (py_slice_to concepts m) eqn:Hc; [|exact Hnone].
    intros Hv. inversion Hv; subst. eapply Hcut; eauto.
Qed.

Lemma for_enumerate_labels label items : forall i items',
  for_enumerate (fun _ concept => py_setitem concept "topic" (PStr label)) i items
    = Ok items' ->
  length items' = length items /\
  Forall (fun c => py_getitem c "topic" = Ok (PStr label)) items'.
Proof.
  induction items as [|c rest IH]; intros i items' H; cbn in H.
  - inversion H. split; [reflexivity|constructor].
  - destruct c; cbn in H; try discriminate.
    destruct (for_enumerate _ (S i) rest) as [rest'|] eqn:Hrest; cbn in H; [|discriminate].
    inversion H; subst. destruct (IH _ _ Hrest) as [Hlen Hall]. split.
    + cbn. rewrite Hlen. reflexivity.
    + constructor; [|exact Hall]. cbn. rewrite dict_lookup_set_eq. reflexivity.
Qed.

(** What processing one leaf does when it returns. *)
Lemma generate_for_returns topic label text m acc w acc' w' :
  generate_for topic label text m acc w = (Ok acc', w') ->
  grown_by (topic, label, m) acc acc' /\
  replies w' = drop 3 (replies w) /\
  api_calls (trail w') = api_calls (trail w) ++ calls_for (topic, label, m).
Proof.
  unfold generate_for, bind at 1.
  pose proof (generate_concepts_calls topic text 1 w) as (_ & Hr1 & Hc1).
  pose proof (generate_concepts_at_most topic text 1 w) as Hone.
  destruct (_generate_concepts_for_topic topic text 1 w) as [[v|e] w1];
    cbn [fst snd] in *; [|discriminate].
  unfold lift at 1, bind at 1.
  destruct (py_for_enumerate _ v) as [v'|e] eqn:Hlab; [|discriminate].
  unfold lift at 1, bind at 1.
  destruct (py_iter v') as [cs|e] eqn:Hiter; [|discriminate].
  assert (Hcs : length cs <= 1 /\
                Forall (fun c => py_getitem c "topic" = Ok (PStr label)) cs).
  { unfold py_for_enumerate in Hlab.
    destruct (py_iter v) as [l|] eqn:Hv; cbn in Hlab; [|discriminate].
    destruct (for_enumerate _ 0 l) as [l'|] eqn:Hl'; cbn in Hlab; [|discriminate].
    destruct (for_enumerate_labels _ _ _ _ Hl') as [Hlen Hall].
    specialize (Hone v l eq_refl Hv).
    destruct v; inversion Hlab; subst; cbn in Hiter, Hv; inversion Hiter; subst.
    - inversion Hv; subst. destruct s; [split; [cbn; lia|constructor]|].
      cbn in Hl'. discriminate.
    - split; [lia|exact Hall].
    - inversion Hv; subst. destruct d as [|[? ?] ?]; [split; [cbn; lia|constructor]|].
      cbn in Hl'. discriminate. }
  unfold bind at 1, _generate_mcqs_for_topic.
  pose proof (generate_questions_calls Mcqs _parse_mcqs_response _generate_additional_mcqs
                topic text m (length (all_mcqs acc) + 1) w1) as (Hr2 & Hc2).
  destruct (generate_questions_outcome Mcqs _parse_mcqs_response _generate_additional_mcqs
              topic text m (length (all_mcqs acc) + 1) w1)
    as (ms & w2 & Hrun2 & Hms & _).
  rewrite Hrun2 in *. cbn [fst snd] in *.
  unfold bind at 1, _generate_subjective_for_topic.
  pose proof (generate_questions_calls Subjective _parse_subjective_response
                _generate_additional_subjective
                topic text m (length (all_subjective acc) + 1) w2) as (Hr3 & Hc3).
  destruct (generate_questions_outcome Subjective _parse_subjective_response
              _generate_additional_subjective
              topic text m (length (all_subjective acc) + 1) w2)
    as (ss & w3 & Hrun3 & Hss & _).
  rewrite Hrun3 in *. cbn [fst snd] in *.
  unfold ret. intros H. inversion H; subst. split; [|split].
  - exists cs, ms, ss. cbn. tauto.
  - rewrite Hr3, Hr2, Hr1. apply tail3_drop.
  - rewrite Hc3, Hc2, Hc1, <- !app_assoc. reflexivity.
Qed.

Lemma grown_along_nil acc : grown_along [] acc acc.
Proof. exists [], [], []. rewrite !app_nil_r. cbn. auto 10. Qed.

Lemma grown_along_app ls1 ls2 acc mid acc' :
  grown_along ls1 acc mid -> grown_along ls2 mid acc' -> grown_along (ls1 ++ ls2) acc acc'.
Proof.
  intros (cs1 & ms1 & ss1 & Hc1 & Hm1 & Hs1 & Hlc1 & Hlm1 & Hls1 & Hall1)
         (cs2 & ms2 & ss2 & Hc2 & Hm2 & Hs2 & Hlc2 & Hlm2 & Hls2 & Hall2).
  exists (cs1 ++ cs2), (ms1 ++ ms2), (ss1 ++ ss2).
  rewrite Hc2, Hm2, Hs2, Hc1, Hm1, Hs1, <- !app_assoc, !length_app, map_app,
    sum_list_with_app.
  split; [reflexivity|]. split; [reflexivity|]. split; [reflexivity|].
  split; [lia|]. split; [lia|]. split; [lia|].
  apply Forall_app. split; [eapply Forall_impl; [exact Hall1|]|eapply Forall_impl; [exact Hall2|]];
    intros c (leaf & Hin & Htopic); exists leaf; (split; [|exact Htopic]);
    apply elem_of_app; auto.
Qed.

Lemma grown_by_along leaf acc acc' : grown_by leaf acc acc' -> grown_along [leaf] acc acc'.
Proof.
  destruct leaf as [[topic label] m].
  intros (cs & ms & ss & Hc & Hm & Hs & Hlc & Hlm & Hls & Hall).
  exists cs, ms, ss. cbn. rewrite Nat.add_0_r.
  split; [exact Hc|]. split; [exact Hm|]. split; [exact Hs|].
  split; [exact Hlc|]. split; [exact Hlm|]. split; [exact Hls|].
  eapply Forall_impl; [exact Hall|]. intros c Hc'. exists (topic, label, m).
  split; [apply list_elem_of_here|exact Hc'].
Qed.

Lemma for_subtopics_returns main text subs : forall acc w acc' w',
  for_subtopics main text subs acc w = (Ok acc', w') ->
  let ls := map (fun sub => (sub, (main ++ " → " ++ sub)%string, 2)) subs in
  grown_along ls acc acc' /\
  replies w' = drop (3 * length ls) (replies w) /\
  api_calls (trail w') = api_calls (trail w) ++ flat_map calls_for ls.
Proof.
  induction subs as [|sub rest IH]; intros acc w acc' w' Hrun; cbn [for_subtopics] in Hrun.
  - inversion Hrun; subst. cbn. rewrite app_nil_r. split; [apply grown_along_nil|auto].
  - unfold bind at 1 in Hrun.
    destruct (generate_for sub _ text 2 acc w) as [[acc1|e] w1] eqn:Hone; [|discriminate].
    apply generate_for_returns in Hone as (Hg1 & Hr1 & Hc1).
    apply IH in Hrun as (Hg2 & Hr2 & Hc2). cbv zeta in *.
    cbn [map flat_map length]. split; [|split].
    + apply (grown_along_app [_] _ acc acc1 acc'); [apply grown_by_along, Hg1|exact Hg2].
    + rewrite Hr2, Hr1, drop_drop. f_equal. lia.
    + rewrite Hc2, Hc1, <- app_assoc. reflexivity.
Qed.

Lemma for_topics_returns text outline : forall acc w acc' w',
  for_topics text outline acc w = (Ok acc', w') ->
  grown_along (labelled_leaves outline) acc acc' /\
  replies w' = drop (3 * length (labelled_leaves outline)) (replies w) /\
  api_calls (trail w')
  = api_calls (trail w) ++ flat_map calls_for (labelled_leaves outline).
Proof.
  induction outline as [|topic rest IH]; intros acc w acc' w' Hrun; cbn [for_topics] in Hrun.
  - inversion Hrun; subst. cbn. rewrite app_nil_r. split; [apply grown_along_nil|auto].
  - unfold bind at 1 in Hrun. cbn [labelled_leaves flat_map]. fold (labelled_leaves rest).
    destruct (subtopics topic) as [|sub subs] eqn:Hsubs.
    + destruct (generate_for _ _ text 3 acc w) as [[acc1|e] w1] eqn:Hone; [|discriminate].
      apply generate_for_returns in Hone as (Hg1 & Hr1 & Hc1).
      apply IH in Hrun as (Hg2 & Hr2 & Hc2).
      split; [|split].
      * eapply grown_along_app; [apply grown_by_along, Hg1|exact Hg2].
      * rewrite Hr2, Hr1, drop_drop. f_equal. cbn [app length]. lia.
      * rewrite Hc2, Hc1, flat_map_app, <- app_assoc. cbn [flat_map app].
        rewrite app_nil_r. reflexivity.
    + destruct (for_subtopics _ text (sub :: subs) acc w) as [[acc1|e] w1] eqn:Hone;
        [|discriminate].
      apply for_subtopics_returns in Hone as (Hg1 & Hr1 & Hc1). cbv zeta in *.
      apply IH in Hrun as (Hg2 & Hr2 & Hc2).
      split; [|split].
      * eapply grown_along_app; [exact Hg1|exact Hg2].
      * rewrite Hr2, Hr1, drop_drop, length_app. f_equal. lia.
      * rewrite Hc2, Hc1, flat_map_app, <- app_assoc. reflexivity.
Qed.

Lemma leaves_of_labelled outline :
  leaves outline = map (fun leaf => (fst (fst leaf), snd leaf)) (labelled_leaves outline).
Proof.
  unfold leaves, labelled_leaves. induction outline as [|topic rest IH]; [reflexivity|].
  cbn [flat_map]. rewrite map_app, IH. f_equal.
  destruct (subtopics topic); [reflexivity|]. rewrite map_map. reflexivity.
Qed.

Lemma total_min_labelled outline :
  sum_list (map snd (labelled_leaves outline)) = total_min (leaves outline).
Proof. unfold total_min. rewrite leaves_of_labelled, map_map. reflexivity. Qed.

Lemma length_labelled outline : length (labelled_leaves outline) = length (leaves outline).
Proof. rewrite leaves_of_labelled, length_map. reflexivity. Qed.

(** What every returned bundle satisfies. *)
Lemma process_returns self extract identify subject pdf_path w b w' :
  process_pdf_with_structured_content self extract identify subject pdf_path w
  = (Ok b, w') ->
  let outline := identify (extract pdf_path) in
  grown_along (labelled_leaves outline)
    {| all_concepts := []; all_mcqs := []; all_subjective := [] |}
    {| all_concepts := concepts b; all_mcqs := mcq_questions b;
       all_subjective := subjective_questions b |} /\
  replies w' = drop (3 * length (leaves outline)) (replies w) /\
  api_calls (trail w') = api_calls (trail w) ++ flat_map calls_for (labelled_leaves outline).
Proof.
  unfold process_pdf_with_structured_content, bind, ret, lift, len_used_images.
  destruct (for_topics _ _ _ w) as [[acc|e] w1] eqn:Hrun; [|discriminate].
  destruct (used_images self) as [images|]; intros H; inversion H; subst.
  apply for_topics_returns in Hrun as (Hg & Hr & Hc). cbv zeta. cbn.
  rewrite <- length_labelled. destruct acc. auto.
Qed.

(** *** Duplicate removal *)

Lemma remove_duplicates_kept items : forall seen unique res,
  remove_duplicates items seen unique = Ok res ->
  exists kept,
    res = unique ++ kept /\
    kept `sublist_of` items /\
    (forall item key, item ∈ items -> question_text item = Ok key ->
       key ∈ seen \/ exists k, k ∈ kept /\ question_text k = Ok key) /\
    (match items with
     | first :: _ =>
         forall key, question_text first = Ok key -> key ∉ seen -> head kept = Some first
     | [] => True
     end).
Proof.
  induction items as [|item rest IH]; intros seen unique res Hrun; cbn in Hrun.
  - inversion Hrun; subst. exists []. rewrite app_nil_r.
    split; [reflexivity|]. split; [constructor|]. split; [|exact I].
    intros item key Hin. inversion Hin.
  - destruct (question_text item) as [q|e] eqn:Hq; cbn in Hrun; [|discriminate].
    destruct (decide (q ∈ seen)) as [Hseen|Hnew].
    + apply IH in Hrun as (kept & -> & Hsub & Hcover & _). exists kept.
      split; [reflexivity|]. split; [apply sublist_cons, Hsub|]. split.
      * intros it key Hin Hkey. apply elem_of_cons in Hin as [->|Hin].
        -- left. congruence.
        -- eauto.
      * intros key Hkey Hnot. congruence.
    + apply IH in Hrun as (kept & -> & Hsub & Hcover & _). exists (item :: kept).
      split; [rewrite <- app_assoc; reflexivity|]. split; [apply sublist_skip, Hsub|]. split.
      * intros it key Hin Hkey. apply elem_of_cons in Hin as [->|Hin].
        -- right. exists item. split; [left|exact Hkey].
        -- destruct (Hcover it key Hin Hkey) as [Hin'|(k & Hk & Hkq)].
           ++ apply elem_of_union in Hin' as [Hin'|Hin'].
              ** apply elem_of_singleton in Hin'. subst key. right. exists item.
                 split; [left|exact Hq].
              ** left. exact Hin'.
           ++ right. exists k. split; [right; exact Hk|exact Hkq].
      * intros. reflexivity.
Qed.

Lemma remove_duplicates_raises items : forall seen unique,
  (exists res, remove_duplicates items seen unique = Ok res) <->
  Forall (fun item => exists key, question_text item = Ok key) items.
Proof.
  induction items as [|item rest IH]; intros seen unique; cbn.
  - split; [constructor|eauto].
  - destruct (question_text item) as [q|e] eqn:Hq; cbn.
    + destruct (decide (q ∈ seen)); rewrite IH; split.
      all: try (intros H; constructor; [eauto|exact H]).
      all: intros H; inversion H; assumption.
    + split; [intros [res H]; discriminate|].
      intros H. inversion H as [|? ? [key Hkey] ?]. congruence.
Qed.

Lemma for_enumerate_set_id_texts s items : forall i items',
  for_enumerate (set_id s) i items = Ok items' ->
  Forall2 (fun item' item => question_text item' = question_text item) items' items.
Proof.
  induction items as [|item rest IH]; intros i items' H; cbn in H.
  - inversion H. constructor.
  - destruct (set_id s i item) as [item'|] eqn:Hset; cbn in H; [|discriminate].
    destruct (for_enumerate (set_id s) (S i) rest) as [rest'|] eqn:Hrest;
      cbn in H; [|discriminate].
    inversion H; subst. constructor; [|eapply IH, Hrest].
    eapply question_text_set_id, Hset.
Qed.

(** One item whose question cannot be read costs the topic all its items. *)
Lemma unreadable_item_discards k parse additional topic text m s w items :
  parse (next_reply w) = PList items ->
  Exists (fun item => forall key, question_text item <> Ok key) items ->
  exists w',
    generate_questions k parse additional topic text m s w = (Ok [], w') /\
    last (trail w') = Some (Warned k topic).
Proof.
  intros Hparse Hbad.
  unfold generate_questions, try_except, bind, _call_ai_api, lift, emit, ret.
  fold (next_reply w). rewrite Hparse. unfold py_for_enumerate. cbn [py_iter rbind].
  destruct (for_enumerate (set_id s) 0 items) as [items'|e] eqn:Hids; cbn [rbind].
  2:{ eexists. split; [reflexivity|]. cbn. apply last_snoc. }
  assert (Hbad' : forall more,
            exists e, remove_duplicates (items' ++ more) ∅ [] = Raise e).
  { intros more. destruct (remove_duplicates (items' ++ more) ∅ []) as [res|e] eqn:Hrun;
      [|eauto].
    exfalso. assert (Hall : Forall (fun item => exists key, question_text item = Ok key)
                               (items' ++ more))
      by (apply (remove_duplicates_raises _ ∅ []); eauto).
    apply Forall_app in Hall as [Hall _].
    apply for_enumerate_set_id_texts in Hids.
    apply Exists_exists in Hbad as (item & Hin & Hno).
    apply list_elem_of_lookup in Hin as [j Hj].
    destruct (Forall2_lookup_r _ _ _ _ _ Hids Hj) as (item' & Hj' & Hsame).
    eapply Forall_lookup_1 in Hall as [key Hkey]; [|exact Hj'].
    apply (Hno key). congruence. }
  cbn [py_len].
  destruct (length items' <? m)%nat.
  - cbn [py_extend py_iter rbind].
    destruct (Hbad' (additional text (m - length items') (s + length items'))) as [e He].
    rewrite He. eexists. split; [reflexivity|]. cbn. apply last_snoc.
  - cbn [py_iter rbind].
    destruct (Hbad' []) as [e He]. rewrite app_nil_r in He.
    rewrite He. eexists. split; [reflexivity|]. cbn. apply last_snoc.
Qed.

(** *** The model out of reach *)

Lemma unreachable_next w : unreachable (replies w) -> next_reply w = None.
Proof.
  unfold unreachable, next_reply. destruct (replies w) as [|r rs]; [reflexivity|].
  intros H. inversion H; subst. reflexivity.
Qed.

Lemma unreachable_tail rs : unreachable rs -> unreachable (tail rs).
Proof. intros H. destruct rs; [exact H|]. inversion H; assumption. Qed.

Lemma generate_questions_unreachable k parse additional topic text m s w :
  k <> Concepts ->
  parse None = PList [] ->
  (forall c, length (additional text c s) = c) ->
  (forall c, texts_of (additional text c s)
                      (map (fun i => placeholder_text k (s + i)) (seq 0 c))) ->
  next_reply w = None ->
  exists tr,
    generate_questions k parse additional topic text m s w
    = (Ok (additional text m s), {| replies := tail (replies w); trail := tr |}).
Proof.
  intros Hk Hparse Hlen Htexts Hnone.
  unfold generate_questions, try_except, bind, _call_ai_api, lift, emit, ret.
  fold (next_reply w). rewrite Hnone, Hparse. cbn [py_for_enumerate py_iter rbind
    for_enumerate py_len length].
  rewrite Nat.add_0_r, Nat.sub_0_r.
  destruct (0 <? m)%nat eqn:Hm.
  - cbn [py_extend py_iter rbind app].
    rewrite (remove_duplicates_keeps_all _ ∅ [] _ (Htexts m)
               (placeholder_texts_distinct k s m Hk)).
    + cbn [app rbind]. rewrite firstn_all2 by (rewrite Hlen; lia).
      eexists. reflexivity.
    + intros key _ Hin. inversion Hin.
  - apply Nat.ltb_ge in Hm. assert (m = 0) as -> by lia.
    pose proof (Hlen 0) as H0. apply nil_length_inv in H0. rewrite H0.
    cbn. eexists. reflexivity.
Qed.

Lemma generate_concepts_unreachable topic text w :
  next_reply w = None ->
  exists tr,
    _generate_concepts_for_topic topic text 1 w
    = (Ok (PList (_generate_additional_concepts text 1)),
       {| replies := tail (replies w); trail := tr |}).
Proof.
  intros Hnone.
  unfold _generate_concepts_for_topic, _generate_text_only_concepts,
    try_except, bind, _call_ai_api, lift, emit, ret.
  fold (next_reply w). rewrite Hnone. cbn. eexists. reflexivity.
Qed.

Lemma map_seq_from {A} (f : nat -> A) a b :
  map f (seq a b) = map (fun i => f (a + i)) (seq 0 b).
Proof.
  rewrite <- (Nat.add_0_r a) at 1. rewrite <- (fmap_add_seq a 0 b).
  symmetry. apply (list_fmap_compose (Nat.add a) f).
Qed.

Lemma additional_mcqs_app t a b s :
  _generate_additional_mcqs t a s ++ _generate_additional_mcqs t b (s + a)
  = _generate_additional_mcqs t (a + b) s.
Proof.
  unfold _generate_additional_mcqs. rewrite seq_app, map_app. f_equal.
  cbn [Nat.add]. rewrite (map_seq_from _ a b).
  apply map_ext. intros i. rewrite Nat.add_assoc. reflexivity.
Qed.

Lemma additional_subjective_app t a b s :
  _generate_additional_subjective t a s ++ _generate_additional_subjective t b (s + a)
  = _generate_additional_subjective t (a + b) s.
Proof.
  unfold _generate_additional_subjective. rewrite seq_app, map_app. f_equal.
  cbn [Nat.add]. rewrite (map_seq_from _ a b).
  apply map_ext. intros i. rewrite Nat.add_assoc. reflexivity.
Qed.

Lemma placeholders_added_nil text acc : placeholders_added text [] acc = acc.
Proof.
  destruct acc. unfold placeholders_added. cbn. rewrite !app_nil_r. reflexivity.
Qed.

Lemma placeholders_added_app text ls1 ls2 acc :
  placeholders_added text ls2 (placeholders_added text ls1 acc)
  = placeholders_added text (ls1 ++ ls2) acc.
Proof.
  unfold placeholders_added. cbn [all_concepts all_mcqs all_subjective].
  rewrite !map_app, !sum_list_with_app, !length_app, <- !app_assoc,
    additional_mcqs_length, additional_subjective_length.
  f_equal.
  - f_equal. rewrite <- additional_mcqs_app. f_equal. f_equal. lia.
  - f_equal. rewrite <- additional_subjective_app. f_equal. f_equal. lia.
Qed.

Lemma generate_for_unreachable topic label text m acc w :
  unreachable (replies w) ->
  exists w',
    generate_for topic label text m acc w
    = (Ok (placeholders_added text [(topic, label, m)] acc), w') /\
    unreachable (replies w').
Proof.
  intros Hdown. unfold generate_for, bind at 1.
  destruct (generate_concepts_unreachable topic text w (unreachable_next _ Hdown))
    as [tr1 ->].
  unfold bind at 1. unfold lift at 1. cbn [py_for_enumerate _generate_additional_concepts
    seq map for_enumerate py_setitem rbind py_iter].
  unfold bind at 1. unfold lift at 1. cbn [py_iter].
  unfold bind at 1.
  set (w1 := {| replies := tail (replies w); trail := _ |}).
  assert (Hdown1 : unreachable (replies w1)) by apply unreachable_tail, Hdown.
  destruct (generate_questions_unreachable Mcqs _parse_mcqs_response
              _generate_additional_mcqs topic text m (length (all_mcqs acc) + 1) w1)
    as [tr2 Hm]; [discriminate|reflexivity|intros; apply additional_mcqs_length
                 |intros; apply additional_mcqs_texts|apply unreachable_next, Hdown1|].
  unfold _generate_mcqs_for_topic. rewrite Hm. unfold bind at 1.
  set (w2 := {| replies := tail (replies w1); trail := _ |}).
  assert (Hdown2 : unreachable (replies w2)) by apply unreachable_tail, Hdown1.
  destruct (generate_questions_unreachable Subjective _parse_subjective_response
              _generate_additional_subjective topic text m
              (length (all_subjective acc) + 1) w2)
    as [tr3 Hs]; [discriminate|reflexivity|intros; apply additional_subjective_length
                 |intros; apply additional_subjective_texts|apply unreachable_next, Hdown2|].
  unfold _generate_subjective_for_topic. rewrite Hs. unfold ret.
  eexists. split.
  - unfold placeholders_added. cbn [map sum_list sum_list_with snd fst].
    rewrite Nat.add_0_r. reflexivity.
  - apply unreachable_tail, Hdown2.
Qed.

Lemma for_subtopics_unreachable main text subs : forall acc w,
  unreachable (replies w) ->
  exists w',
    for_subtopics main text subs acc w
    = (Ok (placeholders_added text
             (map (fun sub => (sub, (main ++ " → " ++ sub)%string, 2)) subs) acc), w') /\
    unreachable (replies w').
Proof.
  induction subs as [|sub rest IH]; intros acc w Hdown; cbn [for_subtopics map].
  - exists w. rewrite placeholders_added_nil. split; [reflexivity|exact Hdown].
  - unfold bind at 1.
    destruct (generate_for_unreachable sub (main ++ " → " ++ sub)%string text 2 acc w Hdown)
      as (w1 & -> & Hdown1).
    destruct (IH (placeholders_added text [(sub, (main ++ " → " ++ sub)%string, 2)] acc)
                 w1 Hdown1) as (w2 & -> & Hdown2).
    exists w2. rewrite placeholders_added_app. split; [reflexivity|exact Hdown2].
Qed.

Lemma for_topics_unreachable text outline : forall acc w,
  unreachable (replies w) ->
  exists w',
    for_topics text outline acc w
    = (Ok (placeholders_added text (labelled_leaves outline) acc), w') /\
    unreachable (replies w').
Proof.
  induction outline as [|topic rest IH]; intros acc w Hdown; cbn [for_topics].
  - exists w. cbn. rewrite placeholders_added_nil. split; [reflexivity|exact Hdown].
  - unfold bind at 1. cbn [labelled_leaves flat_map]. fold (labelled_leaves rest).
    destruct (subtopics topic) as [|sub subs] eqn:Hsubs.
    + destruct (generate_for_unreachable (main_topic topic) (main_topic topic) text 3
                  acc w Hdown) as (w1 & -> & Hdown1).
      destruct (IH (placeholders_added text
                      [(main_topic topic, main_topic topic, 3)] acc) w1 Hdown1)
        as (w2 & -> & Hdown2).
      exists w2. rewrite placeholders_added_app. split; [reflexivity|exact Hdown2].
    + destruct (for_subtopics_unreachable (main_topic topic) text (sub :: subs)
                  acc w Hdown) as (w1 & -> & Hdown1).
      destruct (IH (placeholders_added text
                      (map (fun s => (s, (main_topic topic ++ " → " ++ s)%string, 2))
                           (sub :: subs)) acc) w1 Hdown1)
        as (w2 & -> & Hdown2).
      exists w2. rewrite placeholders_added_app. split; [reflexivity|exact Hdown2].
Qed.

(** With the model out of reach, what a chapter is made of, for a
    processor that has its [used_images]. *)
Lemma process_unreachable self images extract identify subject pdf_path w :
  used_images self = Some images ->
  unreachable (replies w) ->
  let text := extract pdf_path in
  let outline := identify text in
  exists b w',
    process_pdf_with_structured_content self extract identify subject pdf_path w
    = (Ok b, w') /\
    concepts b
    = map (fun leaf => placeholder_concept (snd (fst leaf))) (labelled_leaves outline) /\
    mcq_questions b = _generate_additional_mcqs text (total_min (leaves outline)) 1 /\
    subjective_questions b
    = _generate_additional_subjective text (total_min (leaves outline)) 1 /\
    counts_fixed_by_outline outline b.
Proof.
  intros Himages Hdown. cbv zeta.
  unfold process_pdf_with_structured_content, bind, ret, lift, len_used_images.
  rewrite Himages.
  destruct (for_topics_unreachable (extract pdf_path) (identify (extract pdf_path))
              {| all_concepts := []; all_mcqs := []; all_subjective := [] |} w Hdown)
    as (w1 & -> & _).
  eexists _, _. split; [reflexivity|].
  unfold counts_fixed_by_outline, placeholders_added.
  cbn [concepts mcq_questions subjective_questions stats total_concepts total_mcqs
       total_subjective all_concepts all_mcqs all_subjective app length Nat.add].
  rewrite total_min_labelled, length_map, length_labelled, additional_mcqs_length,
    additional_subjective_length.
  auto 10.
Qed.

(** A processor left without [used_images] goes through the whole chapter
    and raises when it comes to count its images. *)
Lemma process_without_settings self extract identify subject pdf_path w :
  used_images self = None ->
  unreachable (replies w) ->
  exists w',
    process_pdf_with_structured_content self extract identify subject pdf_path w
    = (Raise AttributeError, w').
Proof.
  intros Himages Hdown.
  unfold process_pdf_with_structured_content, bind, ret, lift, len_used_images.
  rewrite Himages.
  destruct (for_topics_unreachable (extract pdf_path) (identify (extract pdf_path))
              {| all_concepts := []; all_mcqs := []; all_subjective := [] |} w Hdown)
    as (w1 & -> & _).
  eexists. reflexivity.
Qed.

(** Whatever the replies, such a processor returns no bundle. *)
Lemma process_needs_settings self extract identify subject pdf_path w :
  used_images self = None ->
  exists e,
    fst (process_pdf_with_structured_content self extract identify subject pdf_path w)
    = Raise e.
Proof.
  intros Himages.
  unfold process_pdf_with_structured_content, bind, ret, lift, len_used_images.
  rewrite Himages.
  destruct (for_topics _ _ _ w) as [[acc|e] w1]; eexists; reflexivity.
Qed.

(** The leaves of an outline without subtopics. *)
Lemma labelled_leaves_flat topics :
  labelled_leaves (map (fun topic => {| main_topic := topic; subtopics := [] |}) topics)
  = map (fun topic => (topic, topic, 3)) topics.
Proof. induction topics as [|t rest IH]; [reflexivity|]. cbn. f_equal. exact IH. Qed.

(** The same, field by field. *)
Lemma process_unreachable_bundle self images extract identify subject pdf_path w :
  used_images self = Some images ->
  unreachable (replies w) ->
  let text := extract pdf_path in
  let outline := identify text in
  exists w',
    process_pdf_with_structured_content self extract identify subject pdf_path w
    = (Ok {| subject_info := subject pdf_path;
             concepts :=
               map (fun leaf => placeholder_concept (snd (fst leaf))) (labelled_leaves outline);
             mcq_questions :=
               _generate_additional_mcqs text (total_min (leaves outline)) 1;
             subjective_questions :=
               _generate_additional_subjective text (total_min (leaves outline)) 1;
             stats :=
               {| total_concepts := length (leaves outline);
                  total_mcqs := total_min (leaves outline);
                  total_subjective := total_min (leaves outline);
                  main_topics := length outline;
                  total_subtopics :=
                    sum_list (map (fun topic => length (subtopics topic)) outline);
                  images_used := size images |} |}, w').
Proof.
  intros Himages Hdown. cbv zeta.
  unfold process_pdf_with_structured_content, bind, ret, lift, len_used_images.
  rewrite Himages.
  destruct (for_topics_unreachable (extract pdf_path) (identify (extract pdf_path))
              {| all_concepts := []; all_mcqs := []; all_subjective := [] |} w Hdown)
    as (w1 & -> & _).
  exists w1. unfold placeholders_added.
  cbn [all_concepts all_mcqs all_subjective app length Nat.add].
  rewrite total_min_labelled, length_map, length_labelled, additional_mcqs_length,
    additional_subjective_length.
  reflexivity.
Qed.

(** *** Duplicate removal, position by position *)

Lemma texts_of_exist items :
  Forall (fun item => exists key, question_text item = Ok key) items ->
  exists keys, texts_of items keys.
Proof.
  induction 1 as [|item rest [key Hkey] _ [keys IH]].
  - exists []. constructor.
  - exists (key :: keys). constructor; assumption.
Qed.

(** The items kept of [rest], which follows [pre] in the list, when the
    questions seen so far are those of [pre]. *)
Lemma remove_duplicates_positions rest :
  forall (pre : list pyval) (keys_pre keys_rest : list string) (seen : gset string)
         unique res,
  length keys_pre = length pre ->
  texts_of rest keys_rest ->
  seen = list_to_set keys_pre ->
  remove_duplicates rest seen unique = Ok res ->
  res = unique ++
        map snd (filter (fun p => first_occurrence (keys_pre ++ keys_rest) (fst p) = true)
                        (zip (seq (length pre) (length rest)) rest)).
Proof.
  induction rest as [|item rest IH]; intros pre keys_pre keys_rest seen unique res
    Hlen Htexts Hseen Hrun.
  - cbn in Hrun. inversion Hrun. cbn. rewrite app_nil_r. reflexivity.
  - apply Forall2_cons_inv_l in Htexts as (key & keys_rest' & Hkey & Htexts' & ->).
    cbn [remove_duplicates] in Hrun. rewrite Hkey in Hrun. cbn [rbind] in Hrun.
    assert (Hfirst : first_occurrence (keys_pre ++ key :: keys_rest') (length pre)
                     = bool_decide (key ∉ seen)).
    { unfold first_occurrence. rewrite <- Hlen.
      rewrite lookup_app_r, Nat.sub_diag by lia. cbn [lookup list_lookup].
      rewrite take_app_length. apply bool_decide_ext. subst seen.
      rewrite elem_of_list_to_set. reflexivity. }
    cbn [length seq zip zip_with]. rewrite filter_cons. cbn [fst].
    rewrite Hfirst.
    assert (Hnext : forall unique',
              remove_duplicates rest (list_to_set (keys_pre ++ [key])) unique' = Ok res ->
              res = unique' ++
                    map snd (filter (fun p => first_occurrence
                                                (keys_pre ++ key :: keys_rest') (fst p) = true)
                                    (zip (seq (S (length pre)) (length rest)) rest))).
    { intros unique' Hrun'.
      pose proof (IH (pre ++ [item]) (keys_pre ++ [key]) keys_rest'
                     (list_to_set (keys_pre ++ [key])) unique' res) as Hstep.
      rewrite !length_app, <- app_assoc in Hstep. cbn [length app] in Hstep.
      rewrite !Nat.add_1_r in Hstep. apply Hstep; [lia|exact Htexts'|reflexivity|exact Hrun']. }
    assert (Hset : list_to_set (keys_pre ++ [key]) = ({[key]} ∪ seen : gset string)).
    { subst seen. rewrite list_to_set_app_L. cbn [list_to_set foldr].
      rewrite union_empty_r_L. apply union_comm_L. }
    destruct (decide (key ∈ seen)) as [Hin|Hnew].
    + rewrite bool_decide_eq_false_2 by (intros Hno; exact (Hno Hin)).
      rewrite decide_False by (intros Hno; discriminate Hno).
      apply Hnext. rewrite Hset, (subseteq_union_1_L {[key]} seen); [exact Hrun|].
      apply singleton_subseteq_l, Hin.
    + rewrite bool_decide_eq_true_2 by exact Hnew.
      rewrite decide_True by reflexivity. cbn [map snd].
      rewrite cons_middle, app_assoc.
      apply Hnext. rewrite Hset. exact Hrun.
Qed.

End GenerationProofs.

(** ** What the generation guarantees besides *)

Module GenerationProperties.
Import Py Processor Facts ProcessorProofs GenerationFacts GenerationProofs.
Local Open Scope string_scope.
Local Open Scope py_scope.
Local Open Scope list_scope.

(** X1: duplicate removal keeps the first occurrence of every question
    text and nothing else.  For items whose questions are ASCII text, what
    the loop returns is the list of the items that stand where a normalised
    question text (lowered and stripped) occurs for the first time, in the
    order they have in the list it was given. *)
Theorem remove_duplicates_first_occurrences items unique :
  Forall (fun item => ascii_question item = true) items ->
  remove_duplicates items ∅ [] = Ok unique ->
  exists keys, texts_of items keys /\ unique = first_occurrences items keys.
Proof.
  intros _ Hrun.
  destruct (texts_of_exist items) as [keys Hkeys].
  { apply (remove_duplicates_raises items ∅ []). eauto. }
  exists keys. split; [exact Hkeys|].
  apply (remove_duplicates_positions items [] [] keys ∅ [] unique);
    [reflexivity|exact Hkeys|reflexivity|exact Hrun].
Qed.

(** X1, witness: four questions, the last a repetition of the second up to
    case and spaces. *)
Lemma remove_duplicates_first_occurrences_witness :
  let items := [question "What is a delta?"; question "What is a river?";
                question "What is a lake?"; question " what is a RIVER? "] in
  exists keys,
    texts_of items keys /\
    keys = ["what is a delta?"; "what is a river?"; "what is a lake?"; "what is a river?"] /\
    first_occurrences items keys
    = [question "What is a delta?"; question "What is a river?"; question "What is a lake?"].
Proof.
  cbv zeta.
  destruct (remove_duplicates_first_occurrences
              [question "What is a delta?"; question "What is a river?";
               question "What is a lake?"; question " what is a RIVER? "]
              [question "What is a delta?"; question "What is a river?";
               question "What is a lake?"])
    as (keys & Hkeys & Hfirst); [repeat constructor|vm_compute; reflexivity|].
  exists keys. split; [exact Hkeys|].
  assert (Heq : keys = ["what is a delta?"; "what is a river?"; "what is a lake?";
                        "what is a river?"]).
  { repeat (apply Forall2_cons_inv_l in Hkeys as (? & ? & Hk & Hkeys & ->);
            vm_compute in Hk; injection Hk as <-).
    apply Forall2_nil_inv_l in Hkeys as ->. reflexivity. }
  split; [exact Heq|]. rewrite <- Hfirst. reflexivity.
Defined.

(** X2: duplicate removal returns exactly when the question of every item
    can be read, that is, when every item is a dict with a string under
    [question]; any other item makes it raise, wherever it stands. *)
Theorem remove_duplicates_returns_iff_readable items :
  (exists unique, remove_duplicates items ∅ [] = Ok unique) <->
  Forall (fun item => exists q rest,
            item = PDict rest /\ dict_lookup "question" rest = Some (PStr q)) items.
Proof.
  rewrite remove_duplicates_raises. apply Forall_iff. intros item. split.
  - intros [key Hkey]. unfold question_text, py_getitem in Hkey.
    destruct item as [| | | |?|d]; try discriminate.
    destruct (dict_lookup "question" d) as [v|] eqn:Hq; [|discriminate].
    destruct v; try discriminate. eauto.
  - intros (q & rest & -> & Hq). unfold question_text, py_getitem. rewrite Hq.
    cbn. eauto.
Qed.

(** X3: one item whose question cannot be read costs a topic all its
    questions.  When the reply decodes to a list one of whose items has no
    readable question, the generator returns the empty list, placeholders
    included, and the last thing it does is to print the warning. *)
Theorem unreadable_item_empties_topic k parse additional topic text m s w items :
  parse (next_reply w) = PList items ->
  Exists (fun item => forall key, question_text item <> Ok key) items ->
  exists w',
    generate_questions k parse additional topic text m s w = (Ok [], w') /\
    last (trail w') = Some (Warned k topic).
Proof. apply unreadable_item_discards. Qed.

(** X3, witness: a reply with two well-formed MCQs followed by a bare
    string. *)
Lemma unreadable_item_empties_topic_witness :
  let reply := Some (PDict [("mcqs", PList [question "What is a river?";
                                            question "What is a delta?";
                                            PStr "What is a lake?"])]) in
  exists w',
    _generate_mcqs_for_topic "Rivers" "chapter text" 3 1
      {| replies := [reply]; trail := [] |} = (Ok [], w') /\
    last (trail w') = Some (Warned Mcqs "Rivers").
Proof.
  cbv zeta.
  apply (unreadable_item_empties_topic Mcqs _parse_mcqs_response _generate_additional_mcqs
           "Rivers" "chapter text" 3 1 _
           [question "What is a river?"; question "What is a delta?"; PStr "What is a lake?"]).
  - reflexivity.
  - do 2 apply Exists_cons_tl. apply Exists_cons_hd. intros key. discriminate.
Defined.

(** X4: the placeholders of backfill are well-formed whatever count and
    starting number they are asked for: there are [count] of them, numbered
    [start_id], [start_id + 1], ..., and no two of them share a normalised
    question text, for the MCQs and for the subjective questions alike. *)
Theorem placeholders_numbered_and_distinct text count start_id :
  let mcqs := _generate_additional_mcqs text count start_id in
  let subjective := _generate_additional_subjective text count start_id in
  length mcqs = count /\ length subjective = count /\
  ids_of mcqs = sequential_ids start_id count /\
  ids_of subjective = sequential_ids start_id count /\
  texts_of mcqs (map (fun i => placeholder_text Mcqs (start_id + i)) (seq 0 count)) /\
  texts_of subjective
           (map (fun i => placeholder_text Subjective (start_id + i)) (seq 0 count)) /\
  distinct_texts mcqs /\ distinct_texts subjective.
Proof.
  cbv zeta.
  split; [apply additional_mcqs_length|]. split; [apply additional_subjective_length|].
  split; [apply additional_mcqs_ids|]. split; [apply additional_subjective_ids|].
  split; [apply additional_mcqs_texts|]. split; [apply additional_subjective_texts|].
  split; eexists; (split; [first [apply additional_mcqs_texts
                                 |apply additional_subjective_texts]
                          |apply placeholder_texts_distinct; discriminate]).
Qed.

(** X5: each per-topic generator asks the model exactly once, whatever the
    reply and whether or not its handler runs: it consumes one reply and adds
    one request, for its own kind, topic and minimum, to those made. *)
Theorem generators_ask_once topic text m s w :
  let concepts := _generate_concepts_for_topic topic text m w in
  let mcqs := _generate_mcqs_for_topic topic text m s w in
  let subjective := _generate_subjective_for_topic topic text m s w in
  (exists v, fst concepts = Ok v) /\
  replies (snd concepts) = tail (replies w) /\
  api_calls (trail (snd concepts)) = api_calls (trail w) ++ [(Concepts, topic, m)] /\
  replies (snd mcqs) = tail (replies w) /\
  api_calls (trail (snd mcqs)) = api_calls (trail w) ++ [(Mcqs, topic, m)] /\
  replies (snd subjective) = tail (replies w) /\
  api_calls (trail (snd subjective)) = api_calls (trail w) ++ [(Subjective, topic, m)].
Proof.
  cbv zeta.
  pose proof (generate_concepts_calls topic text m w) as (Hc1 & Hc2 & Hc3).
  pose proof (generate_questions_calls Mcqs _parse_mcqs_response _generate_additional_mcqs
                topic text m s w) as (Hm1 & Hm2).
  pose proof (generate_questions_calls Subjective _parse_subjective_response
                _generate_additional_subjective topic text m s w) as (Hs1 & Hs2).
  auto 10.
Qed.

(** X6: with the model out of reach a chapter is made of placeholders
    alone, if the processor found its settings, and raises if it did not.
    When every call of the model fails, a processor that [__init__] gave
    its [used_images] returns a bundle that the outline fixes completely:
    every leaf gets the same concept, titled "Additional Concept 1" and
    labelled with the leaf, and the MCQs and the subjective questions are
    the placeholders numbered from 1 up to the sum of the leaves' minimums.
    A processor [__init__] left without settings, all of whose calls fail,
    generates the same and then raises [AttributeError] when it counts its
    images: it returns no bundle. *)
Theorem unreachable_model_gives_placeholders self extract identify subject pdf_path w :
  unreachable (replies w) ->
  let text := extract pdf_path in
  let outline := identify text in
  let run := process_pdf_with_structured_content self extract identify subject pdf_path w in
  match used_images self with
  | Some _ =>
      exists b w',
        run = (Ok b, w') /\
        concepts b
        = map (fun leaf => placeholder_concept (snd (fst leaf))) (labelled_leaves outline) /\
        mcq_questions b = _generate_additional_mcqs text (total_min (leaves outline)) 1 /\
        subjective_questions b
        = _generate_additional_subjective text (total_min (leaves outline)) 1 /\
        counts_fixed_by_outline outline b
  | None => exists w', run = (Raise AttributeError, w')
  end.
Proof.
  intros Hdown. cbv zeta. destruct (used_images self) as [images|] eqn:Himages.
  - apply (process_unreachable self images); assumption.
  - apply process_without_settings; assumption.
Qed.

(** X6, witness: a chapter with two subtopics and a topic without, every
    call of the model failing, with a processor that found its settings and
    with one that did not. *)
Lemma unreachable_model_gives_placeholders_witness :
  unreachable [None; None] /\
  (exists b w',
     process_chapter rivers_and_lakes [None; None] = (Ok b, w') /\
     concepts b = [placeholder_concept "Rivers → The Indus";
                   placeholder_concept "Rivers → The Ganga";
                   placeholder_concept "Lakes"] /\
     mcq_questions b = _generate_additional_mcqs "chapter text" 7 1 /\
     subjective_questions b = _generate_additional_subjective "chapter text" 7 1 /\
     counts_fixed_by_outline rivers_and_lakes b) /\
  (exists w',
     process_pdf_with_structured_content without_settings
       (fun _ => "chapter text") (fun _ => rivers_and_lakes) chapter_info "chapter.pdf"
       {| replies := [None; None]; trail := [] |} = (Raise AttributeError, w')).
Proof.
  assert (Hdown : unreachable [None; None]) by (repeat constructor).
  split; [exact Hdown|]. split.
  - exact (unreachable_model_gives_placeholders with_settings
             (fun _ => "chapter text") (fun _ => rivers_and_lakes) chapter_info "chapter.pdf"
             {| replies := [None; None]; trail := [] |} Hdown).
  - exact (unreachable_model_gives_placeholders without_settings
             (fun _ => "chapter text") (fun _ => rivers_and_lakes) chapter_info "chapter.pdf"
             {| replies := [None; None]; trail := [] |} Hdown).
Defined.

(** X7: a bundle never holds more than the outline asks for.  Whatever the
    model replies, a returned bundle has at most one concept per leaf and at
    most the minimum of MCQs and of subjective questions of each leaf: the
    minimums of the source are in fact upper bounds. *)
Theorem bundle_within_outline self extract identify subject pdf_path w b w' :
  process_pdf_with_structured_content self extract identify subject pdf_path w
  = (Ok b, w') ->
  let outline := identify (extract pdf_path) in
  total_concepts (stats b) <= length (leaves outline) /\
  total_mcqs (stats b) <= total_min (leaves outline) /\
  total_subjective (stats b) <= total_min (leaves outline).
Proof.
  intros Hrun. cbv zeta.
  pose proof (process_returns _ _ _ _ _ _ _ _ Hrun) as (Hg & _ & _).
  destruct Hg as (cs & ms & ss & Hc & Hm & Hs & Hlc & Hlm & Hls & _).
  cbn [all_concepts all_mcqs all_subjective app] in *. subst cs ms ss.
  rewrite total_min_labelled, length_labelled in *.
  revert Hrun. unfold process_pdf_with_structured_content, bind, ret, lift, len_used_images.
  destruct (for_topics _ _ _ w) as [[acc|e] w1]; [|discriminate].
  destruct (used_images self) as [images|]; intros H; inversion H; subst.
  cbn in *. auto.
Qed.

(** X7, witness: the model answering with four MCQs where three are asked
    for. *)
Lemma bundle_within_outline_witness :
  exists b w',
    process_chapter one_topic substantive_replies = (Ok b, w') /\
    total_concepts (stats b) <= 1 /\
    total_mcqs (stats b) <= 3 /\
    total_subjective (stats b) <= 3.
Proof.
  eexists _, _. split; [vm_compute; reflexivity|].
  eapply (bundle_within_outline with_settings (fun _ => "chapter text") (fun _ => one_topic)
            chapter_info "chapter.pdf" {| replies := substantive_replies; trail := [] |}).
  vm_compute. reflexivity.
Defined.

(** X8: every concept of a returned bundle carries the label of a leaf of
    the outline under [topic]: the name of a main topic without subtopics,
    or the name of a main topic, an arrow and the name of one of its
    subtopics. *)
Theorem concepts_labelled_by_leaf self extract identify subject pdf_path w b w' :
  process_pdf_with_structured_content self extract identify subject pdf_path w
  = (Ok b, w') ->
  Forall (fun c => exists leaf,
            leaf ∈ labelled_leaves (identify (extract pdf_path)) /\
            py_getitem c "topic" = Ok (PStr (snd (fst leaf))))
         (concepts b).
Proof.
  intros Hrun.
  pose proof (process_returns _ _ _ _ _ _ _ _ Hrun) as (Hg & _ & _).
  destruct Hg as (cs & ms & ss & Hc & _ & _ & _ & _ & _ & Hlab).
  cbn [all_concepts app] in Hc. subst cs. exact Hlab.
Qed.

(** X8, witness: a chapter with two subtopics and a topic without. *)
Lemma concepts_labelled_by_leaf_witness :
  exists b w',
    process_chapter rivers_and_lakes substantive_replies = (Ok b, w') /\
    Forall (fun c => exists leaf,
              leaf ∈ labelled_leaves rivers_and_lakes /\
              py_getitem c "topic" = Ok (PStr (snd (fst leaf))))
           (concepts b).
Proof.
  eexists _, _. split; [vm_compute; reflexivity|].
  eapply (concepts_labelled_by_leaf with_settings (fun _ => "chapter text") (fun _ => rivers_and_lakes)
            chapter_info "chapter.pdf" {| replies := substantive_replies; trail := [] |}).
  vm_compute. reflexivity.
Defined.

(** X9: the requests a run makes are fixed by the outline.  A run that
    returns a bundle has asked, leaf after leaf in document order, for one
    concept, then for the leaf's minimum of MCQs, then for its minimum of
    subjective questions, and nothing else: three replies are consumed per
    leaf, whatever they hold. *)
Theorem requests_fixed_by_outline self extract identify subject pdf_path w b w' :
  process_pdf_with_structured_content self extract identify subject pdf_path w
  = (Ok b, w') ->
  let outline := identify (extract pdf_path) in
  api_calls (trail w') = api_calls (trail w) ++ flat_map calls_for (labelled_leaves outline) /\
  replies w' = drop (3 * length (leaves outline)) (replies w).
Proof.
  intros Hrun. cbv zeta.
  pose proof (process_returns _ _ _ _ _ _ _ _ Hrun) as (_ & Hr & Hc). auto.
Qed.

(** X9, witness: a chapter with two subtopics and a topic without. *)
Lemma requests_fixed_by_outline_witness :
  exists b w',
    process_chapter rivers_and_lakes substantive_replies = (Ok b, w') /\
    api_calls (trail w')
    = [(Concepts, "The Indus", 1); (Mcqs, "The Indus", 2); (Subjective, "The Indus", 2);
       (Concepts, "The Ganga", 1); (Mcqs, "The Ganga", 2); (Subjective, "The Ganga", 2);
       (Concepts, "Lakes", 1); (Mcqs, "Lakes", 3); (Subjective, "Lakes", 3)] /\
    replies w' = [].
Proof.
  eexists _, _. split; [vm_compute; reflexivity|].
  eapply (requests_fixed_by_outline with_settings (fun _ => "chapter text") (fun _ => rivers_and_lakes)
            chapter_info "chapter.pdf" {| replies := substantive_replies; trail := [] |}).
  vm_compute. reflexivity.
Defined.

End GenerationProperties.

(** ** Properties of the page names *)

Module PathsProofs.
Import Py Paths.
Local Open Scope list_scope.

Lemma lstrip_chars_suffix l : exists dropped, l = dropped ++ lstrip_chars l.
Proof.
  induction l as [|c l [dropped IH]]; [exists []; reflexivity|].
  cbn. destruct (is_space c).
  - exists (c :: dropped). cbn. rewrite <- IH. reflexivity.
  - exists []. reflexivity.
Qed.

Lemma rstrip_chars_prefix l : exists dropped, l = rstrip_chars l ++ dropped.
Proof.
  unfold rstrip_chars. destruct (lstrip_chars_suffix (rev l)) as [dropped H].
  exists (rev dropped). rewrite <- rev_app_distr, <- H, rev_involutive. reflexivity.
Qed.

Lemma filter_kept l : Forall (fun c => kept_in_name c = true) (List.filter kept_in_name l).
Proof.
  apply List.Forall_forall. intros c Hin. apply List.filter_In in Hin. tauto.
Qed.

Lemma clean_name_kept name : Forall (fun c => kept_in_name c = true) (clean_name name).
Proof.
  unfold clean_name. pose proof (filter_kept name) as Hall.
  destruct (rstrip_chars_prefix (List.filter kept_in_name name)) as [dropped H].
  rewrite H in Hall. apply Forall_app in Hall. tauto.
Qed.

Lemma kept_not_sep c : kept_in_name c = true -> Ascii.eqb "/" c = false.
Proof.
  intros Hc. destruct (Ascii.eqb_spec "/" c) as [<-|]; [|reflexivity].
  vm_compute in Hc. discriminate.
Qed.

Lemma startswith_sep_kept name rest :
  Forall (fun c => kept_in_name c = true) name ->
  startswith ["/"%char] (name ++ "."%char :: rest) = false.
Proof.
  intros Hall. destruct name as [|c name]; [reflexivity|].
  inversion Hall; subst. cbn [app startswith]. rewrite kept_not_sep by assumption.
  reflexivity.
Qed.

Lemma startswith_sep_folder folder :
  Forall (fun c => kept_in_name c = true) folder -> startswith ["/"%char] folder = false.
Proof.
  intros Hall. destruct folder as [|c folder]; [reflexivity|].
  inversion Hall; subst. cbn [app startswith]. rewrite kept_not_sep by assumption.
  reflexivity.
Qed.

Lemma endswith_sep_kept before folder :
  folder <> [] -> Forall (fun c => kept_in_name c = true) folder ->
  endswith ["/"%char] (before ++ folder) = false.
Proof.
  intros Hne Hall. unfold endswith. rewrite rev_app_distr.
  destruct folder as [|c folder _] using rev_ind; [contradiction|].
  rewrite rev_app_distr. cbn [rev app startswith]. apply Forall_app in Hall as [_ Hc].
  inversion Hc; subst. rewrite kept_not_sep by assumption. reflexivity.
Qed.

Lemma join_plain a b :
  a <> [] -> startswith ["/"%char] b = false -> endswith ["/"%char] a = false ->
  join a b = a ++ "/"%char :: b.
Proof.
  intros Ha Hb Hend. unfold join. rewrite Hb, Hend, bool_decide_eq_false_2 by exact Ha.
  reflexivity.
Qed.

Lemma join_empty b : startswith ["/"%char] b = false -> join [] b = b.
Proof. intros Hb. unfold join. rewrite Hb. reflexivity. Qed.

Lemma join_after_sep a b :
  startswith ["/"%char] b = false -> endswith ["/"%char] a = true -> join a b = a ++ b.
Proof. intros Hb Hend. unfold join. rewrite Hb, Hend, orb_true_r. reflexivity. Qed.

(** The two paths [generate_html_page] derives, for any document. *)
Lemma page_paths_shape pdf_path :
  exists folder name,
    Forall (fun c => kept_in_name c = true) folder /\
    Forall (fun c => kept_in_name c = true) name /\
    let relative :=
      match folder with
      | [] => name ++ html_suffix
      | _ :: _ => folder ++ "/"%char :: name ++ html_suffix
      end in
    page_paths pdf_path = ("."%char :: "/"%char :: relative, relative).
Proof.
  unfold page_paths, split_once.
  set (base_name := fst (splitext (basename_chars pdf_path))).
  assert (Hfile : forall name, Forall (fun c => kept_in_name c = true) name ->
                    startswith ["/"%char] (name ++ html_suffix) = false)
    by (intros name Hname; apply startswith_sep_kept, Hname).
  destruct (find hyphen base_name) as [i|].
  - set (folder := clean_name (strip_chars (take i base_name))).
    set (name := clean_name (strip_chars (drop (i + length hyphen) base_name))).
    assert (Hfolder : Forall (fun c => kept_in_name c = true) folder)
      by apply clean_name_kept.
    assert (Hname : Forall (fun c => kept_in_name c = true) name) by apply clean_name_kept.
    exists folder, name. split; [exact Hfolder|]. split; [exact Hname|]. cbv zeta.
    clearbody folder name. destruct folder as [|c folder'].
    + rewrite (join_empty _ (Hfile name Hname)).
      rewrite (join_after_sep (join output_dir []) _ (Hfile name Hname)) by reflexivity.
      reflexivity.
    + assert (Hne : c :: folder' <> []) by discriminate.
      rewrite (join_plain output_dir (c :: folder'));
        [|discriminate|apply startswith_sep_folder, Hfolder|reflexivity].
      rewrite (join_plain (c :: folder') _ Hne (Hfile name Hname)
                 (endswith_sep_kept [] _ Hne Hfolder)).
      rewrite (join_plain (output_dir ++ "/"%char :: c :: folder') _);
        [|discriminate|exact (Hfile name Hname)
         |exact (endswith_sep_kept ["."%char; "/"%char] _ Hne Hfolder)].
      reflexivity.
  - set (name := clean_name base_name).
    assert (Hname : Forall (fun c => kept_in_name c = true) name) by apply clean_name_kept.
    exists [], name. split; [constructor|]. split; [exact Hname|]. cbv zeta.
    rewrite (join_plain output_dir _); [reflexivity|discriminate|exact (Hfile name Hname)
                                       |reflexivity].
Qed.

Lemma string_of_list_ascii_app l1 l2 :
  string_of_list_ascii (l1 ++ l2)
  = (string_of_list_ascii l1 ++ string_of_list_ascii l2)%string.
Proof. induction l1 as [|c l1 IH]; [reflexivity|]. cbn. rewrite IH. reflexivity. Qed.

End PathsProofs.

(** ** What the page names guarantee *)

Module PathsProperties.
Import Py Paths PathsProofs.
Local Open Scope list_scope.

(** X10: the link the index page gets names the page that was written.
    For every document, the path the page is written to is the working
    directory followed by the relative path that is returned and stored as
    the entry's [filename]. *)
Theorem page_is_where_the_index_links pdf_path :
  output_path pdf_path = ("./" ++ relative_filename pdf_path)%string /\
  file_named (output_path pdf_path) = relative_filename pdf_path.
Proof.
  unfold output_path, relative_filename.
  destruct (page_paths_shape (list_ascii_of_string pdf_path)) as (folder & name & _ & _ & H).
  cbv zeta in H. rewrite H. cbn [fst snd string_of_list_ascii]. split; reflexivity.
Qed.

(** X11: a page never leaves the working directory.  For a document
    whose name is ASCII, the relative path of its page is a file name, or a
    folder and a file name, made of letters, digits, spaces, hyphens and
    underscores and ending in [.html]: it is never absolute, never climbs
    with [..] and is never more than one folder deep. *)
Theorem page_stays_in_working_directory pdf_path :
  isascii pdf_path = true ->
  exists folder name,
    Forall (fun c => kept_in_name c = true) folder /\
    Forall (fun c => kept_in_name c = true) name /\
    relative_filename pdf_path
    = string_of_list_ascii
        (match folder with
         | [] => name ++ html_suffix
         | _ :: _ => folder ++ "/"%char :: name ++ html_suffix
         end).
Proof.
  intros _. unfold relative_filename.
  destruct (page_paths_shape (list_ascii_of_string pdf_path)) as (folder & name & Hf & Hn & H).
  cbv zeta in H. rewrite H. exists folder, name. auto.
Qed.

(** X11, witness: a name with a folder part and with characters that are
    dropped. *)
Lemma page_stays_in_working_directory_witness :
  relative_filename "pdfs/Class 9 - Rivers & Lakes (2).pdf"
  = "Class 9/Rivers  Lakes 2.html" /\
  exists folder name,
    Forall (fun c => kept_in_name c = true) folder /\
    Forall (fun c => kept_in_name c = true) name /\
    relative_filename "pdfs/Class 9 - Rivers & Lakes (2).pdf"
    = string_of_list_ascii
        (match folder with
         | [] => name ++ html_suffix
         | _ :: _ => folder ++ "/"%char :: name ++ html_suffix
         end).
Proof.
  split; [vm_compute; reflexivity|].
  apply (page_stays_in_working_directory "pdfs/Class 9 - Rivers & Lakes (2).pdf"). reflexivity.
Defined.

End PathsProperties.

(** ** Further properties of the pipeline *)

Module PipelineProofs.
Import Py Parallel ParallelFacts ParallelProofs PipelineFacts.
Local Open Scope string_scope.
Local Open Scope list_scope.

Lemma job_page_info env pdf_path :
  is_Some (job_page env pdf_path) <-> is_Some (job_info env pdf_path).
Proof.
  unfold job_page, job_info.
  destruct (process_pdf env pdf_path) as [content|e].
  2:{ split; intros [? ?]; discriminate. }
  destruct (generate_html_content env content).
  2:{ split; intros [? ?]; discriminate. }
  split; eauto.
Qed.

(** What finishing a job does, by cases on its outcome. *)
Lemma finish_job_cases env st pdf_path :
  (job_info env pdf_path = None /\ job_page env pdf_path = None /\
   finish_job env st pdf_path
   = {| processed_pdfs := processed_pdfs st;
        files := files st;
        history := history st ++ job_events env (processed_pdfs st) pdf_path |}) \/
  (exists info html,
     job_info env pdf_path = Some info /\ job_page env pdf_path = Some html /\
     finish_job env st pdf_path
     = {| processed_pdfs := processed_pdfs st ++ [info];
          files := <[index_file := IndexPage (processed_pdfs st ++ [info])]>
                     (<[output_path env pdf_path := HtmlPage html]> (files st));
          history := history st ++ job_events env (processed_pdfs st) pdf_path |}).
Proof.
  unfold finish_job, process_single_pdf, job_events, job_info, job_page, generate_html_page.
  destruct (process_pdf env pdf_path) as [content|e].
  2:{ left. unfold record. cbn. rewrite <- app_assoc. auto. }
  destruct (generate_html_content env content) as [html|e].
  2:{ left. unfold record. cbn. rewrite <- app_assoc. auto. }
  right. eexists _, _. split; [reflexivity|]. split; [reflexivity|].
  unfold update_index_page. cbn [append_processed processed_pdfs write_file].
  destruct (processed_pdfs st ++ _) as [|info infos] eqn:Happ.
  { apply app_eq_nil in Happ as [_ Happ]. discriminate. }
  rewrite <- Happ.
  unfold record, write_file, append_processed.
  cbn [processed_pdfs history files].
  rewrite <- !app_assoc. reflexivity.
Qed.

Lemma run_jobs_cons env pdf_path order st :
  run_jobs env (pdf_path :: order) st = run_jobs env order (finish_job env st pdf_path).
Proof. reflexivity. Qed.

Lemma finish_job_processed env st pdf_path :
  processed_pdfs (finish_job env st pdf_path)
  = processed_pdfs st ++ option_list (job_info env pdf_path).
Proof.
  destruct (finish_job_cases env st pdf_path) as [(Hi & _ & ->)|(info & html & Hi & _ & ->)];
    rewrite Hi; cbn; [rewrite app_nil_r|]; reflexivity.
Qed.

Lemma finish_job_history env st pdf_path :
  history (finish_job env st pdf_path)
  = history st ++ job_events env (processed_pdfs st) pdf_path.
Proof.
  destruct (finish_job_cases env st pdf_path) as [(_ & _ & ->)|(info & html & _ & _ & ->)];
    reflexivity.
Qed.

(** The history of a sequence of jobs. *)
Lemma run_jobs_history env order : forall st,
  history (run_jobs env order st)
  = history st ++ jobs_events env (processed_pdfs st) order.
Proof.
  induction order as [|pdf_path rest IH]; intros st.
  - cbn. rewrite app_nil_r. reflexivity.
  - rewrite run_jobs_cons, IH, finish_job_history, finish_job_processed, <- app_assoc.
    reflexivity.
Qed.

Lemma run_jobs_processed env order st :
  processed_pdfs (run_jobs env order st) = processed_pdfs st ++ omap (job_info env) order.
Proof. destruct (run_jobs_effect env order st) as (events & H & _). exact H. Qed.

(** *** The index page *)

Lemma finish_job_index env total st pdf_path :
  files st !! index_file = Some (index_shown total (processed_pdfs st)) ->
  files (finish_job env st pdf_path) !! index_file
  = Some (index_shown total (processed_pdfs (finish_job env st pdf_path))).
Proof.
  intros Hinv.
  destruct (finish_job_cases env st pdf_path) as [(_ & _ & ->)|(info & html & _ & _ & ->)];
    cbn [files processed_pdfs]; [exact Hinv|].
  rewrite lookup_insert, decide_True by reflexivity.
  destruct (processed_pdfs st ++ [info]) as [|i l] eqn:Happ; [|reflexivity].
  apply app_eq_nil in Happ as [_ Happ]. discriminate.
Qed.

Lemma run_jobs_index env total order : forall st,
  files st !! index_file = Some (index_shown total (processed_pdfs st)) ->
  files (run_jobs env order st) !! index_file
  = Some (index_shown total (processed_pdfs (run_jobs env order st))).
Proof.
  induction order as [|pdf_path rest IH]; intros st Hinv; [exact Hinv|].
  rewrite run_jobs_cons. apply IH, finish_job_index, Hinv.
Qed.

Lemma index_writes_app h1 h2 : index_writes (h1 ++ h2) = index_writes h1 ++ index_writes h2.
Proof. apply omap_app. Qed.

Lemma reports_app h1 h2 : reports (h1 ++ h2) = reports h1 ++ reports h2.
Proof. apply omap_app. Qed.

Lemma index_writes_submitted pdf_files : index_writes (map Submitted pdf_files) = [].
Proof. induction pdf_files; [reflexivity|assumption]. Qed.

Lemma reports_submitted pdf_files : reports (map Submitted pdf_files) = [].
Proof. induction pdf_files; [reflexivity|assumption]. Qed.

Lemma reports_jobs env order : forall done,
  reports (jobs_events env done order)
  = map (fun pdf_path => (pdf_path, bool_decide (is_Some (job_info env pdf_path)))) order.
Proof.
  induction order as [|pdf_path rest IH]; intros done; [reflexivity|].
  cbn [jobs_events map]. rewrite reports_app, IH. unfold job_events.
  pose proof (job_page_info env pdf_path) as Hpi.
  destruct (job_info env pdf_path) as [info|], (job_page env pdf_path) as [html|];
    try reflexivity.
  exfalso. destruct (proj2 Hpi) as [? ?]; [eauto|discriminate].
Qed.

Lemma index_pages_app h1 h2 : index_pages (h1 ++ h2) = index_pages h1 ++ index_pages h2.
Proof. apply omap_app. Qed.

Lemma index_pages_submitted pdf_files : index_pages (map Submitted pdf_files) = [].
Proof. induction pdf_files; [reflexivity|assumption]. Qed.

Lemma index_pages_jobs env order : forall done,
  index_pages (jobs_events env done order)
  = map (fun k => (index_file, IndexPage (done ++ take k (omap (job_info env) order))))
        (seq 1 (length (omap (job_info env) order))).
Proof.
  induction order as [|pdf_path rest IH]; intros done; [reflexivity|].
  cbn [jobs_events]. rewrite index_pages_app, IH. unfold job_events.
  pose proof (job_page_info env pdf_path) as Hpi.
  cbn [omap list_omap].
  destruct (job_info env pdf_path) as [info|], (job_page env pdf_path) as [html|];
    cbn [option_list].
  - cbn [length seq map]. cbn -[take seq]. f_equal.
    rewrite <- (seq_shift _ 1), map_map. apply map_ext. intros k.
    cbn [take]. rewrite <- app_assoc. reflexivity.
  - exfalso. destruct (proj2 Hpi) as [? ?]; [eauto|discriminate].
  - rewrite app_nil_r. reflexivity.
  - rewrite app_nil_r. reflexivity.
Qed.

(** *** The pages *)

Lemma writers_cons env path pdf_path order :
  writers env path (pdf_path :: order)
  = if decide (output_path env pdf_path = path /\ is_Some (job_page env pdf_path))
    then pdf_path :: writers env path order
    else writers env path order.
Proof. unfold writers. rewrite filter_cons. reflexivity. Qed.

Lemma run_jobs_files env path order : path <> index_file -> forall st,
  files (run_jobs env order st) !! path
  = match last (writers env path order) with
    | Some pdf_path => HtmlPage <$> job_page env pdf_path
    | None => files st !! path
    end.
Proof.
  intros Hpath. induction order as [|pdf_path rest IH]; intros st; [reflexivity|].
  rewrite run_jobs_cons, IH, writers_cons.
  destruct (finish_job_cases env st pdf_path)
    as [(_ & Hpage & ->)|(info & html & _ & Hpage & ->)]; cbn [files]; rewrite Hpage.
  - rewrite decide_False by (intros [_ [? ?]]; discriminate). reflexivity.
  - rewrite lookup_insert, decide_False by congruence. rewrite lookup_insert.
    destruct (decide (output_path env pdf_path = path)) as [Hout|Hout].
    + rewrite decide_True by eauto. rewrite last_cons.
      destruct (last (writers env path rest)); [reflexivity|]. rewrite Hpage. reflexivity.
    + rewrite decide_False by tauto. reflexivity.
Qed.

(** *** The pool *)

Lemma completion_order_one_worker queue : forall fuel choices,
  length queue <= fuel -> completion_order fuel choices 1 queue [] = queue.
Proof.
  induction queue as [|job rest IH]; intros fuel choices Hfuel.
  - destruct fuel; reflexivity.
  - destruct fuel as [|fuel]; [cbn in Hfuel; lia|].
    cbn [completion_order refill Nat.sub length app]. rewrite Nat.mod_1_r.
    cbn. f_equal. apply IH. cbn in Hfuel. lia.
Qed.

Lemma refill_lengths free : forall queue running queue' running',
  refill free queue running = (queue', running') ->
  running' = running ++ take free queue /\ queue' = drop free queue.
Proof.
  induction free as [|free IH]; intros queue running queue' running' H.
  - cbn in H. inversion H; subst. rewrite take_0, drop_0, app_nil_r. auto.
  - destruct queue as [|job queue]; cbn in H.
    + inversion H; subst. rewrite app_nil_r. auto.
    + apply IH in H as (-> & ->). rewrite <- app_assoc. auto.
Qed.

(** The job that finishes in place [k] is one of those running at the
    start or among the first [max_workers - length running + k] waiting. *)
Lemma completion_order_window max_workers : forall fuel choices queue running k pdf_path,
  length running <= max_workers ->
  completion_order fuel choices max_workers queue running !! k = Some pdf_path ->
  pdf_path ∈ running ++ take (max_workers - length running + k) queue.
Proof.
  induction fuel as [|fuel IH]; intros choices queue running k pdf_path Hlen Hk;
    [discriminate|].
  cbn [completion_order] in Hk.
  destruct (refill (max_workers - length running) queue running)
    as [queue' running'] eqn:Hrefill.
  apply refill_lengths in Hrefill as (-> & ->).
  set (free := max_workers - length running) in *.
  assert (Hsub : forall p, p ∈ running ++ take free queue ->
                   p ∈ running ++ take (free + k) queue).
  { intros p Hp.
    apply elem_of_app in Hp as [Hp|Hp]; apply elem_of_app; [left; exact Hp|right].
    rewrite <- take_take_drop. apply elem_of_app. left. exact Hp. }
  assert (Hlen' : length (running ++ take free queue)
                  = length running + length (take free queue)) by apply length_app.
  rewrite length_take in Hlen'.
  destruct (running ++ take free queue) as [|first others] eqn:Hrunning; [discriminate|].
  assert (Hne : length (first :: others) <> 0) by discriminate.
  rewrite <- Hrunning in *.
  set (running' := running ++ take free queue) in *.
  set (i := default 0 (head choices) mod length running') in *.
  assert (Hi : i < length running') by apply Nat.mod_upper_bound, Hne.
  destruct (lookup_lt_is_Some_2 running' i Hi) as [job Hjob].
  rewrite Hjob in Hk. cbn [default] in Hk.
  destruct k as [|k]; cbn in Hk.
  - inversion Hk; subst. apply Hsub. eapply list_elem_of_lookup_2, Hjob.
  - apply IH in Hk.
    2:{ rewrite length_delete by eauto. subst free. lia. }
    rewrite length_delete in Hk by eauto.
    apply elem_of_app in Hk as [Hk|Hk].
    + apply Hsub. eapply elem_of_sublist; [exact Hk|apply sublist_delete].
    + apply elem_of_app. right.
      destruct (decide (free <= length queue)) as [Hle|Hgt].
      * rewrite <- take_take_drop. apply elem_of_app. right.
        replace (S k) with (max_workers - (length running' - 1) + k)
          by (subst free; lia).
        exact Hk.
      * rewrite drop_ge in Hk by lia. rewrite take_nil in Hk. inversion Hk.
Qed.

(** *** Whole runs *)

Lemma run_state env max_workers choices disk :
  get_pdf_files env <> [] -> max_workers <> 0 ->
  let done := run_jobs env (schedule env max_workers choices) (dispatched env (init disk)) in
  run env max_workers choices disk
  = (Ok tt, match processed_pdfs done with
            | [] => done
            | _ :: _ => deploy_to_github_pages done
            end).
Proof.
  intros Hfiles Hmw. unfold run.
  rewrite (process_all_pdfs_parallel_unfold env max_workers choices _ Hfiles Hmw).
  cbv zeta. unfold after_jobs.
  rewrite take_ge by (rewrite (schedule_perm env max_workers choices Hmw); lia).
  reflexivity.
Qed.

Lemma run_files env max_workers choices disk :
  get_pdf_files env <> [] -> max_workers <> 0 ->
  files (snd (run env max_workers choices disk))
  = files (run_jobs env (schedule env max_workers choices) (dispatched env (init disk))).
Proof.
  intros Hfiles Hmw. rewrite (run_state env max_workers choices disk Hfiles Hmw).
  cbv zeta. cbn [snd]. destruct (processed_pdfs _); reflexivity.
Qed.

Lemma run_processed env max_workers choices disk :
  get_pdf_files env <> [] -> max_workers <> 0 ->
  processed_pdfs (snd (run env max_workers choices disk))
  = omap (job_info env) (schedule env max_workers choices).
Proof.
  intros Hfiles Hmw. rewrite (run_state env max_workers choices disk Hfiles Hmw).
  cbv zeta. cbn [snd].
  assert (H : forall st, processed_pdfs (match processed_pdfs st with
                                         | [] => st
                                         | _ :: _ => deploy_to_github_pages st
                                         end) = processed_pdfs st)
    by (intros st; destruct (processed_pdfs st) eqn:E; exact E).
  rewrite H, run_jobs_processed.
  destruct (dispatched_effect env (init disk)) as (-> & _). reflexivity.
Qed.

Lemma run_history env max_workers choices disk :
  get_pdf_files env <> [] -> max_workers <> 0 ->
  history (snd (run env max_workers choices disk))
  = [MadeDirs pdfs_dir;
     Wrote index_file (InitialIndexPage (length (get_pdf_files env)))]
      ++ map Submitted (get_pdf_files env)
      ++ jobs_events env [] (schedule env max_workers choices)
      ++ match omap (job_info env) (schedule env max_workers choices) with
         | [] => []
         | _ :: _ => [Deployed]
         end.
Proof.
  intros Hfiles Hmw. rewrite (run_state env max_workers choices disk Hfiles Hmw).
  cbv zeta. cbn [snd].
  pose proof (run_jobs_processed env (schedule env max_workers choices)
                (dispatched env (init disk))) as Hp.
  pose proof (run_jobs_history env (schedule env max_workers choices)
                (dispatched env (init disk))) as Hh.
  destruct (dispatched_effect env (init disk)) as (Hp0 & _ & Hh0).
  rewrite Hp0 in Hp, Hh. rewrite Hh0 in Hh. cbn in Hp, Hh.
  rewrite Hp.
  destruct (omap (job_info env) (schedule env max_workers choices)) eqn:Hdone.
  - rewrite Hh, app_nil_r. reflexivity.
  - cbn [deploy_to_github_pages record history]. rewrite Hh. cbn.
    rewrite <- app_assoc. reflexivity.
Qed.

(** *** Who writes a page *)

Lemma schedule_one_worker env choices : schedule env 1 choices = get_pdf_files env.
Proof. unfold schedule. apply completion_order_one_worker. lia. Qed.

(** Jobs whose pages have pairwise distinct paths: at most one of them
    writes to a given path. *)
Lemma writers_alone env path order :
  NoDup (map (output_path env) order) -> length (writers env path order) <= 1.
Proof.
  induction order as [|pdf_path rest IH]; intros Hnd; [cbn; lia|].
  cbn [map] in Hnd. apply NoDup_cons in Hnd as [Hnew Hnd].
  rewrite writers_cons.
  destruct (decide (output_path env pdf_path = path /\ is_Some (job_page env pdf_path)))
    as [[Hout _]|_]; [|apply IH, Hnd].
  assert (Hnone : writers env path rest = []).
  { destruct (writers env path rest) as [|other others] eqn:Hw; [reflexivity|].
    exfalso. apply Hnew.
    assert (Hin : other ∈ writers env path rest) by (rewrite Hw; left).
    unfold writers in Hin. apply list_elem_of_filter in Hin as [[Hout' _] Hin].
    rewrite Hout, <- Hout'. apply list_elem_of_fmap. eauto. }
  rewrite Hnone. cbn. lia.
Qed.

Lemma writers_perm env path order order' :
  order ≡ₚ order' -> writers env path order ≡ₚ writers env path order'.
Proof. intros H. unfold writers. rewrite H. reflexivity. Qed.

Lemma short_perm_eq {A} (l l' : list A) : l ≡ₚ l' -> length l <= 1 -> l = l'.
Proof.
  intros Hperm Hlen. destruct l as [|a [|b l]]; cbn in Hlen; [| |lia].
  - apply Permutation_nil_l in Hperm. congruence.
  - apply Permutation_singleton_l in Hperm. congruence.
Qed.

End PipelineProofs.

(** ** What the pipeline guarantees besides *)

Module PipelineProperties.
Import Py Parallel ParallelFacts ParallelProofs PipelineFacts PipelineProofs.
Local Open Scope string_scope.
Local Open Scope list_scope.

(** X12: the index file always lists exactly what has been processed.
    In a run over at least one document, none of which has its page written
    to the index file, after any number of finished jobs and at the end of
    the run the index file holds the placeholder page as long as no document
    has been processed, and from then on the page with one card for each
    entry of [processed_pdfs], in their order.  (The index file is then
    written under the lock only, together with [processed_pdfs]; a document
    named [index.pdf] has its page written to the index file, outside the
    lock.) *)
Theorem index_lists_what_is_processed env max_workers choices disk :
  get_pdf_files env <> [] ->
  (forall pdf_path, pdf_path ∈ get_pdf_files env -> output_path env pdf_path <> index_file) ->
  let total := length (get_pdf_files env) in
  (forall k,
     let st := after_jobs env max_workers choices (init disk) k in
     files st !! index_file = Some (index_shown total (processed_pdfs st))) /\
  let st := snd (run env max_workers choices disk) in
  files st !! index_file = Some (index_shown total (processed_pdfs st)).
Proof.
  intros Hfiles _ total.
  assert (Hstart : files (dispatched env (init disk)) !! index_file
                   = Some (index_shown total (processed_pdfs (dispatched env (init disk))))).
  { destruct (dispatched_effect env (init disk)) as (-> & -> & _).
    rewrite lookup_insert, decide_True by reflexivity. reflexivity. }
  assert (Hjobs : forall order,
            let st := run_jobs env order (dispatched env (init disk)) in
            files st !! index_file = Some (index_shown total (processed_pdfs st)))
    by (intros order; apply run_jobs_index, Hstart).
  split; [intros k; apply Hjobs|].
  destruct (decide (max_workers = 0)) as [->|Hmw].
  - rewrite (run_no_workers env choices disk Hfiles). cbn.
    rewrite lookup_insert, decide_True by reflexivity. reflexivity.
  - cbv zeta. rewrite (run_state env max_workers choices disk Hfiles Hmw). cbv zeta.
    cbn [snd]. specialize (Hjobs (schedule env max_workers choices)). cbv zeta in Hjobs.
    destruct (processed_pdfs (run_jobs env _ _)) eqn:Hdone.
    + rewrite Hdone. exact Hjobs.
    + cbn [deploy_to_github_pages record files processed_pdfs]. rewrite Hdone. exact Hjobs.
Qed.

(** X12, witness: three documents, the second of which cannot be
    processed; two workers. *)
Lemma index_lists_what_is_processed_witness :
  (forall k,
     let st := after_jobs three_pdfs 2 [1; 1; 0] (init ∅) k in
     files st !! index_file = Some (index_shown 3 (processed_pdfs st))) /\
  let st := snd (run three_pdfs 2 [1; 1; 0] ∅) in
  files st !! index_file = Some (index_shown 3 (processed_pdfs st)).
Proof.
  apply (index_lists_what_is_processed three_pdfs 2 [1; 1; 0] ∅); [discriminate|].
  intros pdf_path Hin. apply list_elem_of_In in Hin. cbn in Hin.
  destruct Hin as [<-|[<-|[<-|[]]]]; discriminate.
Defined.

(** X13: the index page grows entry by entry.  In a run over at least one
    document with at least one worker, the index pages written are, in
    order and all to the index file: the placeholder page, and then one page
    for every document processed, the page written for the k-th of them
    showing the first k entries of the final result. *)
Theorem index_grows_entry_by_entry env max_workers choices disk :
  get_pdf_files env <> [] -> max_workers <> 0 ->
  let st := snd (run env max_workers choices disk) in
  index_pages (history st)
  = (index_file, InitialIndexPage (length (get_pdf_files env)))
      :: map (fun k => (index_file, IndexPage (take k (processed_pdfs st))))
             (seq 1 (length (processed_pdfs st))).
Proof.
  intros Hfiles Hmw. cbv zeta.
  rewrite (run_history env max_workers choices disk Hfiles Hmw),
    (run_processed env max_workers choices disk Hfiles Hmw).
  rewrite !index_pages_app, index_pages_submitted, index_pages_jobs. cbn [app].
  change (index_pages [MadeDirs pdfs_dir; Wrote index_file ?page])
    with [(index_file, page)].
  cbn [app]. f_equal.
  destruct (omap (job_info env) (schedule env max_workers choices));
    cbn -[take seq]; apply app_nil_r.
Qed.

(** X13, witness: the run of the three documents, two of which are
    processed. *)
Lemma index_grows_entry_by_entry_witness :
  let st := snd (run three_pdfs 2 [1; 1; 0] ∅) in
  length (processed_pdfs st) = 2 /\
  index_pages (history st)
  = [(index_file, InitialIndexPage 3);
     (index_file, IndexPage (take 1 (processed_pdfs st)));
     (index_file, IndexPage (take 2 (processed_pdfs st)))].
Proof.
  cbv zeta. split; [vm_compute; reflexivity|].
  rewrite (index_grows_entry_by_entry three_pdfs 2 [1; 1; 0] ∅) by discriminate.
  vm_compute. reflexivity.
Defined.

(** X14: every document is reported exactly once, with its outcome.  The
    loop over the finished jobs reports each of the documents found once, as
    processed or as failed according to whether its job produced an entry:
    the reports are the documents found, up to their order. *)
Theorem every_document_reported_once env max_workers choices disk :
  get_pdf_files env <> [] -> max_workers <> 0 ->
  reports (history (snd (run env max_workers choices disk)))
  ≡ₚ map (fun pdf_path => (pdf_path, bool_decide (is_Some (job_info env pdf_path))))
         (get_pdf_files env).
Proof.
  intros Hfiles Hmw.
  rewrite (run_history env max_workers choices disk Hfiles Hmw).
  rewrite !reports_app, reports_submitted, reports_jobs. cbn [app].
  change (reports [MadeDirs pdfs_dir; Wrote index_file ?page]) with (@nil (string * bool)).
  cbn [app].
  assert (Hrest : forall tail : list event, reports tail = [] ->
            map (fun pdf_path => (pdf_path, bool_decide (is_Some (job_info env pdf_path))))
                (schedule env max_workers choices) ++ reports tail
            ≡ₚ map (fun pdf_path => (pdf_path, bool_decide (is_Some (job_info env pdf_path))))
                   (get_pdf_files env)).
  { intros tail ->. rewrite app_nil_r. apply Permutation_map, schedule_perm, Hmw. }
  apply Hrest.
  destruct (omap (job_info env) (schedule env max_workers choices)); reflexivity.
Qed.

(** X14, witness: the run of the three documents, the second of which
    fails. *)
Lemma every_document_reported_once_witness :
  reports (history (snd (run three_pdfs 2 [1; 1; 0] ∅)))
  ≡ₚ [("pdfs/a.pdf", true); ("pdfs/b.pdf", false); ("pdfs/c.pdf", true)].
Proof.
  rewrite (every_document_reported_once three_pdfs 2 [1; 1; 0] ∅) by discriminate.
  vm_compute. reflexivity.
Defined.

(** X15: the page on disk is the one written last.  In a run with a
    single worker, or over documents no two of which have their pages at the
    same path, a path other than the index file holds at the end the page
    rendered for the last, in the order the documents were found, of the
    documents rendered whose page has that path; and what it held before
    the run when there is none.  With a single worker the jobs follow one
    another, and with distinct paths no two jobs write to one file: the
    pages, which are written outside the lock, are then written one at a
    time.  Documents whose pages have the same path overwrite one another,
    while each of them is listed. *)
Theorem page_on_disk_is_the_last_written env max_workers choices disk path :
  get_pdf_files env <> [] -> max_workers <> 0 -> path <> index_file ->
  max_workers = 1 \/ NoDup (map (output_path env) (get_pdf_files env)) ->
  files (snd (run env max_workers choices disk)) !! path
  = match last (writers env path (get_pdf_files env)) with
    | Some pdf_path => HtmlPage <$> job_page env pdf_path
    | None => disk !! path
    end.
Proof.
  intros Hfiles Hmw Hpath Halone.
  rewrite (run_files env max_workers choices disk Hfiles Hmw),
    (run_jobs_files env path _ Hpath).
  destruct (dispatched_effect env (init disk)) as (_ & -> & _).
  rewrite lookup_insert, decide_False by congruence.
  assert (Hw : writers env path (schedule env max_workers choices)
               = writers env path (get_pdf_files env)).
  { destruct Halone as [->|Hnd]; [rewrite schedule_one_worker; reflexivity|].
    pose proof (schedule_perm env max_workers choices Hmw) as Hperm.
    apply short_perm_eq; [apply writers_perm, Hperm|].
    apply writers_alone. rewrite Hperm. exact Hnd. }
  rewrite Hw. reflexivity.
Qed.

(** X15, witness: two documents whose names differ by a character that is
    dropped from the name of the page, with one worker: both are listed,
    with the same link, and the page is that of the one found last. *)
Lemma page_on_disk_is_the_last_written_witness :
  let st := snd (run rivers_twice 1 [] ∅) in
  map filename (processed_pdfs st)
  = ["Class 9/Rivers.html"; "Class 9/Lakes.html"; "Class 9/Rivers.html"] /\
  files st !! "Class 9/Rivers.html" = Some (HtmlPage "pdfs/Class 9 - Rivers!.pdf").
Proof.
  cbv zeta. split; [vm_compute; reflexivity|].
  rewrite (page_on_disk_is_the_last_written rivers_twice 1 [] ∅ "Class 9/Rivers.html");
    [vm_compute; reflexivity|discriminate|discriminate|discriminate|left; reflexivity].
Defined.

(** X16: with a single worker the documents are processed in the order
    they were found: the jobs finish in submission order whatever the
    runtime chooses, and the entries of the result follow the input. *)
Theorem one_worker_keeps_input_order env choices disk :
  schedule env 1 choices = get_pdf_files env /\
  processed_pdfs (snd (run env 1 choices disk)) = omap (job_info env) (get_pdf_files env).
Proof.
  assert (Hs : schedule env 1 choices = get_pdf_files env)
    by (unfold schedule; apply completion_order_one_worker; lia).
  split; [exact Hs|].
  destruct (get_pdf_files env) as [|pdf_path rest] eqn:Hfiles.
  - rewrite (run_no_pdfs env 1 choices disk Hfiles). reflexivity.
  - rewrite run_processed, Hs; [reflexivity|rewrite Hfiles; discriminate|discriminate].
Qed.

(** X17: a job cannot finish before it was started, and the pool starts
    the jobs in submission order, [max_workers] at a time: the job that
    finishes in place k (counted from 0) is one of the first
    [max_workers + k] documents submitted. *)
Theorem jobs_finish_within_pool_window env max_workers choices k pdf_path :
  schedule env max_workers choices !! k = Some pdf_path ->
  pdf_path ∈ take (max_workers + k) (get_pdf_files env).
Proof.
  intros Hk. unfold schedule in Hk.
  apply completion_order_window in Hk; [|cbn; lia].
  cbn [app length] in Hk. rewrite Nat.sub_0_r in Hk. exact Hk.
Qed.

(** X17, witness: three documents and two workers; the job that finishes
    first is one of the first two submitted. *)
Lemma jobs_finish_within_pool_window_witness :
  schedule three_pdfs 2 [1; 1; 0] !! 0 = Some "pdfs/b.pdf" /\
  "pdfs/b.pdf" ∈ take (2 + 0) (get_pdf_files three_pdfs).
Proof.
  split; [vm_compute; reflexivity|].
  apply (jobs_finish_within_pool_window three_pdfs 2 [1; 1; 0] 0 "pdfs/b.pdf").
  vm_compute. reflexivity.
Defined.

End PipelineProperties.

(** ** Properties of the text *)

Module TextProofs.
Import Py Paths PathsProofs Text TextFacts.
Local Open Scope list_scope.

(** *** Stripping *)

Lemma lstrip_chars_idem s : lstrip_chars (lstrip_chars s) = lstrip_chars s.
Proof.
  induction s as [|c s IH]; [reflexivity|]. cbn.
  destruct (is_space c) eqn:Hc; [exact IH|]. cbn. rewrite Hc. reflexivity.
Qed.

Lemma lstrip_chars_head s c rest :
  lstrip_chars s = c :: rest -> is_space c = false.
Proof.
  induction s as [|d s IH]; [discriminate|]. cbn.
  destruct (is_space d) eqn:Hd; [exact IH|]. intros H. inversion H; subst. exact Hd.
Qed.

Lemma lstrip_chars_id s :
  match s with c :: _ => is_space c = false | [] => True end -> lstrip_chars s = s.
Proof. destruct s as [|c s]; [reflexivity|]. cbn. intros ->. reflexivity. Qed.

Lemma rstrip_chars_snoc s c :
  rstrip_chars (s ++ [c]) = if is_space c then rstrip_chars s else s ++ [c].
Proof.
  unfold rstrip_chars. rewrite rev_app_distr. cbn.
  destruct (is_space c); [reflexivity|]. cbn. rewrite rev_involutive. reflexivity.
Qed.

Lemma rstrip_chars_nil : rstrip_chars [] = [].
Proof. reflexivity. Qed.

Lemma rstrip_chars_idem s : rstrip_chars (rstrip_chars s) = rstrip_chars s.
Proof.
  induction s as [|c s IH] using rev_ind; [reflexivity|].
  rewrite rstrip_chars_snoc. destruct (is_space c) eqn:Hc; [exact IH|].
  rewrite rstrip_chars_snoc, Hc. reflexivity.
Qed.

(** Stripping on the right keeps the first character of what is left. *)
Lemma rstrip_chars_head s :
  match rstrip_chars s with
  | c :: _ => head s = Some c
  | [] => True
  end.
Proof.
  destruct (rstrip_chars_prefix s) as [dropped H].
  destruct (rstrip_chars s) as [|c kept]; [exact I|]. rewrite H. reflexivity.
Qed.

Lemma strip_chars_idem s : strip_chars (strip_chars s) = strip_chars s.
Proof.
  unfold strip_chars.
  assert (Hl : lstrip_chars (rstrip_chars (lstrip_chars s)) = rstrip_chars (lstrip_chars s)).
  { apply lstrip_chars_id.
    pose proof (rstrip_chars_head (lstrip_chars s)) as Hhead.
    destruct (rstrip_chars (lstrip_chars s)) as [|c kept]; [exact I|].
    destruct (lstrip_chars s) as [|d rest] eqn:Hs; [discriminate|].
    cbn in Hhead. inversion Hhead; subst. eapply lstrip_chars_head, Hs. }
  rewrite Hl. apply rstrip_chars_idem.
Qed.

(** What stripping leaves is a segment of the text. *)
Lemma strip_chars_segment s : exists before after, s = before ++ strip_chars s ++ after.
Proof.
  unfold strip_chars.
  destruct (lstrip_chars_suffix s) as [before Hb].
  destruct (rstrip_chars_prefix (lstrip_chars s)) as [after Ha].
  exists before, after. rewrite <- Ha. exact Hb.
Qed.

Lemma strip_chars_Forall (P : ascii -> Prop) s : Forall P s -> Forall P (strip_chars s).
Proof.
  intros Hall. destruct (strip_chars_segment s) as (before & after & H).
  rewrite H in Hall. apply Forall_app in Hall as [_ Hall].
  apply Forall_app in Hall. tauto.
Qed.

(** *** [re.sub] *)

Lemma re_sub_skip match_at repl s : forall skip,
  re_sub match_at repl skip s = re_sub match_at repl 0 (drop skip s).
Proof.
  induction s as [|c s IH]; intros [|skip]; try reflexivity.
  cbn [re_sub drop]. apply IH.
Qed.

Lemma re_sub_length match_at repl :
  (forall s n, match_at s = Some n -> n <= length s /\ length (repl (take n s)) <= n) ->
  forall s skip, length (re_sub match_at repl skip s) <= length s - skip.
Proof.
  intros Hmatch. induction s as [|c s IH]; intros skip; [cbn; lia|].
  cbn [re_sub]. destruct skip as [|skip]; [|cbn; apply IH].
  destruct (match_at (c :: s)) as [[|n]|] eqn:Hm.
  - cbn. specialize (IH 0). lia.
  - destruct (Hmatch _ _ Hm) as [Hn Hr]. rewrite length_app.
    specialize (IH n). cbn [length] in *. lia.
  - cbn. specialize (IH 0). lia.
Qed.

Lemma every_other_length chars : length (every_other chars) <= length chars.
Proof.
  induction chars as [chars IH] using (induction_ltof1 _ (@length ascii)).
  unfold ltof in IH. destruct chars as [|x [|y rest]]; cbn; try lia.
  specialize (IH rest). cbn in IH. lia.
Qed.

Lemma pairs_length a b s : 2 * pairs a b s <= length s.
Proof.
  induction s as [s IH] using (induction_ltof1 _ (@length ascii)).
  unfold ltof in IH. destruct s as [|x [|y rest]]; cbn; try lia.
  destruct (Ascii.eqb x a && Ascii.eqb y b); [|lia].
  specialize (IH rest). cbn in IH. lia.
Qed.

Lemma repeats_length a s : repeats a s <= length s.
Proof. induction s as [|x s IH]; cbn; [lia|]. destruct (Ascii.eqb x a); lia. Qed.

Lemma pattern1_match s n :
  pattern1 s = Some n ->
  n <= length s /\ length (fix_alternating (take n s)) <= n.
Proof.
  unfold pattern1. destruct s as [|a [|b rest]]; try discriminate.
  destruct (isalpha a && isalpha b); [|discriminate].
  pose proof (pairs_length a b rest) as Hp.
  assert (Hopt : (if bool_decide (rest !! (2 * pairs a b rest) = Some a) then 1 else 0)
                 <= length rest - 2 * pairs a b rest).
  { case_bool_decide as Hl; [|lia]. apply lookup_lt_Some in Hl. lia. }
  set (opt := if bool_decide _ then 1 else 0) in *.
  set (k := 2 * pairs a b rest) in *.
  intros H. injection H as <-.
  split; [cbn [length]; lia|].
  unfold fix_alternating. destruct (4 <=? _)%nat.
  - etransitivity; [apply every_other_length|]. rewrite length_take. lia.
  - rewrite length_take. lia.
Qed.

Lemma pattern2_match s n :
  pattern2 s = Some n ->
  n <= length s /\ length (fix_simple_repetition (take n s)) <= n.
Proof.
  unfold pattern2. destruct s as [|a rest]; [discriminate|].
  destruct (isalpha a && (1 <=? repeats a rest)%nat); [|discriminate].
  intros H. inversion H; subst n. clear H. pose proof (repeats_length a rest) as Hr.
  split; [cbn [length]; lia|].
  unfold fix_simple_repetition. destruct (2 <? _)%nat.
  - etransitivity; [apply every_other_length|]. rewrite length_take. lia.
  - rewrite length_take. lia.
Qed.

Lemma behind_literal_length literal : forall s rest,
  behind_literal literal s = Some rest -> length s = length literal + length rest.
Proof.
  induction literal as [|l literal IH]; intros s rest H.
  - cbn in H. destruct s; inversion H; reflexivity.
  - destruct s as [|c s]; [discriminate|]. cbn in H.
    destruct (Ascii.eqb _ _); [|discriminate]. apply IH in H. cbn. lia.
Qed.

Lemma lstrip_chars_length s : length (lstrip_chars s) <= length s.
Proof.
  destruct (lstrip_chars_suffix s) as [dropped H].
  set (kept := lstrip_chars s) in *. clearbody kept. subst s.
  rewrite length_app. lia.
Qed.

Lemma behind_spaces_length s rest :
  behind_spaces s = Some rest -> 1 + length rest <= length s.
Proof.
  destruct s as [|c s]; [discriminate|]. cbn. destruct (is_space c); [|discriminate].
  intros H. inversion H. pose proof (lstrip_chars_length s). lia.
Qed.

Lemma pattern3_match s n :
  pattern3 s = Some n -> n <= length s /\ 18 <= n.
Proof.
  unfold pattern3.
  destruct (behind_literal (list_ascii_of_string "PPeeooppllee") s) as [s1|] eqn:H1;
    cbn [mbind option_bind]; [|discriminate].
  destruct (behind_spaces s1) as [s2|] eqn:H2; cbn [mbind option_bind]; [|discriminate].
  destruct (behind_literal (list_ascii_of_string "aass") s2) as [s3|] eqn:H3;
    cbn [mbind option_bind]; [|discriminate].
  destruct (behind_spaces s3) as [s4|] eqn:H4; cbn [mbind option_bind]; [|discriminate].
  destruct (behind_literal (list_ascii_of_string "RReessoouurrccee") s4) as [s5|] eqn:H5;
    [|discriminate].
  intros H. inversion H; subst n.
  apply behind_literal_length in H1, H3, H5. apply behind_spaces_length in H2, H4.
  cbn in H1, H3, H5. lia.
Qed.

Lemma fix_complex_duplication_length text :
  length (fix_complex_duplication text) <= length text.
Proof.
  unfold fix_complex_duplication. cbv zeta.
  pose proof (re_sub_length pattern1 fix_alternating pattern1_match text 0) as H1.
  set (text1 := re_sub pattern1 fix_alternating 0 text) in *.
  pose proof (re_sub_length pattern2 fix_simple_repetition pattern2_match text1 0) as H2.
  set (text2 := re_sub pattern2 fix_simple_repetition 0 text1) in *.
  assert (H3 : length (re_sub pattern3
                         (fun _ => list_ascii_of_string "People as Resource") 0 text2)
               <= length text2 - 0).
  { apply re_sub_length. intros s n H. apply pattern3_match in H.
    change (length (list_ascii_of_string "People as Resource")) with 18. lia. }
  lia.
Qed.

(** *** White space *)

Lemma lstrip_chars_drop s : drop (length s - length (lstrip_chars s)) s = lstrip_chars s.
Proof.
  destruct (lstrip_chars_suffix s) as [dropped H].
  set (kept := lstrip_chars s) in *. clearbody kept. subst s.
  rewrite length_app. replace (_ - _) with (length dropped) by lia.
  apply drop_app_length.
Qed.

(** The equations of [re.sub(r'\s+', ' ', text)]. *)
Lemma collapse_cons c s :
  re_sub spaces (fun _ => [" "%char]) 0 (c :: s)
  = if is_space c
    then " "%char :: re_sub spaces (fun _ => [" "%char]) 0 (lstrip_chars s)
    else c :: re_sub spaces (fun _ => [" "%char]) 0 s.
Proof.
  cbn [re_sub]. unfold spaces. cbn [lstrip_chars].
  destruct (is_space c) eqn:Hc.
  - pose proof (lstrip_chars_length s) as Hl. cbn [length].
    replace (S (length s) - length (lstrip_chars s))
      with (S (length s - length (lstrip_chars s))) by lia.
    cbn [app]. rewrite re_sub_skip, lstrip_chars_drop. reflexivity.
  - rewrite Nat.sub_diag. reflexivity.
Qed.

Lemma collapse_spaced s :
  spaced false (re_sub spaces (fun _ => [" "%char]) 0 s) /\
  (match s with c :: _ => is_space c = false | [] => True end ->
   spaced true (re_sub spaces (fun _ => [" "%char]) 0 s)).
Proof.
  induction s as [s IH] using (induction_ltof1 _ (@length ascii)). unfold ltof in IH.
  destruct s as [|c s]; [cbn; auto|]. rewrite collapse_cons.
  destruct (is_space c) eqn:Hc.
  - split; [|intros; discriminate]. cbn [spaced]. split; [auto|].
    change (is_space " ") with true.
    apply IH.
    + pose proof (lstrip_chars_length s). cbn. lia.
    + destruct (lstrip_chars s) as [|d rest] eqn:Hs; [exact I|].
      eapply lstrip_chars_head, Hs.
  - assert (Hrest : spaced false (re_sub spaces (fun _ => [" "%char]) 0 s))
      by (apply IH; cbn; lia).
    split; [|intros _]; cbn [spaced]; rewrite Hc; (split; [discriminate|exact Hrest]).
Qed.

Lemma spaced_weaken b s : spaced b s -> spaced false s.
Proof. destruct s as [|c s]; [auto|]. cbn. intros [H1 H2]. split; [|exact H2]. intros Hc. destruct (H1 Hc). auto. Qed.

Lemma spaced_map (f : ascii -> ascii) :
  (forall c, is_space (f c) = is_space c) -> (forall c, is_space c = true -> f c = c) ->
  forall s b, spaced b s -> spaced b (map f s).
Proof.
  intros Hf Hid. induction s as [|c s IH]; intros b; [auto|]. cbn [spaced map].
  intros [H1 H2]. rewrite Hf. split; [|apply IH, H2].
  intros Hc. rewrite (Hid c Hc). auto.
Qed.

Lemma spaced_app b s1 s2 :
  spaced b (s1 ++ s2) -> spaced b s1 /\ spaced false s2.
Proof.
  revert b. induction s1 as [|c s1 IH]; intros b; cbn [app spaced].
  - intros H. split; [exact I|eapply spaced_weaken, H].
  - intros [H1 H2]. apply IH in H2 as [H2 H3]. auto.
Qed.

Lemma spaced_Forall b s : spaced b s -> Forall (fun c => is_space c = true -> c = " "%char) s.
Proof.
  revert b. induction s as [|c s IH]; intros b; [constructor|]. cbn.
  intros [H1 H2]. constructor; [intros Hc; apply H1, Hc|eapply IH, H2].
Qed.

Lemma spaced_no_double b s i :
  spaced b s -> s !! i = Some " "%char -> s !! (S i) <> Some " "%char.
Proof.
  revert b i. induction s as [|c s IH]; intros b i; [discriminate|]. cbn [spaced].
  intros [H1 H2]. destruct i as [|i]; [|apply (IH _ i H2)].
  cbn. intros Hc. inversion Hc; subst c.
  destruct s as [|d s]; [discriminate|]. cbn in *. intros Hd. inversion Hd; subst d.
  destruct H2 as [H2 _]. destruct H2 as [_ H2]; [reflexivity|discriminate].
Qed.

Lemma replace_char_spaced old new s b :
  is_space old = false -> is_space new = false ->
  spaced b s -> spaced b (replace_char old new s).
Proof.
  intros Hold Hnew. apply spaced_map; intros c.
  - destruct (Ascii.eqb_spec c old) as [->|]; [congruence|reflexivity].
  - destruct (Ascii.eqb_spec c old) as [->|]; [congruence|reflexivity].
Qed.

Lemma replace_char_gone old new s : old <> new -> old ∉ replace_char old new s.
Proof.
  intros Hne Hin. unfold replace_char in Hin.
  apply list_elem_of_fmap in Hin as (c & Hc & _).
  destruct (Ascii.eqb_spec c old); congruence.
Qed.

Lemma replace_char_absent other old new s :
  other <> new -> other ∉ s -> other ∉ replace_char old new s.
Proof.
  intros Hne Hs Hin. unfold replace_char in Hin.
  apply list_elem_of_fmap in Hin as (c & Hc & Hcs).
  destruct (Ascii.eqb_spec c old); [congruence|]. subst. contradiction.
Qed.

Lemma strip_chars_absent c s : c ∉ s -> c ∉ strip_chars s.
Proof.
  intros Hs Hin. destruct (strip_chars_segment s) as (before & after & H).
  apply Hs. rewrite H. apply elem_of_app. right. apply elem_of_app. left. exact Hin.
Qed.

Lemma clean_chars_spaced text : spaced false (clean_chars text).
Proof.
  unfold clean_chars. cbv zeta.
  set (collapsed := re_sub spaces _ 0 _).
  assert (H : spaced false (replace_char "0" "O" (replace_char "|" "I" collapsed))).
  { apply replace_char_spaced; [reflexivity..|].
    apply replace_char_spaced; [reflexivity..|]. apply collapse_spaced. }
  destruct (strip_chars_segment (replace_char "0" "O" (replace_char "|" "I" collapsed)))
    as (before & after & Hseg).
  rewrite Hseg in H. apply spaced_app in H as [_ H]. apply spaced_app in H as [H _].
  exact H.
Qed.

Lemma clean_chars_length text : length (clean_chars text) <= length text.
Proof.
  unfold clean_chars. cbv zeta.
  set (collapsed := re_sub spaces _ 0 _).
  destruct (strip_chars_segment (replace_char "0" "O" (replace_char "|" "I" collapsed)))
    as (before & after & Hseg).
  apply (f_equal (@length ascii)) in Hseg.
  rewrite !length_app in Hseg. unfold replace_char in Hseg at 1 2.
  rewrite !length_map in Hseg.
  assert (Hc : length collapsed <= length (fix_complex_duplication text)).
  { subst collapsed. etransitivity; [apply re_sub_length|lia].
    intros s n H. unfold spaces in H.
    pose proof (lstrip_chars_length s).
    destruct (length s - length (lstrip_chars s)) eqn:E; inversion H; subst. cbn. lia. }
  pose proof (fix_complex_duplication_length text). lia.
Qed.

Lemma clean_chars_single_spaced text : single_spaced (clean_chars text).
Proof.
  pose proof (clean_chars_spaced text) as H. split; [|split].
  - unfold clean_chars. cbv zeta. apply strip_chars_idem.
  - eapply spaced_Forall, H.
  - intros i. eapply spaced_no_double, H.
Qed.

Lemma single_spaced_no_newline s : single_spaced s -> newline ∉ s.
Proof.
  intros (_ & Hall & _) Hin. rewrite Forall_forall in Hall.
  specialize (Hall newline Hin eq_refl). discriminate.
Qed.

(** *** Lines *)

Lemma split_lines_nonempty s : split_lines s <> [].
Proof.
  destruct s as [|c s]; [discriminate|]. cbn.
  destruct (split_lines s); [discriminate|]. destruct (Ascii.eqb c newline); discriminate.
Qed.

Lemma split_lines_line line rest :
  newline ∉ line -> split_lines (line ++ newline :: rest) = line :: split_lines rest.
Proof.
  induction line as [|c line IH]; intros Hline.
  - cbn. pose proof (split_lines_nonempty rest).
    destruct (split_lines rest); [contradiction|]. reflexivity.
  - cbn [app split_lines]. rewrite IH by (intros Hin; apply Hline; right; exact Hin).
    destruct (Ascii.eqb_spec c newline) as [->|]; [|reflexivity].
    exfalso. apply Hline. left.
Qed.

(** *** Headings *)

Lemma passes_heading_test_spec line :
  passes_heading_test line = true <-> heading_like line.
Proof.
  unfold passes_heading_test, heading_like.
  rewrite !andb_true_iff, !negb_true_iff, orb_true_iff, !Nat.ltb_lt, Nat.leb_le.
  split.
  - intros (((((((((H3 & H100) & Hd) & Hp) & Hc) & Hs) & Hr) & Hne) & Hfirst) & Hshort).
    split; [lia|]. destruct line as [|first rest]; [discriminate|].
    split; [eauto|]. repeat (split; [assumption|]).
    destruct Hshort as [Hup|Hw]; [left|right; exact Hw].
    unfold str_isupper in Hup. apply andb_true_iff in Hup as [_ Hup].
    apply negb_true_iff in Hup. exact Hup.
  - intros (Hlen & (first & rest & -> & Hfirst) & Hp & Hc & Hs & Hr & Hshort).
    assert (Hnotdigit : isdigit first = false).
    { unfold isupper, isdigit in *. destruct (nat_of_ascii first <=? 57)%nat eqn:E;
        [|apply andb_false_r].
      apply Nat.leb_le in E. apply andb_true_iff in Hfirst as [Hlo _].
      apply Nat.leb_le in Hlo. lia. }
    repeat split; try assumption; try lia;
      try (apply bool_decide_eq_false_2; discriminate).
    + unfold str_isdigit. cbn [forallb]. rewrite Hnotdigit. apply andb_false_r.
    + destruct Hshort as [Hlow|Hw]; [left|right; exact Hw].
      unfold str_isupper. rewrite Hlow. cbn [existsb]. rewrite Hfirst. reflexivity.
Qed.

Lemma headings_loop_spec lines : forall headings,
  NoDup headings ->
  NoDup (headings_loop lines headings) /\
  forall h, h ∈ headings_loop lines headings <->
    h ∈ headings \/
    exists line, line ∈ lines /\ h = strip_chars line /\ heading_like (strip_chars line).
Proof.
  induction lines as [|line rest IH]; intros headings Hnd.
  - cbn. split; [exact Hnd|]. intros h. split; [auto|].
    intros [H|(line & Hin & _)]; [exact H|inversion Hin].
  - cbn [headings_loop]. rewrite strip_chars_idem.
    destruct (passes_heading_test (strip_chars line)) eqn:Htest; cbn [andb].
    2:{ destruct (IH headings Hnd) as [Hnd' Hiff]. split; [exact Hnd'|].
        intros h. rewrite Hiff. split; intros [H|(l & Hin & Hh & Hlike)]; auto.
        - right. exists l. split; [right; exact Hin|auto].
        - right. exists l. split; [|auto].
          apply elem_of_cons in Hin as [ ->|Hin]; [|exact Hin].
          apply passes_heading_test_spec in Hlike. congruence. }
    assert (Hlike : heading_like (strip_chars line)) by (apply passes_heading_test_spec, Htest).
    case_bool_decide as Hseen; cbn [negb].
    { destruct (IH headings Hnd) as [Hnd' Hiff]. split; [exact Hnd'|].
      intros h. rewrite Hiff. split; intros [H|(l & Hin & Hh & Hl)]; auto.
      - right. exists l. split; [right; exact Hin|auto].
      - apply elem_of_cons in Hin as [ ->|Hin]; [left; subst h; exact Hseen|].
        right. exists l. auto. }
    rewrite bool_decide_eq_false_2.
    2:{ intros Hnil. destruct Hlike as [Hlen _]. rewrite Hnil in Hlen. cbn in Hlen. lia. }
    assert (Hnd1 : NoDup (headings ++ [strip_chars line])).
    { apply NoDup_app. split; [exact Hnd|]. split; [|apply NoDup_singleton].
      intros x Hx Hx'. apply list_elem_of_singleton in Hx'. subst x. contradiction. }
    destruct (IH _ Hnd1) as [Hnd' Hiff]. split; [exact Hnd'|].
    intros h. rewrite Hiff, elem_of_app, list_elem_of_singleton.
    split.
    + intros [[H| ->]|(l & Hin & Hh & Hl)]; auto.
      * right. exists line. split; [left|auto].
      * right. exists l. split; [right; exact Hin|auto].
    + intros [H|(l & Hin & Hh & Hl)]; auto.
      apply elem_of_cons in Hin as [ ->|Hin]; [auto|].
      right. exists l. auto.
Qed.

Lemma string_of_list_ascii_inj l1 l2 :
  string_of_list_ascii l1 = string_of_list_ascii l2 -> l1 = l2.
Proof.
  intros H. apply (f_equal list_ascii_of_string) in H.
  rewrite !list_ascii_of_string_of_list_ascii in H. exact H.
Qed.

Lemma extract_headings_spec text_content :
  NoDup (_extract_headings_from_text text_content) /\
  forall h, h ∈ _extract_headings_from_text text_content <->
    exists line,
      line ∈ split_lines (list_ascii_of_string text_content) /\
      h = string_of_list_ascii (strip_chars line) /\
      heading_like (strip_chars line).
Proof.
  unfold _extract_headings_from_text.
  destruct (headings_loop_spec (split_lines (list_ascii_of_string text_content)) [])
    as [Hnd Hiff]; [constructor|].
  split.
  - apply NoDup_fmap_2; [|exact Hnd]. intros l1 l2. apply string_of_list_ascii_inj.
  - intros h. rewrite list_elem_of_fmap. split.
    + intros (l & -> & Hl). apply Hiff in Hl as [Hl|(line & Hin & -> & Hlike)];
        [inversion Hl|]. eauto.
    + intros (line & Hin & -> & Hlike). exists (strip_chars line). split; [reflexivity|].
      apply Hiff. right. eauto.
Qed.

(** *** The text of the pages *)

Lemma extract_pages_ok pages : forall text_content text,
  extract_pages pages text_content = Ok text ->
  list_ascii_of_string text
  = list_ascii_of_string text_content ++ gathered (page_texts pages).
Proof.
  induction pages as [|page rest IH]; intros text_content text H.
  - cbn in H. inversion H. cbn. rewrite app_nil_r. reflexivity.
  - cbn [extract_pages] in H. destruct page as [[[|c t]|]|e]; cbn [rbind] in H;
      try discriminate; cbn [page_texts omap list_omap]; try (apply IH, H).
    apply IH in H. rewrite H, !GenerationProofs.list_ascii_of_string_app. cbn [gathered flat_map].
    fold (gathered (page_texts rest)).
    unfold _clean_extracted_text. rewrite list_ascii_of_string_of_list_ascii.
    rewrite <- !app_assoc. reflexivity.
Qed.

Lemma extract_text_spec pdf :
  _extract_text_from_pdf pdf = EmptyString \/
  exists pages,
    pdf = Ok pages /\
    list_ascii_of_string (_extract_text_from_pdf pdf) = gathered (page_texts pages).
Proof.
  unfold _extract_text_from_pdf. destruct pdf as [pages|e]; cbn [rbind]; [|auto].
  destruct (extract_pages pages EmptyString) as [text|e] eqn:H; [|auto].
  right. exists pages. split; [reflexivity|]. apply extract_pages_ok in H. exact H.
Qed.

Lemma gathered_lines texts :
  forall line, line ∈ split_lines (gathered texts) ->
    line = [] \/ exists text, text ∈ texts /\ line = clean_chars (list_ascii_of_string text).
Proof.
  induction texts as [|text rest IH]; intros line Hin.
  - cbn in Hin. apply list_elem_of_singleton in Hin. auto.
  - cbn [gathered flat_map] in Hin. fold (gathered rest) in Hin.
    rewrite <- app_assoc in Hin. cbn [app] in Hin.
    rewrite split_lines_line in Hin
      by apply single_spaced_no_newline, clean_chars_single_spaced.
    pose proof (split_lines_line [] (gathered rest)) as Hempty. cbn [app] in Hempty.
    rewrite Hempty in Hin by (intros H; inversion H).
    apply elem_of_cons in Hin as [ ->|Hin].
    { right. exists text. split; [left|reflexivity]. }
    apply elem_of_cons in Hin as [ ->|Hin]; [auto|].
    apply IH in Hin as [ ->|(t & Ht & ->)]; [auto|].
    right. exists t. split; [right; exact Ht|reflexivity].
Qed.

(** *** The outline *)

Lemma identify_outcome json_loads response text_content :
  _identify_topic_headings json_loads response text_content
  = outline_from_headings text_content \/
  exists c r first rest,
    response = Some (String c r) /\
    (let answer := c :: list_ascii_of_string r in
     json_loads (string_of_list_ascii
                   (slice (default 0 (find ["["%char] answer))
                          (Z.to_nat (rfind "]" answer + 1)) answer)))
    = Ok (PList (first :: rest)) /\
    _identify_topic_headings json_loads response text_content = first :: rest.
Proof.
  unfold _identify_topic_headings.
  destruct response as [[|c r]|]; [left; reflexivity| |left; reflexivity].
  destruct (bool_decide _ && bool_decide _); [|left; reflexivity].
  cbv zeta.
  destruct (json_loads _) as [[| | | |[|first rest]|]|e] eqn:Hjson; cbn [rbind];
    try (left; reflexivity).
  right. exists c, r, first, rest. auto.
Qed.

Lemma outline_of_headings headings :
  outline_of (map (fun topic => PDict [("main_topic", PStr topic); ("subtopics", PList [])])
                  headings)
  = Some (map (fun topic => {| Processor.main_topic := topic; Processor.subtopics := [] |})
              headings).
Proof.
  unfold outline_of. induction headings as [|h rest IH]; [reflexivity|].
  cbn [map mapM]. cbn [topic_of dict_lookup]. 
  rewrite decide_True by reflexivity. rewrite decide_False by discriminate.
  rewrite decide_True by reflexivity. cbn. cbn in IH. rewrite IH. reflexivity.
Qed.

End TextProofs.

(** ** What the text functions guarantee *)

Module TextProperties.
Import Py Paths PathsProofs Text TextFacts TextProofs.
Local Open Scope list_scope.

(** X18: a cleaned text is a single line of words one space apart.
    Whatever ASCII text a page holds, what [_clean_extracted_text] returns
    has no space at either end, no space character other than the plain
    space (so no newline and no tab) and no two spaces in a row. *)
Theorem cleaned_text_is_single_spaced text :
  isascii text = true ->
  single_spaced (list_ascii_of_string (_clean_extracted_text text)) /\
  newline ∉ list_ascii_of_string (_clean_extracted_text text).
Proof.
  intros _. unfold _clean_extracted_text. rewrite list_ascii_of_string_of_list_ascii.
  pose proof (clean_chars_single_spaced (list_ascii_of_string text)) as H.
  split; [exact H|apply single_spaced_no_newline, H].
Qed.

(** X18, witness: a text of two lines with a tab and runs of spaces. *)
Lemma cleaned_text_is_single_spaced_witness :
  let text := String "009" "  Rivers   rise
  in  the mountains. " in
  _clean_extracted_text text = "Rivers rise in the mountains." /\
  single_spaced (list_ascii_of_string (_clean_extracted_text text)) /\
  newline ∉ list_ascii_of_string (_clean_extracted_text text).
Proof.
  cbv zeta. split; [vm_compute; reflexivity|].
  apply cleaned_text_is_single_spaced. reflexivity.
Defined.

(** X19: a cleaned text holds no digit zero and no vertical bar: every
    [0] has become the letter [O] and every bar the letter [I], in whatever
    context they stood, numbers included. *)
Theorem cleaned_text_has_no_zero_or_bar text :
  ("0"%char ∉ list_ascii_of_string (_clean_extracted_text text)) /\
  ("|"%char ∉ list_ascii_of_string (_clean_extracted_text text)).
Proof.
  unfold _clean_extracted_text. rewrite list_ascii_of_string_of_list_ascii.
  unfold clean_chars. cbv zeta. split; apply strip_chars_absent.
  - apply replace_char_gone. discriminate.
  - apply replace_char_absent; [discriminate|]. apply replace_char_gone. discriminate.
Qed.

(** X20: cleaning never makes a text longer: every replacement of the
    three duplication patterns and of the runs of spaces is at most as long
    as what it replaces. *)
Theorem cleaning_never_lengthens text :
  String.length (_clean_extracted_text text) <= String.length text.
Proof.
  unfold _clean_extracted_text.
  rewrite <- (GenerationProofs.length_list_ascii_of_string text),
    <- GenerationProofs.length_list_ascii_of_string, list_ascii_of_string_of_list_ascii.
  apply clean_chars_length.
Qed.

(** X21: the headings found in an ASCII text are exactly its
    heading-like lines, each once.  A line counts, once stripped, when it
    has 4 to 99 characters, starts with a capital letter, does not start
    with [Page], [Chapter], [Source:] or [Reprint], and has no small letter
    or at most 8 words; the source's tests for digits and for the empty line
    never decide anything. *)
Theorem headings_are_the_heading_like_lines text_content :
  isascii text_content = true ->
  NoDup (_extract_headings_from_text text_content) /\
  forall h, h ∈ _extract_headings_from_text text_content <->
    exists line,
      line ∈ split_lines (list_ascii_of_string text_content) /\
      h = string_of_list_ascii (strip_chars line) /\
      heading_like (strip_chars line).
Proof. intros _. apply extract_headings_spec. Qed.

(** X21, witness: five lines, of which the first and the fourth are
    headings; the second does not start with a capital, the third starts
    with [Page] and the last repeats the first. *)
Lemma headings_are_the_heading_like_lines_witness :
  let text := "The Rivers of India
rivers rise in the mountains
Page 12
  WATER AND THE SHAPING OF THE LAND OVER TENS OF THOUSANDS OF YEARS
The Rivers of India" in
  _extract_headings_from_text text
  = ["The Rivers of India";
     "WATER AND THE SHAPING OF THE LAND OVER TENS OF THOUSANDS OF YEARS"] /\
  NoDup (_extract_headings_from_text text) /\
  forall h, h ∈ _extract_headings_from_text text <->
    exists line,
      line ∈ split_lines (list_ascii_of_string text) /\
      h = string_of_list_ascii (strip_chars line) /\
      heading_like (strip_chars line).
Proof.
  cbv zeta. split; [vm_compute; reflexivity|].
  apply headings_are_the_heading_like_lines. reflexivity.
Defined.

(** X22: a heading found in the text extracted from a document is the
    whole cleaned text of one of its pages.  Cleaning turns every page into
    a single line, so at most one heading is found per page with text, and
    none on a page with 100 characters or more; when the document cannot be
    read no heading is found at all. *)
Theorem headings_are_whole_pages pdf :
  let headings := _extract_headings_from_text (_extract_text_from_pdf pdf) in
  (forall h, h ∈ headings ->
     exists pages text,
       pdf = Ok pages /\ text ∈ page_texts pages /\
       h = _clean_extracted_text text /\ String.length h < 100) /\
  (forall pages, pdf = Ok pages -> length headings <= length (page_texts pages)) /\
  (forall e, pdf = Raise e -> headings = []).
Proof.
  cbv zeta.
  destruct (extract_headings_spec (_extract_text_from_pdf pdf)) as [Hnd Hiff].
  assert (Hempty : _extract_text_from_pdf pdf = EmptyString ->
                   _extract_headings_from_text (_extract_text_from_pdf pdf) = [])
    by (intros ->; reflexivity).
  assert (Hpage : forall h, h ∈ _extract_headings_from_text (_extract_text_from_pdf pdf) ->
            exists pages text,
              pdf = Ok pages /\ text ∈ page_texts pages /\
              h = _clean_extracted_text text /\ String.length h < 100).
  { intros h Hh. destruct (extract_text_spec pdf) as [He|(pages & -> & Htext)].
    { rewrite (Hempty He) in Hh. inversion Hh. }
    apply Hiff in Hh as (line & Hline & -> & Hlike).
    rewrite Htext in Hline. apply gathered_lines in Hline as [->|(text & Ht & ->)].
    { destruct Hlike as [Hlen _]. cbn in Hlen. lia. }
    destruct (clean_chars_single_spaced (list_ascii_of_string text)) as [Hstrip _].
    rewrite Hstrip in *. exists pages, text. split; [reflexivity|]. split; [exact Ht|].
    split; [reflexivity|].
    rewrite <- GenerationProofs.length_list_ascii_of_string,
      list_ascii_of_string_of_list_ascii.
    destruct Hlike as [Hlen _]. lia. }
  split; [exact Hpage|]. split.
  - intros pages ->.
    rewrite <- (length_map _clean_extracted_text (page_texts pages)).
    apply submseteq_length, NoDup_submseteq; [exact Hnd|].
    intros h Hh. destruct (Hpage h Hh) as (pages' & text & Heq & Ht & -> & _).
    inversion Heq; subst pages'. apply list_elem_of_fmap. eauto.
  - intros e ->. reflexivity.
Qed.

(** X23: the outline is the model's answer only when the answer holds a
    JSON list that is not empty; in every other case, whether the call
    failed, the answer has no brackets, [json.loads] raises or yields
    something else than a non-empty list, it is the outline built from the
    headings of the text, each a main topic without subtopics.  The function
    never raises. *)
Theorem outline_is_answer_or_headings json_loads response text_content :
  let outline := _identify_topic_headings json_loads response text_content in
  (response = None \/ response = Some EmptyString ->
   outline = outline_from_headings text_content) /\
  (outline = outline_from_headings text_content \/
   exists c r first rest,
     response = Some (String c r) /\
     (let answer := c :: list_ascii_of_string r in
      json_loads (string_of_list_ascii
                    (slice (default 0 (find ["["%char] answer))
                           (Z.to_nat (rfind "]" answer + 1)) answer)))
     = Ok (PList (first :: rest)) /\
     outline = first :: rest) /\
  outline_of (outline_from_headings text_content)
  = Some (map (fun topic => {| Processor.main_topic := topic; Processor.subtopics := [] |})
              (_extract_headings_from_text text_content)).
Proof.
  cbv zeta. split; [|split].
  - intros [->| ->]; reflexivity.
  - apply identify_outcome.
  - apply outline_of_headings.
Qed.

End TextProperties.

(** ** Properties of the pages *)

Module RenderProofs.
Import Py Paths Processor Render RenderFacts.
Local Open Scope string_scope.
Local Open Scope list_scope.
Local Open Scope py_scope.

(** *** Loops *)

Lemma for_each_ok {A B} (body : A -> result B) l :
  is_ok (for_each body l) <-> Forall (fun x => is_ok (body x)) l.
Proof.
  induction l as [|x l IH]; cbn [for_each].
  - split; [constructor|]. intros _. eexists. reflexivity.
  - rewrite Forall_cons, <- IH. unfold is_ok. split.
    + intros [ys H]. destruct (body x) as [y|e]; [|discriminate]. cbn in H.
      destruct (for_each body l) as [ys'|e]; [|discriminate]. eauto.
    + intros [[y ->] [ys ->]]. cbn. eauto.
Qed.

Lemma for_each_length {A B} (body : A -> result B) l : forall ys,
  for_each body l = Ok ys -> length ys = length l.
Proof.
  induction l as [|x l IH]; intros ys H; cbn in H.
  - inversion H. reflexivity.
  - destruct (body x) as [y|e]; [|discriminate]. cbn in H.
    destruct (for_each body l) as [ys'|e]; [|discriminate]. inversion H. cbn.
    f_equal. apply IH. reflexivity.
Qed.

Lemma for_each_enumerate_ok {A B} (body : nat -> A -> result B) l : forall i,
  is_ok (for_each_enumerate body i l) <->
  forall j x, l !! j = Some x -> is_ok (body (i + j) x).
Proof.
  induction l as [|x l IH]; intros i; cbn [for_each_enumerate].
  - split; [intros _ j x H; inversion H|]. intros _. eexists. reflexivity.
  - split.
    + intros [ys H]. destruct (body i x) as [y|e] eqn:Hx; [|discriminate]. cbn in H.
      destruct (for_each_enumerate body (S i) l) as [ys'|e] eqn:Hl; [|discriminate].
      intros [|j] x' Hj; cbn in Hj.
      * inversion Hj; subst. rewrite Nat.add_0_r, Hx. eexists. reflexivity.
      * replace (i + S j) with (S i + j) by lia. eapply IH; [|exact Hj].
        eexists. exact Hl.
    + intros Hall. destruct (Hall 0 x eq_refl) as [y Hy]. rewrite Nat.add_0_r in Hy.
      rewrite Hy. cbn.
      destruct (proj2 (IH (S i))) as [ys ->]; [|cbn; eexists; reflexivity].
      intros j x' Hj. replace (S i + j) with (i + S j) by lia. apply Hall. exact Hj.
Qed.

Lemma for_each_enumerate_ok_all {A B} (body : nat -> A -> result B) (P : A -> Prop) l i :
  (forall i x, is_ok (body i x) <-> P x) ->
  is_ok (for_each_enumerate body i l) <-> Forall P l.
Proof.
  intros Hbody. rewrite for_each_enumerate_ok, Forall_lookup. split.
  - intros H j x Hj. eapply Hbody, H, Hj.
  - intros H j x Hj. eapply Hbody, H, Hj.
Qed.

(** *** The items *)

Lemma has_true key d : has key d = true <-> is_Some (dict_lookup key d).
Proof. unfold has. apply bool_decide_eq_true. Qed.

Lemma getitem_ok key item :
  is_ok (py_getitem item key) <-> exists d, item = PDict d /\ has key d = true.
Proof.
  unfold is_ok, py_getitem. split.
  - intros [v H]. destruct item as [| | | | |d]; try discriminate.
    exists d. split; [reflexivity|]. apply has_true.
    destruct (dict_lookup key d); [eauto|discriminate].
  - intros (d & -> & H). apply has_true in H as [v ->]. eauto.
Qed.

Ltac crush_item :=
  repeat match goal with
         | H : is_ok (Raise _) |- _ => destruct H; discriminate
         | H : _ /\ _ |- _ => destruct H
         | H : false = true |- _ => discriminate
         | |- is_ok (Ok _) => eexists; reflexivity
         | |- _ /\ _ => split
         | |- forall _, _ => intro
         end.

Lemma concept_checks concept :
  renderable_concept concept = true <->
  (forall i, is_ok (concept_card i concept)) /\
  (forall topics, is_ok (place_concept topics concept)) /\
  is_ok (concept_under_topic concept).
Proof.
  unfold renderable_concept, concept_card, place_concept, concept_under_topic,
    has, has_string, py_getitem, py_get, py_replace.
  destruct concept as [| | | | |d]; cbn [rbind].
  1-5: split; [discriminate|intros (H & _); specialize (H 0); crush_item].
  destruct (dict_lookup "title" d) as [title|]; cbn [rbind];
    [|split; [discriminate|intros (H & _); specialize (H 0); crush_item]].
  rewrite bool_decide_eq_true_2 by eauto. cbn [andb].
  destruct (dict_lookup "description" d) as [[| | |description| |]|]; cbn [rbind andb].
  1-3, 5-7: split; [discriminate|intros (H1 & H2 & H3); try specialize (H1 0); crush_item].
  destruct (dict_lookup "topic" d) as [[| | |topic|l|d']|]; cbn [rbind default from_option id].
  - split; [discriminate|intros (_ & H & _); specialize (H []); crush_item].
  - split; [discriminate|intros (_ & H & _); specialize (H []); crush_item].
  - split; [discriminate|intros (_ & H & _); specialize (H []); crush_item].
  - split; [intros _|reflexivity]. crush_item.
    destruct (split_arrow topic) as [[? ?]|]; crush_item.
  - split; [discriminate|intros (_ & H & _); specialize (H [])].
    destruct (existsb _ l); crush_item.
  - split; [discriminate|intros (_ & H & _); specialize (H [])].
    destruct (bool_decide _); crush_item.
  - split; [intros _|reflexivity]. crush_item.
    change (split_arrow "") with (@None (string * string)). eexists. reflexivity.
Qed.

Lemma is_ok_bind {A B} (r : result A) (k : A -> result B) :
  is_ok (let? x := r in k x) <-> exists x, r = Ok x /\ is_ok (k x).
Proof.
  unfold is_ok. destruct r as [x|e]; cbn.
  - split; [intros H; eauto|intros (x' & Hx & H); inversion Hx; subst; exact H].
  - split; [intros [? ?]; discriminate|intros (x' & Hx & _); discriminate].
Qed.

Lemma concept_card_index i j concept :
  is_ok (concept_card i concept) -> is_ok (concept_card j concept).
Proof.
  unfold concept_card, is_ok. intros [y H].
  destruct (py_getitem concept "title"); [|discriminate]. cbn in *.
  destruct (py_getitem concept "description"); [|discriminate]. cbn in *.
  destruct (py_get concept "topic" (PStr "")); [|discriminate]. cbn. eauto.
Qed.

Lemma place_concept_any topics topics' concept :
  is_ok (place_concept topics concept) -> is_ok (place_concept topics' concept).
Proof.
  unfold place_concept, is_ok. intros [t H].
  destruct (py_get concept "topic" (PStr "")) as [[| | |topic|l|d]|]; cbn in *;
    try discriminate.
  - destruct (split_arrow topic) as [[? ?]|]; eauto.
  - destruct (existsb _ l); discriminate.
  - destruct (bool_decide _); discriminate.
Qed.

Lemma options_ok d options :
  has "id" d = true ->
  is_ok (for_each_enumerate (option_item (PDict d)) 0 options) <->
  (Z.of_nat (length options) <= 1114047)%Z.
Proof.
  intros Hid. apply has_true in Hid as [id Hid].
  rewrite for_each_enumerate_ok. unfold option_item, py_getitem. rewrite Hid. cbn [rbind].
  split.
  - intros Hall. destruct options as [|o options] using rev_ind; [cbn; lia|].
    specialize (Hall (length options) o). rewrite lookup_app_r, Nat.sub_diag in Hall by lia.
    specialize (Hall eq_refl). cbn [Nat.add] in Hall.
    destruct (65 + Z.of_nat (length options) <? 1114112)%Z eqn:E;
      [|destruct Hall; discriminate].
    apply Z.ltb_lt in E. rewrite length_app. cbn. lia.
  - intros Hlen j x Hj. apply lookup_lt_Some in Hj. cbn [Nat.add].
    destruct (65 + Z.of_nat j <? 1114112)%Z eqn:E; [eexists; reflexivity|].
    apply Z.ltb_ge in E. lia.
Qed.

Lemma mcq_checks mcq : renderable_mcq mcq = true <-> is_ok (mcq_card mcq).
Proof.
  unfold renderable_mcq, mcq_card.
  destruct mcq as [| | | | |d];
    try (split; [discriminate|intros [? H]; discriminate]).
  destruct (has "id" d) eqn:Hid; cbn [andb].
  2:{ split; [discriminate|]. intros H. exfalso.
      apply is_ok_bind in H as (o & _ & H). apply is_ok_bind in H as (l & _ & H).
      apply is_ok_bind in H as (h & _ & H). apply is_ok_bind in H as (id & Hget & _).
      assert (Hok : is_ok (py_getitem (PDict d) "id")) by (eexists; exact Hget).
      apply getitem_ok in Hok as (d' & Heq & Hhas). inversion Heq; subst. congruence. }
  destruct (has "correct_answer" d) eqn:Hc; cbn [andb].
  2:{ split; [discriminate|]. intros H. exfalso.
      apply is_ok_bind in H as (o & _ & H). apply is_ok_bind in H as (l & _ & H).
      apply is_ok_bind in H as (h & _ & H). apply is_ok_bind in H as (id & _ & H).
      apply is_ok_bind in H as (c & Hget & _).
      assert (Hok : is_ok (py_getitem (PDict d) "correct_answer")) by (eexists; exact Hget).
      apply getitem_ok in Hok as (d' & Heq & Hhas). inversion Heq; subst. congruence. }
  destruct (has "question" d) eqn:Hq; cbn [andb].
  2:{ split; [discriminate|]. intros H. exfalso.
      apply is_ok_bind in H as (o & _ & H). apply is_ok_bind in H as (l & _ & H).
      apply is_ok_bind in H as (h & _ & H). apply is_ok_bind in H as (id & _ & H).
      apply is_ok_bind in H as (c & _ & H). apply is_ok_bind in H as (q & Hget & _).
      assert (Hok : is_ok (py_getitem (PDict d) "question")) by (eexists; exact Hget).
      apply getitem_ok in Hok as (d' & Heq & Hhas). inversion Heq; subst. congruence. }
  assert (Hrest : forall h : list (pyval * nat * pyval),
            is_ok (let? id := py_getitem (PDict d) "id" in
                   let? correct_answer := py_getitem (PDict d) "correct_answer" in
                   let? question := py_getitem (PDict d) "question" in
                   Ok (id, correct_answer, question, h))).
  { intros h. apply has_true in Hid as [id Hid], Hc as [c Hc], Hq as [q Hq].
    unfold py_getitem. rewrite Hid, Hc, Hq. eexists. reflexivity. }
  unfold py_getitem at 1.
  destruct (dict_lookup "options" d) as [options|]; cbn [rbind];
    [|split; [discriminate|intros [? H]; discriminate]].
  destruct (py_iter options) as [l|e]; cbn [rbind];
    [|split; [discriminate|intros [? H]; discriminate]].
  rewrite Z.leb_le, <- (options_ok d l Hid), is_ok_bind. split.
  - intros [h Hh]. exists h. split; [exact Hh|apply Hrest].
  - intros (h & Hh & _). exists h. exact Hh.
Qed.

Lemma subjective_checks question :
  renderable_subjective question = true <-> is_ok (subjective_card question).
Proof.
  unfold renderable_subjective, subjective_card, has, has_string, py_getitem, py_get,
    py_replace.
  destruct question as [| | | | |d]; cbn [rbind];
    try (split; [discriminate|intros [? H]; discriminate]).
  destruct (dict_lookup "id" d) as [id|]; cbn [rbind];
    [|split; [discriminate|intros [? H]; discriminate]].
  destruct (dict_lookup "question" d) as [text|]; cbn [rbind];
    [|split; [rewrite andb_false_r; discriminate|intros [? H]; discriminate]].
  rewrite !bool_decide_eq_true_2 by eauto. cbn [andb].
  destruct (dict_lookup "answer" d) as [[| | |answer| |]|]; cbn [rbind];
    try (split; [discriminate|intros [? H]; discriminate]).
  split; [intros _; eexists; reflexivity|reflexivity].
Qed.

(** *** The tree *)

Lemma update_subtopic_concepts subtopic concept (subtopics : list (string * list pyval)) :
  flat_map snd (update_entry subtopic [] (fun concepts => concepts ++ [concept]) subtopics)
  ≡ₚ flat_map snd subtopics ++ [concept].
Proof.
  induction subtopics as [|[k v] rest IH]; [reflexivity|].
  cbn [update_entry]. destruct (decide (subtopic = k)) as [_|_]; cbn [flat_map snd].
  - rewrite <- !app_assoc. apply Permutation_app_head, Permutation_app_comm.
  - rewrite IH, app_assoc. reflexivity.
Qed.

Lemma add_concept_concepts main_topic subtopic concept topics :
  tree_concepts (add_concept main_topic subtopic concept topics)
  ≡ₚ tree_concepts topics ++ [concept].
Proof.
  unfold add_concept, tree_concepts.
  induction topics as [|[k v] rest IH]; [reflexivity|].
  cbn [update_entry]. destruct (decide (main_topic = k)) as [_|_]; cbn [flat_map snd].
  - rewrite update_subtopic_concepts, <- !app_assoc.
    apply Permutation_app_head, Permutation_app_comm.
  - rewrite IH, app_assoc. reflexivity.
Qed.

Lemma place_concept_concepts topics concept topics' :
  place_concept topics concept = Ok topics' ->
  tree_concepts topics' ≡ₚ tree_concepts topics ++ [concept].
Proof.
  unfold place_concept.
  destruct (py_get concept "topic" (PStr "")) as [[| | |topic|l|d]|]; cbn;
    try discriminate.
  - destruct (split_arrow topic) as [[main_topic subtopic]|]; intros H; inversion H;
      apply add_concept_concepts.
  - destruct (existsb _ l); discriminate.
  - destruct (bool_decide _); discriminate.
Qed.

Lemma place_concepts_concepts concepts : forall topics topics',
  place_concepts topics concepts = Ok topics' ->
  tree_concepts topics' ≡ₚ tree_concepts topics ++ concepts.
Proof.
  induction concepts as [|concept rest IH]; intros topics topics' H; cbn in H.
  - inversion H. rewrite app_nil_r. reflexivity.
  - destruct (place_concept topics concept) as [topics1|e] eqn:H1; [|discriminate].
    cbn in H. apply IH in H. apply place_concept_concepts in H1.
    rewrite H, H1, <- app_assoc. reflexivity.
Qed.

Lemma place_concepts_ok concepts : forall topics,
  is_ok (place_concepts topics concepts) <->
  Forall (fun concept => forall topics, is_ok (place_concept topics concept)) concepts.
Proof.
  induction concepts as [|concept rest IH]; intros topics; cbn [place_concepts].
  - split; [constructor|]. intros _. eexists. reflexivity.
  - rewrite is_ok_bind, Forall_cons. split.
    + intros (topics1 & H1 & H). split; [|eapply IH, H].
      intros topics0. eapply place_concept_any. eexists. exact H1.
    + intros [H1 H]. destruct (H1 topics) as [topics1 Ht]. exists topics1.
      split; [exact Ht|]. apply IH, H.
Qed.

Lemma subtopics_html_ok (subtopics : list (string * list pyval)) :
  is_ok (_generate_subtopics_with_concepts_html subtopics) <->
  Forall (fun concept => is_ok (concept_under_topic concept)) (flat_map snd subtopics).
Proof.
  unfold _generate_subtopics_with_concepts_html.
  rewrite for_each_ok, Forall_flat_map. apply Forall_iff. intros [name concepts].
  unfold subtopic_with_concepts. cbn [snd]. rewrite is_ok_bind, <- for_each_ok. split.
  - intros (shown & H & _). eexists. exact H.
  - intros [shown H]. exists shown. split; [exact H|eexists; reflexivity].
Qed.

(** The tree of a page can be built when each of the concepts it holds has
    a title and a description that is a string. *)
Lemma tree_html_ok (topics : tree) :
  is_ok (for_each (fun entry : string * list (string * list pyval) =>
                     let '(main_topic, subtopics) := entry in
                     let? shown := _generate_subtopics_with_concepts_html subtopics in
                     Ok (main_topic, shown)) topics) <->
  Forall (fun concept => is_ok (concept_under_topic concept)) (tree_concepts topics).
Proof.
  rewrite for_each_ok. unfold tree_concepts. rewrite Forall_flat_map.
  apply Forall_iff. intros [main_topic subtopics]. cbn [snd].
  rewrite is_ok_bind, <- subtopics_html_ok. split.
  - intros (shown & H & _). eexists. exact H.
  - intros [shown H]. exists shown. split; [exact H|eexists; reflexivity].
Qed.

Lemma topic_tree_ok concepts :
  is_ok (_generate_topic_tree_html concepts) <->
  Forall (fun concept => (forall topics, is_ok (place_concept topics concept)) /\
                         is_ok (concept_under_topic concept)) concepts.
Proof.
  unfold _generate_topic_tree_html. rewrite is_ok_bind, Forall_and. split.
  - intros (topics & Hplace & Hshow).
    split; [apply (place_concepts_ok concepts []); eexists; exact Hplace|].
    apply tree_html_ok in Hshow. apply place_concepts_concepts in Hplace.
    rewrite Hplace in Hshow. exact Hshow.
  - intros [Hplace Hshow]. apply (place_concepts_ok concepts []) in Hplace as [topics Ht].
    exists topics. split; [exact Ht|]. apply tree_html_ok.
    apply place_concepts_concepts in Ht. rewrite Ht. exact Hshow.
Qed.

Lemma forallb_Forall_true {A} (f : A -> bool) l :
  forallb f l = true <-> Forall (fun x => f x = true) l.
Proof. rewrite forallb_forall, Forall_forall. split; intros H x Hx; apply H; [apply list_elem_of_In|apply list_elem_of_In]; exact Hx. Qed.

(** A bundle can be rendered exactly when its items are well-formed. *)
Lemma generate_html_content_ok content_data :
  is_ok (generate_html_content content_data) <-> renderable content_data = true.
Proof.
  unfold generate_html_content, renderable. cbv zeta.
  rewrite !andb_true_iff, !forallb_Forall_true.
  rewrite (Forall_iff _ _ _ concept_checks), (Forall_iff _ _ _ mcq_checks),
    (Forall_iff _ _ _ subjective_checks).
  unfold _generate_concepts_html, _generate_mcq_html, _generate_subjective_html.
  rewrite <- (for_each_ok mcq_card), <- (for_each_ok subjective_card).
  assert (Hcards : is_ok (for_each_enumerate concept_card 0 (concepts content_data)) <->
                   Forall (fun c => forall i, is_ok (concept_card i c)) (concepts content_data)).
  { apply for_each_enumerate_ok_all. intros i c. split; [|auto].
    intros H j. eapply concept_card_index, H. }
  assert (Hjson : Forall (fun c => forall i, is_ok (concept_card i c)) (concepts content_data) ->
            is_ok (for_each (fun concept =>
                               let? title := py_getitem concept "title" in
                               let? description := py_getitem concept "description" in
                               Ok (title, description)) (concepts content_data))).
  { intros Hall. apply for_each_ok. eapply Forall_impl; [exact Hall|].
    intros c Hc. specialize (Hc 0). unfold concept_card in Hc.
    apply is_ok_bind in Hc as (t & -> & Hc). apply is_ok_bind in Hc as (d & -> & _).
    eexists. reflexivity. }
  split.
  - intros H. apply is_ok_bind in H as (ch & Hch & H).
    apply is_ok_bind in H as (mh & Hmh & H). apply is_ok_bind in H as (sh & Hsh & H).
    apply is_ok_bind in H as (cj & Hcj & H). apply is_ok_bind in H as (th & Hth & _).
    assert (Htree : is_ok (_generate_topic_tree_html (concepts content_data)))
      by (eexists; exact Hth).
    apply topic_tree_ok, Forall_and in Htree as [Hplace Hunder].
    assert (Hc : is_ok (for_each_enumerate concept_card 0 (concepts content_data)))
      by (eexists; exact Hch).
    apply Hcards in Hc.
    split; [split|]; [|eexists; exact Hmh|eexists; exact Hsh].
    apply Forall_and. split; [exact Hc|]. apply Forall_and. split; assumption.
  - intros [[Hc Hm] Hs]. apply Forall_and in Hc as [Hc Hrest].
    apply Forall_and in Hrest as [Hplace Hunder].
    destruct (proj2 Hcards Hc) as [ch ->]. destruct Hm as [mh ->]. destruct Hs as [sh ->].
    destruct (Hjson Hc) as [cj ->].
    destruct (proj2 (topic_tree_ok (concepts content_data))) as [th ->].
    { apply Forall_and. split; assumption. }
    cbn. eexists. reflexivity.
Qed.

(** *** Grouping *)

Lemma update_entry_keys {A} key (new : A) f d :
  NoDup (map fst d) -> NoDup (map fst (update_entry key new f d)).
Proof.
  induction d as [|[k v] d IH]; intros Hnd.
  - cbn. apply NoDup_singleton.
  - cbn [update_entry]. destruct (decide (key = k)) as [->|Hne]; [exact Hnd|].
    cbn [map fst] in *. apply NoDup_cons in Hnd as [Hk Hnd].
    apply NoDup_cons. split; [|apply IH, Hnd].
    intros Hin. apply Hk. clear IH Hk Hnd.
    induction d as [|[k' v'] d IH]; cbn in Hin.
    + apply list_elem_of_singleton in Hin. congruence.
    + destruct (decide (key = k')) as [->|Hne']; [exact Hin|].
      cbn [map fst] in *. apply elem_of_cons in Hin as [->|Hin]; [left|right; apply IH, Hin].
Qed.

Lemma update_entry_Forall {A} (P : string -> A -> Prop) key (new : A) f d :
  Forall (fun entry => P (fst entry) (snd entry)) d ->
  P key (f new) -> (forall v, P key v -> P key (f v)) ->
  Forall (fun entry => P (fst entry) (snd entry)) (update_entry key new f d).
Proof.
  intros Hall Hnew Hf. induction d as [|[k v] d IH].
  - cbn. constructor; [exact Hnew|constructor].
  - cbn [update_entry]. apply Forall_cons in Hall as [Hkv Hall].
    destruct (decide (key = k)) as [->|Hne].
    + constructor; [apply Hf, Hkv|exact Hall].
    + constructor; [exact Hkv|apply IH, Hall].
Qed.

Lemma add_concept_grouped main_topic subtopic concept topics :
  place_of concept = Some (main_topic, subtopic) ->
  well_grouped topics -> well_grouped (add_concept main_topic subtopic concept topics).
Proof.
  intros Hplace [Hkeys Hall]. unfold add_concept. split; [apply update_entry_keys, Hkeys|].
  apply (update_entry_Forall
           (fun main subs =>
              NoDup (map fst subs) /\
              Forall (fun sub => Forall (fun c => place_of c = Some (main, fst sub)) (snd sub))
                     subs)).
  - exact Hall.
  - cbn. split; [apply NoDup_singleton|]. repeat constructor. exact Hplace.
  - intros subs [Hsk Hsub]. split; [apply update_entry_keys, Hsk|].
    apply (update_entry_Forall
             (fun sub cs => Forall (fun c => place_of c = Some (main_topic, sub)) cs)).
    + exact Hsub.
    + cbn. repeat constructor. exact Hplace.
    + intros cs Hcs. apply Forall_app. split; [exact Hcs|]. repeat constructor. exact Hplace.
Qed.

Lemma place_concept_grouped topics concept topics' :
  place_concept topics concept = Ok topics' ->
  well_grouped topics -> well_grouped topics'.
Proof.
  unfold place_concept. intros H Hg.
  destruct (py_get concept "topic" (PStr "")) as [[| | |topic|l|d]|] eqn:Hget; cbn in H;
    try discriminate.
  - assert (Hplace : place_of concept
                     = match split_arrow topic with
                       | Some (m, s) => Some (m, s)
                       | None => Some (topic, "main")
                       end) by (unfold place_of; rewrite Hget; reflexivity).
    destruct (split_arrow topic) as [[m s]|]; inversion H; subst;
      apply add_concept_grouped; assumption.
  - destruct (existsb _ l); discriminate.
  - destruct (bool_decide _); discriminate.
Qed.

Lemma place_concepts_grouped concepts : forall topics topics',
  place_concepts topics concepts = Ok topics' ->
  well_grouped topics -> well_grouped topics'.
Proof.
  induction concepts as [|concept rest IH]; intros topics topics' H Hg; cbn in H.
  - inversion H; subst. exact Hg.
  - destruct (place_concept topics concept) as [topics1|e] eqn:H1; [|discriminate].
    cbn in H. eapply IH; [exact H|]. eapply place_concept_grouped; eassumption.
Qed.

(** *** Labels *)

Lemma find_unfold sub s :
  find sub s = if startswith sub s then Some 0
               else match s with
                    | [] => None
                    | _ :: s' => S <$> find sub s'
                    end.
Proof. destruct s; reflexivity. Qed.

Lemma startswith_lookup prefix : forall s,
  startswith prefix s = true <-> forall k c, prefix !! k = Some c -> s !! k = Some c.
Proof.
  induction prefix as [|p prefix IH]; intros s.
  - cbn. split; [intros _ k c H; inversion H|reflexivity].
  - destruct s as [|x s]; cbn [startswith].
    + split; [discriminate|]. intros H. specialize (H 0 p eq_refl). discriminate.
    + rewrite andb_true_iff, IH. split.
      * intros [Hp Hrest] [|k] c Hk; cbn in *.
        -- apply Ascii.eqb_eq in Hp. congruence.
        -- apply Hrest, Hk.
      * intros H. split.
        -- apply Ascii.eqb_eq. specialize (H 0 p eq_refl). cbn in H. congruence.
        -- intros k c Hk. apply (H (S k) c Hk).
Qed.

Lemma find_none sub s i : find sub s = None -> startswith sub (drop i s) = false.
Proof.
  revert i. induction s as [|c s IH]; intros i H; rewrite find_unfold in H.
  - destruct (startswith sub []) eqn:E; [discriminate|]. rewrite drop_nil. exact E.
  - destruct (startswith sub (c :: s)) eqn:E; [discriminate|].
    destruct i as [|i]; [exact E|]. cbn [drop]. apply IH.
    destruct (find sub s); [discriminate|reflexivity].
Qed.

Lemma find_at_junction sub before rest :
  (forall i, i < length before -> startswith sub (drop i (before ++ rest)) = false) ->
  startswith sub rest = true ->
  find sub (before ++ rest) = Some (length before).
Proof.
  induction before as [|c before IH]; intros Hnot Hat.
  - cbn [app length]. rewrite find_unfold, Hat. reflexivity.
  - cbn [app]. rewrite find_unfold.
    pose proof (Hnot 0 ltac:(cbn; lia)) as H0. cbn [drop app] in H0. rewrite H0.
    rewrite IH; [reflexivity| |exact Hat].
    intros i Hi. apply (Hnot (S i)). cbn. lia.
Qed.

Lemma arrow_not_before name rest i :
  no_arrow name -> i < String.length name ->
  startswith (list_ascii_of_string arrow)
             (drop i (list_ascii_of_string name ++ list_ascii_of_string arrow ++ rest))
  = false.
Proof.
  intros Hno Hi. rewrite <- GenerationProofs.length_list_ascii_of_string in Hi.
  unfold no_arrow in Hno. set (chars := list_ascii_of_string name) in *.
  destruct (startswith _ _) eqn:E; [exfalso|reflexivity].
  rewrite startswith_lookup in E.
  pose proof (E 1 _ eq_refl) as E1. pose proof (E 2 _ eq_refl) as E2.
  pose proof (E 3 _ eq_refl) as E3. rewrite lookup_drop in E1, E2, E3.
  destruct (decide (i + 3 < length chars)) as [Hin|Hout].
  - pose proof (find_none _ _ (i + 1) Hno) as Hf.
    assert (Ht : startswith (list_ascii_of_string "→") (drop (i + 1) chars) = true).
    { apply startswith_lookup. intros [|[|[|k]]] c Hk; cbn in Hk; inversion Hk; subst;
        rewrite lookup_drop.
      - rewrite lookup_app_l in E1 by lia. rewrite <- E1. f_equal. lia.
      - rewrite lookup_app_l in E2 by lia. rewrite <- E2. f_equal. lia.
      - rewrite lookup_app_l in E3 by lia. rewrite <- E3. f_equal. lia. }
    congruence.
  - assert (Hcase : i + 1 = length chars \/ i + 2 = length chars \/ i + 3 = length chars)
      by lia.
    destruct Hcase as [H|[H|H]].
    + rewrite H, lookup_app_r, Nat.sub_diag in E1 by lia. cbn in E1. discriminate.
    + rewrite H, lookup_app_r, Nat.sub_diag in E2 by lia. cbn in E2. discriminate.
    + rewrite H, lookup_app_r, Nat.sub_diag in E3 by lia. cbn in E3. discriminate.
Qed.

Lemma startswith_app prefix rest : startswith prefix (prefix ++ rest) = true.
Proof.
  induction prefix as [|p prefix IH]; [reflexivity|]. cbn.
  rewrite Ascii.eqb_refl. exact IH.
Qed.

Lemma split_arrow_label main_topic subtopic :
  no_arrow main_topic ->
  split_arrow (main_topic ++ arrow ++ subtopic)%string = Some (main_topic, subtopic).
Proof.
  intros Hno. unfold split_arrow.
  rewrite !GenerationProofs.list_ascii_of_string_app.
  rewrite find_at_junction.
  - rewrite take_app_length, drop_app_add', drop_app_length by reflexivity.
    rewrite !string_of_list_ascii_of_string. reflexivity.
  - intros i Hi. apply arrow_not_before; [exact Hno|].
    rewrite <- GenerationProofs.length_list_ascii_of_string. exact Hi.
  - apply startswith_app.
Qed.

Lemma no_arrow_no_split name : no_arrow name -> split_arrow name = None.
Proof.
  intros Hno. unfold split_arrow.
  destruct (find _ _) as [i|] eqn:Hfind; [exfalso|reflexivity].
  assert (Hat : exists j, startswith (list_ascii_of_string arrow)
                            (drop j (list_ascii_of_string name)) = true).
  { clear Hno. revert i Hfind. induction (list_ascii_of_string name) as [|c s IH];
      intros i Hfind; rewrite find_unfold in Hfind.
    - destruct (startswith _ []) eqn:E; [exists 0; exact E|discriminate].
    - destruct (startswith _ (c :: s)) eqn:E; [exists 0; exact E|].
      destruct (find _ s) as [k|]; [|discriminate].
      destruct (IH k eq_refl) as [j Hj]. exists (S j). exact Hj. }
  destruct Hat as [j Hj]. rewrite startswith_lookup in Hj.
  pose proof (find_none _ _ (j + 1) Hno) as Hf.
  assert (Ht : startswith (list_ascii_of_string "→")
                 (drop (j + 1) (list_ascii_of_string name)) = true).
  { apply startswith_lookup. intros [|[|[|k]]] c Hk; cbn in Hk; inversion Hk; subst;
      rewrite lookup_drop.
    - rewrite <- (Hj 1 _ eq_refl), lookup_drop. f_equal. lia.
    - rewrite <- (Hj 2 _ eq_refl), lookup_drop. f_equal. lia.
    - rewrite <- (Hj 3 _ eq_refl), lookup_drop. f_equal. lia. }
  congruence.
Qed.

End RenderProofs.

(** ** What the renderer guarantees *)

Module RenderProperties.
Import Py Paths Processor Render RenderFacts RenderProofs.
Local Open Scope string_scope.
Local Open Scope list_scope.
Local Open Scope py_scope.

(** X24: a bundle can be rendered exactly when its items are well-formed.
    [generate_html_content] returns a page if and only if every concept is
    a dict with a title, a description that is a string and no topic other
    than a string, every MCQ a dict with an id, a correct answer, a question
    and options that can be ranged over, and every subjective question a
    dict with an id, a question and an answer that is a string; otherwise it
    raises, and the document has no page. *)
Theorem page_rendered_iff_items_well_formed content_data :
  is_ok (generate_html_content content_data) <-> renderable content_data = true.
Proof. apply generate_html_content_ok. Qed.

(** X25: the topic tree groups the concepts by their labels.  When the
    tree can be built, the dict it is built from holds every main topic
    once and every subtopic of a main topic once, every concept of the
    bundle exactly once, and each concept under the main topic and the
    subtopic that its label splits into at the first arrow (under ['main']
    when the label holds none); the main topics of the tree are those of the
    dict, in the same order. *)
Theorem topic_tree_groups_by_label concepts html :
  _generate_topic_tree_html concepts = Ok html ->
  exists topics,
    place_concepts [] concepts = Ok topics /\
    well_grouped topics /\
    tree_concepts topics ≡ₚ concepts /\
    map fst html = map fst topics.
Proof.
  unfold _generate_topic_tree_html. intros H.
  destruct (place_concepts [] concepts) as [topics|e] eqn:Hplace; [|discriminate].
  cbn [rbind] in H. exists topics. split; [reflexivity|]. split; [|split].
  - eapply place_concepts_grouped; [exact Hplace|]. split; constructor.
  - apply place_concepts_concepts in Hplace. exact Hplace.
  - clear Hplace. revert html H. induction topics as [|[main_topic subtopics] rest IH];
      intros html H; cbn in H.
    + inversion H. reflexivity.
    + destruct (_generate_subtopics_with_concepts_html subtopics) as [shown|e];
        [|discriminate]. cbn in H.
      destruct (for_each _ rest) as [others|e]; [|discriminate]. cbn in H.
      inversion H. cbn. f_equal. apply IH. reflexivity.
Qed.

(** X25, witness: concepts of two subtopics of one main topic and of a
    topic without subtopics, the first subtopic coming twice. *)
Lemma topic_tree_groups_by_label_witness :
  let concept (title topic : string) :=
    PDict [("title", PStr title); ("description", PStr "text"); ("topic", PStr topic)] in
  let concepts := [concept "a" "Rivers → The Indus"; concept "b" "Lakes";
                   concept "c" "Rivers → The Ganga"; concept "d" "Rivers → The Indus"] in
  exists html topics,
    _generate_topic_tree_html concepts = Ok html /\
    place_concepts [] concepts = Ok topics /\
    well_grouped topics /\
    tree_concepts topics ≡ₚ concepts /\
    map fst html = map fst topics /\
    topics = [("Rivers", [("The Indus", [concept "a" "Rivers → The Indus";
                                         concept "d" "Rivers → The Indus"]);
                          ("The Ganga", [concept "c" "Rivers → The Ganga"])]);
              ("Lakes", [("main", [concept "b" "Lakes"])])].
Proof.
  cbv zeta. eexists.
  match goal with
  | |- exists topics, ?run = Ok _ /\ _ =>
      assert (Hrun : run = Ok _) by (vm_compute; reflexivity);
      destruct (topic_tree_groups_by_label _ _ Hrun) as (topics & Hp & Hg & Hc & Hk)
  end.
  exists topics. split; [exact Hrun|]. split; [exact Hp|]. split; [exact Hg|].
  split; [exact Hc|]. split; [exact Hk|].
  vm_compute in Hp. inversion Hp. reflexivity.
Defined.

(** X26: the label of a subtopic splits back into its parts.  When the
    name of a main topic holds no arrow, the label ["main → subtopic"] given
    to the concepts of a subtopic splits into that main topic and that
    subtopic, whatever the subtopic's name, and the name itself, the label of
    the concepts of a main topic without subtopics, is not split. *)
Theorem label_splits_back main_topic subtopic :
  no_arrow main_topic ->
  split_arrow (main_topic ++ " → " ++ subtopic)%string = Some (main_topic, subtopic) /\
  split_arrow main_topic = None.
Proof.
  intros Hno. split; [apply split_arrow_label, Hno|apply no_arrow_no_split, Hno].
Qed.

(** X26, witness: a subtopic whose own name holds an arrow. *)
Lemma label_splits_back_witness :
  no_arrow "Rivers" /\
  split_arrow "Rivers → The Indus → upper course" = Some ("Rivers", "The Indus → upper course") /\
  split_arrow "Rivers" = None.
Proof.
  assert (H : no_arrow "Rivers") by reflexivity.
  split; [exact H|]. exact (label_splits_back "Rivers" "The Indus → upper course" H).
Defined.

End RenderProperties.

(** ** Properties of the parts put together *)

Module SystemProofs.
Import Py Processor Parallel Facts ParallelFacts ProcessorProofs ParallelProofs.
Import GenerationFacts GenerationProofs PipelineFacts PipelineProofs.
Import Render RenderFacts RenderProofs System.
Local Open Scope string_scope.
Local Open Scope list_scope.
Local Open Scope py_scope.

Lemma getitem_get item key value dflt :
  py_getitem item key = Ok value -> py_get item key dflt = Ok value.
Proof.
  unfold py_getitem, py_get. destruct item as [| | | | |d]; try discriminate.
  destruct (dict_lookup key d); [|discriminate]. intros H. inversion H. reflexivity.
Qed.

Lemma labelled_leaf_place outline leaf :
  Forall (fun topic => no_arrow (main_topic topic)) outline ->
  leaf ∈ labelled_leaves outline ->
  exists place,
    place ∈ leaf_places outline /\
    match split_arrow (snd (fst leaf)) with
    | Some (main, sub) => Some (main, sub)
    | None => Some (snd (fst leaf), "main")
    end = Some place.
Proof.
  intros Hno Hin. unfold labelled_leaves in Hin. unfold leaf_places.
  apply list_elem_of_In, in_flat_map in Hin as (topic & Htopic & Hleaf).
  apply list_elem_of_In in Htopic.
  pose proof (proj1 (Forall_forall _ _) Hno topic Htopic) as Hmain.
  destruct (subtopics topic) as [|sub subs] eqn:Hsubs.
  - destruct Hleaf as [<-|[]]. cbn [fst snd].
    rewrite (no_arrow_no_split _ Hmain). eexists. split; [|reflexivity].
    apply list_elem_of_In, in_flat_map. exists topic. split; [apply list_elem_of_In, Htopic|].
    rewrite Hsubs. left. reflexivity.
  - apply in_map_iff in Hleaf as (s & <- & Hs). cbn [fst snd].
    rewrite (split_arrow_label _ _ Hmain). eexists. split; [|reflexivity].
    apply list_elem_of_In, in_flat_map. exists topic. split; [apply list_elem_of_In, Htopic|].
    rewrite Hsubs. apply in_map_iff. exists s. auto.
Qed.

(** *** Placeholders can be rendered *)

Lemma placeholder_concept_renderable label :
  renderable_concept (placeholder_concept label) = true.
Proof. reflexivity. Qed.

Lemma additional_mcqs_renderable text count start_id :
  forallb renderable_mcq (_generate_additional_mcqs text count start_id) = true.
Proof.
  unfold _generate_additional_mcqs. apply forallb_forall. intros item Hin.
  apply in_map_iff in Hin as (i & <- & _). reflexivity.
Qed.

Lemma additional_subjective_renderable text count start_id :
  forallb renderable_subjective (_generate_additional_subjective text count start_id) = true.
Proof.
  unfold _generate_additional_subjective. apply forallb_forall. intros item Hin.
  apply in_map_iff in Hin as (i & <- & _). reflexivity.
Qed.

(** *** The jobs *)

Lemma job_info_with_renderer print_page env pdf_path :
  job_info (with_renderer print_page env) pdf_path
  = match process_pdf env pdf_path with
    | Ok content_data =>
        if renderable content_data
        then Some {| Parallel.title := Processor.title (Processor.subject_info content_data);
                     Parallel.icon := Processor.icon (Processor.subject_info content_data);
                     filename := Paths.relative_filename pdf_path;
                     Parallel.stats := Processor.stats content_data;
                     original_pdf := Paths.basename pdf_path;
                     processed_at := now env pdf_path |}
        else None
    | Raise _ => None
    end.
Proof.
  unfold job_info. change (process_pdf (with_renderer print_page env) pdf_path)
    with (process_pdf env pdf_path).
  destruct (process_pdf env pdf_path) as [content_data|e]; [|reflexivity].
  cbn [Parallel.generate_html_content with_renderer]. unfold render.
  pose proof (generate_html_content_ok content_data) as Hok.
  destruct (renderable content_data).
  - destruct (proj2 Hok eq_refl) as [page ->]. reflexivity.
  - destruct (generate_html_content content_data) as [page|e]; [|reflexivity].
    exfalso. assert (H : false = true) by (apply Hok; eexists; reflexivity). discriminate.
Qed.

Lemma process_single_pdf_result env pdf_path st :
  fst (process_single_pdf env pdf_path st) = job_info env pdf_path.
Proof.
  unfold process_single_pdf, job_info, generate_html_page.
  destruct (process_pdf env pdf_path) as [content_data|e]; [|reflexivity].
  destruct (Parallel.generate_html_content env content_data); reflexivity.
Qed.

(** *** The model out of reach *)

Lemma leaves_offline headings :
  leaves (map (fun topic => {| main_topic := topic; subtopics := [] |}) headings)
  = map (fun topic => (topic, 3)) headings.
Proof. induction headings as [|h rest IH]; [reflexivity|]. cbn. f_equal. exact IH. Qed.

Lemma total_min_offline (headings : list string) :
  total_min (map (fun topic => (topic, 3)) headings) = 3 * length headings.
Proof. unfold total_min. induction headings as [|h rest IH]; cbn in *; lia. Qed.

Lemma subtopics_offline (headings : list string) :
  sum_list (map (fun topic => length (subtopics topic))
                (map (fun topic => {| main_topic := topic; subtopics := [] |}) headings)) = 0.
Proof. induction headings as [|h rest IH]; [reflexivity|exact IH]. Qed.

Lemma offline_bundle self images extract subject pdf_path w :
  used_images self = Some images ->
  unreachable (replies w) ->
  let text := extract pdf_path in
  let headings := Text._extract_headings_from_text text in
  exists w',
    process_pdf_with_structured_content self extract offline_outline subject pdf_path w
    = (Ok {| subject_info := subject pdf_path;
             concepts := map placeholder_concept headings;
             mcq_questions := _generate_additional_mcqs text (3 * length headings) 1;
             subjective_questions :=
               _generate_additional_subjective text (3 * length headings) 1;
             Processor.stats :=
               {| total_concepts := length headings;
                  total_mcqs := 3 * length headings;
                  total_subjective := 3 * length headings;
                  main_topics := length headings;
                  total_subtopics := 0;
                  images_used := size images |} |}, w').
Proof.
  intros Himages Hdown. cbv zeta.
  destruct (process_unreachable_bundle self images extract offline_outline subject pdf_path w
              Himages Hdown) as [w' ->].
  exists w'. unfold offline_outline.
  rewrite labelled_leaves_flat, leaves_offline, total_min_offline, subtopics_offline,
    !length_map, map_map.
  reflexivity.
Qed.

Lemma offline_bundle_renderable text headings subject stats :
  renderable {| subject_info := subject;
                concepts := map placeholder_concept headings;
                mcq_questions := _generate_additional_mcqs text (3 * length headings) 1;
                subjective_questions :=
                  _generate_additional_subjective text (3 * length headings) 1;
                Processor.stats := stats |} = true.
Proof.
  unfold renderable. cbn [concepts mcq_questions subjective_questions].
  rewrite additional_mcqs_renderable, additional_subjective_renderable, !andb_true_r.
  apply forallb_forall. intros c Hin. apply in_map_iff in Hin as (label & <- & _).
  reflexivity.
Qed.

(** What [__init__] leaves of [used_images]. *)
Lemma init_used_images api_key endpoint :
  used_images (__init__ api_key endpoint)
  = if truthy api_key && truthy endpoint then Some ∅ else None.
Proof. unfold __init__. destruct (truthy api_key), (truthy endpoint); reflexivity. Qed.

Lemma offline_job self print_page read subject clock pdf_files pdf_path :
  used_images self = Some ∅ ->
  job_info (offline print_page self read subject clock pdf_files) pdf_path
  = Some (offline_entry read subject clock pdf_path).
Proof.
  intros Himages.
  unfold offline. rewrite job_info_with_renderer. unfold process_pdf.
  cbn [processor Parallel._extract_text_from_pdf Parallel._identify_topic_headings
       Parallel._extract_subject_info api_replies now].
  destruct (offline_bundle self ∅ (fun p => Text._extract_text_from_pdf (read p)) subject
              pdf_path {| replies := []; trail := [] |} Himages) as [w' ->]; [constructor|].
  cbn [fst]. rewrite offline_bundle_renderable, size_empty. reflexivity.
Qed.

Lemma job_needs_settings env pdf_path :
  used_images (processor env) = None -> job_info env pdf_path = None.
Proof.
  intros Himages. unfold job_info, process_pdf.
  destruct (process_needs_settings (processor env) (Parallel._extract_text_from_pdf env)
              (Parallel._identify_topic_headings env) (Parallel._extract_subject_info env)
              pdf_path {| replies := api_replies env pdf_path; trail := [] |} Himages)
    as [e ->].
  reflexivity.
Qed.

End SystemProofs.

(** ** What the system guarantees from end to end *)

Module SystemProperties.
Import Py Processor Parallel Facts ParallelFacts ProcessorProofs ParallelProofs.
Import GenerationFacts GenerationProofs PipelineFacts PipelineProofs.
Import Render RenderFacts RenderProofs System SystemProofs.
Import TextFacts.
Local Open Scope string_scope.
Local Open Scope list_scope.
Local Open Scope py_scope.

(** X27: the tree of a page follows the outline.  When no main topic of
    the outline holds an arrow in its name, every concept of a returned
    bundle is put by the topic tree under a main topic of the outline and
    one of its subtopics, or under ['main'] for a main topic that has
    none. *)
Theorem concepts_placed_by_outline self extract identify subject pdf_path w b w' :
  process_pdf_with_structured_content self extract identify subject pdf_path w
  = (Ok b, w') ->
  Forall (fun topic => no_arrow (main_topic topic)) (identify (extract pdf_path)) ->
  Forall (fun concept => exists place,
            place ∈ leaf_places (identify (extract pdf_path)) /\
            place_of concept = Some place)
         (concepts b).
Proof.
  intros Hrun Hno.
  pose proof (process_returns _ _ _ _ _ _ _ _ Hrun) as (Hg & _ & _).
  destruct Hg as (cs & ms & ss & Hc & _ & _ & _ & _ & _ & Hlab).
  cbn [all_concepts app] in Hc. subst cs.
  eapply Forall_impl; [exact Hlab|]. intros c (leaf & Hleaf & Htopic).
  destruct (labelled_leaf_place _ _ Hno Hleaf) as (place & Hplace & Hsplit).
  exists place. split; [exact Hplace|].
  unfold place_of. rewrite (getitem_get _ _ _ _ Htopic). exact Hsplit.
Qed.

(** X27, witness: a chapter with two subtopics and a topic without. *)
Lemma concepts_placed_by_outline_witness :
  exists b w',
    process_chapter rivers_and_lakes substantive_replies = (Ok b, w') /\
    leaf_places rivers_and_lakes
    = [("Rivers", "The Indus"); ("Rivers", "The Ganga"); ("Lakes", "main")] /\
    Forall (fun concept => exists place,
              place ∈ leaf_places rivers_and_lakes /\ place_of concept = Some place)
           (concepts b).
Proof.
  eexists _, _. split; [vm_compute; reflexivity|]. split; [reflexivity|].
  eapply (concepts_placed_by_outline with_settings (fun _ => "chapter text")
            (fun _ => rivers_and_lakes) chapter_info "chapter.pdf" {| replies := substantive_replies; trail := [] |}).
  - vm_compute. reflexivity.
  - repeat constructor.
Defined.

(** X28: a document is listed exactly when its bundle can be rendered.
    With the pages rendered by [HTMLGenerator], the job of a document
    returns an entry if and only if the processor returns a bundle and every
    item of the bundle is well-formed; a single MCQ without options, or a
    subjective question without an answer, costs the document its page and
    its place in the index. *)
Theorem document_listed_iff_renderable print_page env pdf_path st :
  is_Some (fst (process_single_pdf (with_renderer print_page env) pdf_path st)) <->
  exists content_data,
    process_pdf env pdf_path = Ok content_data /\ renderable content_data = true.
Proof.
  rewrite process_single_pdf_result, job_info_with_renderer.
  destruct (process_pdf env pdf_path) as [content_data|e].
  - destruct (renderable content_data) eqn:Hr.
    + split; [intros _; eauto|intros _; eauto].
    + split; [intros [? ?]; discriminate|].
      intros (c & Hc & Hren). inversion Hc; subst. congruence.
  - split; [intros [? ?]; discriminate|intros (c & Hc & _); discriminate].
Qed.

(** X29: with the model out of reach a chapter follows the headings of its
    text.  For a document whose text is ASCII, the outline that
    [_identify_topic_headings] returns when the call of the model fails is
    made of the headings found in its text.  A processor that found its
    settings then returns a bundle that holds one placeholder concept for
    each heading, labelled with it, and three placeholder questions of
    either kind for each, numbered from 1; the counts say so, and the bundle
    can be rendered.  A processor that did not find them raises
    [AttributeError] and returns no bundle. *)
Theorem offline_chapter_follows_headings self json_loads pdf subject pdf_path w :
  ascii_document pdf = true ->
  unreachable (replies w) ->
  let text := Text._extract_text_from_pdf pdf in
  let headings := Text._extract_headings_from_text text in
  let run :=
    process_pdf_with_structured_content self (fun _ => text) offline_outline subject
                                        pdf_path w in
  Text.outline_of (Text._identify_topic_headings json_loads (Some EmptyString) text)
  = Some (offline_outline text) /\
  match used_images self with
  | Some _ =>
      exists b w',
        run = (Ok b, w') /\
        concepts b = map placeholder_concept headings /\
        mcq_questions b = _generate_additional_mcqs text (3 * length headings) 1 /\
        subjective_questions b
        = _generate_additional_subjective text (3 * length headings) 1 /\
        total_concepts (Processor.stats b) = length headings /\
        total_mcqs (Processor.stats b) = 3 * length headings /\
        total_subjective (Processor.stats b) = 3 * length headings /\
        renderable b = true
  | None => exists w', run = (Raise AttributeError, w')
  end.
Proof.
  intros _ Hdown. cbv zeta. split; [apply TextProofs.outline_of_headings|].
  destruct (used_images self) as [images|] eqn:Himages.
  - destruct (offline_bundle self images (fun _ => Text._extract_text_from_pdf pdf) subject
                pdf_path w Himages Hdown) as [w' Hrun].
    eexists _, w'. split; [exact Hrun|].
    cbn [concepts mcq_questions subjective_questions Processor.stats total_concepts
         total_mcqs total_subjective].
    repeat (split; [reflexivity|]). apply offline_bundle_renderable.
  - apply process_without_settings; assumption.
Qed.

(** X29, witness: a document of three pages, one of them a heading, one
    without text and one of running text, read by a processor that found
    its settings and by one that did not. *)
Lemma offline_chapter_follows_headings_witness :
  let text := Text._extract_text_from_pdf two_page_document in
  ascii_document two_page_document = true /\
  Text._extract_headings_from_text text = ["The Rivers of India"] /\
  (exists b w',
     process_pdf_with_structured_content with_settings (fun _ => text) offline_outline
       chapter_info "rivers.pdf" {| replies := []; trail := [] |} = (Ok b, w') /\
     concepts b = [placeholder_concept "The Rivers of India"] /\
     total_concepts (Processor.stats b) = 1 /\
     total_mcqs (Processor.stats b) = 3 /\
     total_subjective (Processor.stats b) = 3 /\
     renderable b = true) /\
  (exists w',
     process_pdf_with_structured_content without_settings (fun _ => text) offline_outline
       chapter_info "rivers.pdf" {| replies := []; trail := [] |}
     = (Raise AttributeError, w')).
Proof.
  cbv zeta.
  assert (Hh : Text._extract_headings_from_text
                 (Text._extract_text_from_pdf two_page_document)
               = ["The Rivers of India"]) by (vm_compute; reflexivity).
  split; [reflexivity|]. split; [exact Hh|]. split.
  - destruct (offline_chapter_follows_headings with_settings (fun _ => Raise ValueError)
                two_page_document chapter_info "rivers.pdf"
                {| replies := []; trail := [] |} eq_refl)
      as (_ & b & w' & Hrun & Hc & _ & _ & Hn & Hm & Hs & Hr); [constructor|].
    rewrite Hh in Hc, Hn, Hm, Hs. exists b, w'. auto 10.
  - destruct (offline_chapter_follows_headings without_settings (fun _ => Raise ValueError)
                two_page_document chapter_info "rivers.pdf"
                {| replies := []; trail := [] |} eq_refl) as (_ & Hraise); [constructor|].
    exact Hraise.
Defined.

(** X30: with the model out of reach, a system whose processor found its
    settings processes and lists every document found, and one whose
    processor did not lists none.  The documents have ASCII names and text.
    In the first case each job returns the entry built from the headings of
    its document, whether or not the document can be read, so that the
    result lists all the documents, in the order their jobs finish, and the
    run deploys once.  In the second every job fails when the processor
    comes to count its images: nothing is listed and nothing is
    deployed. *)
Theorem offline_run_lists_every_document api_key endpoint print_page read subject clock
    pdf_files max_workers choices disk :
  max_workers <> 0 -> pdf_files <> [] ->
  Forall (fun pdf_path => isascii pdf_path = true /\
                          ascii_document (read pdf_path) = true) pdf_files ->
  let env := offline print_page (__init__ api_key endpoint) read subject clock pdf_files in
  let st := snd (run env max_workers choices disk) in
  schedule env max_workers choices ≡ₚ pdf_files /\
  if truthy api_key && truthy endpoint
  then processed_pdfs st
       = map (offline_entry read subject clock) (schedule env max_workers choices) /\
       deployments (history st) = 1
  else processed_pdfs st = [] /\ deployments (history st) = 0.
Proof.
  intros Hmw Hfiles _. cbv zeta.
  set (env := offline print_page (__init__ api_key endpoint) read subject clock pdf_files).
  assert (Hperm : schedule env max_workers choices ≡ₚ pdf_files)
    by apply (schedule_perm env max_workers choices Hmw).
  split; [exact Hperm|].
  assert (Hne : get_pdf_files env <> []) by exact Hfiles.
  destruct (run_outcome env max_workers choices disk Hne Hmw)
    as (events & _ & Hp & Hh & Hd & _).
  pose proof (init_used_images api_key endpoint) as Himages.
  destruct (truthy api_key && truthy endpoint).
  - assert (Hjobs : forall order,
              omap (job_info env) order = map (offline_entry read subject clock) order).
    { induction order as [|p order IH]; [reflexivity|].
      cbn [omap list_omap map]. subst env. rewrite (offline_job _ _ _ _ _ _ _ Himages).
      cbn. f_equal. exact IH. }
    split; [rewrite Hp; apply Hjobs|].
    rewrite Hh, Hp, Hjobs.
    destruct (schedule env max_workers choices) as [|p order] eqn:Hs.
    { apply Permutation_nil_l in Hperm. congruence. }
    cbn [map].
    change (MadeDirs ?d :: Wrote ?path ?page :: ?rest)
      with ([MadeDirs d; Wrote path page] ++ rest).
    rewrite !deployments_app, Hd, deployments_submitted. reflexivity.
  - assert (Hnone : processed_pdfs (snd (run env max_workers choices disk)) = []).
    { rewrite Hp. apply omap_all_none. intros p _. apply job_needs_settings. exact Himages. }
    split; [exact Hnone|].
    rewrite Hh, Hnone.
    change (MadeDirs ?d :: Wrote ?path ?page :: ?rest)
      with ([MadeDirs d; Wrote path page] ++ rest).
    rewrite !deployments_app, Hd, deployments_submitted. reflexivity.
Qed.

(** X30, witness: two documents, one of which cannot be opened.  With the
    settings found both are listed, the unreadable one with no content;
    without them neither is. *)
Lemma offline_run_lists_every_document_witness :
  let files := ["pdfs/Class 9 - Rivers.pdf"; "pdfs/Class 9 - Lakes.pdf"] in
  let env self := offline (fun _ => "<html>") self shelf chapter_info (fun _ => "12:00:00")
                          files in
  let st := snd (run (env with_settings) 2 [1; 0] ∅) in
  let st' := snd (run (env without_settings) 2 [1; 0] ∅) in
  map (fun info => (filename info, total_concepts (Parallel.stats info),
                    total_mcqs (Parallel.stats info)))
      (processed_pdfs st)
  = [("Class 9/Lakes.html", 0, 0); ("Class 9/Rivers.html", 1, 3)] /\
  deployments (history st) = 1 /\
  processed_pdfs st' = [] /\
  deployments (history st') = 0.
Proof.
  cbv zeta.
  assert (Hascii : Forall (fun pdf_path => isascii pdf_path = true /\
                                           ascii_document (shelf pdf_path) = true)
                          ["pdfs/Class 9 - Rivers.pdf"; "pdfs/Class 9 - Lakes.pdf"])
    by (repeat constructor).
  destruct (offline_run_lists_every_document (Some "key")
              (Some "https://learning.openai.azure.com/") (fun _ => "<html>") shelf
              chapter_info (fun _ => "12:00:00")
              ["pdfs/Class 9 - Rivers.pdf"; "pdfs/Class 9 - Lakes.pdf"] 2 [1; 0] ∅)
    as (_ & Hp & Hd); [discriminate|discriminate|exact Hascii|].
  destruct (offline_run_lists_every_document None None (fun _ => "<html>") shelf
              chapter_info (fun _ => "12:00:00")
              ["pdfs/Class 9 - Rivers.pdf"; "pdfs/Class 9 - Lakes.pdf"] 2 [1; 0] ∅)
    as (_ & Hp' & Hd'); [discriminate|discriminate|exact Hascii|].
  split; [|split; [exact Hd|split; [exact Hp'|exact Hd']]].
  unfold with_settings. rewrite Hp. vm_compute. reflexivity.
Defined.

End SystemProperties.
